(** * Smart contacts: the contact store and its encrypted persistence

    A shallow embedding of [Contact], [ContactManager] (core), [Crypto]
    (core/Crypto.js), of the form of [AddContactModal] and of the parts of
    [ContactList], [DetailModal] and [App] (ui) that compute what is shown,
    exported or cleared; the properties of the design document that
    concern them (C1 to C10), and further properties that the code has
    (X1 and following).

    JavaScript strings are sequences of UTF-16 code units; a [Uint8Array] is
    a list of bytes.  Promises are run to completion in program order, an
    exception is an explicit alternative of the result, and [localStorage]
    is a finite map that is threaded through the operations.  What the
    program obtains from its host (AES-GCM, JSON, lower-casing, the clock,
    the storage quota, the number of arguments a call takes) is the
    interface [Platform]; its documented contract is [PlatformLaws].  The text codecs ([TextEncoder], [TextDecoder],
    [btoa], [atob]) are written out after their standards. *)

From Stdlib Require Import NArith ZArith Lia Strings.Byte String Ascii List Sorted.
From stdpp Require Import base option list countable gmap.

Set Warnings "-register-all".
Local Open Scope N_scope.

(** [lia] reads division and remainder by a constant. *)
Ltac Zify.zify_post_hook ::= Z.to_euclidean_division_equations.

(** ** JavaScript values *)

(** A UTF-16 code unit, as its two bytes: every value of the type is a code
    unit, so a string holds nothing else. *)
Record char16 := C16 { c16_hi : byte; c16_lo : byte }.

Abbreviation jsstring := (list char16).
Abbreviation Uint8Array := (list byte).

(** [c.charCodeAt(0)] *)
Definition charCode (c : char16) : N :=
  256 * Byte.to_N (c16_hi c) + Byte.to_N (c16_lo c).

(** Storing a number in a [Uint8Array] keeps it modulo 256. *)
Definition byte_of_N (n : N) : byte :=
  match Byte.of_N (n mod 256) with Some b => b | None => x00 end.

(** [String.fromCharCode(n)]: the code unit [n] modulo 2^16. *)
Definition fromCharCode (n : N) : char16 :=
  C16 (byte_of_N (n / 256)) (byte_of_N n).

(** A string literal of the source, for ASCII text. *)
Fixpoint js (s : string) : jsstring :=
  match s with
  | EmptyString => []
  | String a s' => fromCharCode (N_of_ascii a) :: js s'
  end.

Arguments js : simpl never.

(** A string given by its code units (for text outside ASCII). *)
Definition units (l : list N) : jsstring := map fromCharCode l.

Lemma byte_of_to_N (b : byte) : byte_of_N (Byte.to_N b) = b.
Proof.
  unfold byte_of_N. pose proof (Byte.to_N_bounded b).
  rewrite N.mod_small by lia. now rewrite Byte.of_to_N.
Qed.

Lemma fromCharCode_charCode (c : char16) : fromCharCode (charCode c) = c.
Proof.
  destruct c as [h l]. unfold fromCharCode, charCode. cbn [c16_hi c16_lo].
  pose proof (Byte.to_N_bounded h). pose proof (Byte.to_N_bounded l).
  replace ((256 * Byte.to_N h + Byte.to_N l) / 256) with (Byte.to_N h) by lia.
  rewrite byte_of_to_N. f_equal.
  unfold byte_of_N.
  replace ((256 * Byte.to_N h + Byte.to_N l) mod 256) with (Byte.to_N l) by lia.
  now rewrite Byte.of_to_N.
Qed.

#[global] Instance byte_eq_dec : EqDecision byte := Byte.byte_eq_dec.

#[global] Instance char16_eq_dec : EqDecision char16.
Proof. solve_decision. Defined.

#[global] Instance char16_countable : Countable char16 :=
  inj_countable' charCode fromCharCode fromCharCode_charCode.

(** [a === b] on strings is [bool_decide (a = b)]. *)
Fixpoint startsWith (s p : jsstring) : bool :=
  match p, s with
  | [], _ => true
  | _ :: _, [] => false
  | x :: p', y :: s' => bool_decide (x = y) && startsWith s' p'
  end.

(** [s.includes(sub)] *)
Fixpoint includes (s sub : jsstring) : bool :=
  startsWith s sub ||
  match s with
  | [] => false
  | _ :: s' => includes s' sub
  end.

(** The values [JSON.parse] returns; the numbers are the whole numbers. *)
Inductive JValue :=
| JNull
| JBool (b : bool)
| JNum (n : Z)
| JStr (s : jsstring)
| JArr (l : list JValue)
| JObj (fields : list (jsstring * JValue)).

(** [if (v)] *)
Definition truthy (v : JValue) : bool :=
  match v with
  | JNull => false
  | JBool b => b
  | JNum n => negb (n =? 0)%Z
  | JStr s => negb (bool_decide (s = []))
  | JArr _ | JObj _ => true
  end.

(** [item.key], [undefined] when the property is absent or [item] is no
    object *)
Fixpoint prop_lookup (key : jsstring) (fields : list (jsstring * JValue)) : option JValue :=
  match fields with
  | [] => None
  | (k, v) :: rest => if bool_decide (k = key) then Some v else prop_lookup key rest
  end.

Definition get_prop (item : JValue) (key : jsstring) : option JValue :=
  match item with
  | JObj fields => prop_lookup key fields
  | _ => None
  end.

(** A [Date]: its time value, or the invalid date. *)
Inductive DateV :=
| ValidDate (ms : Z)
| InvalidDate.

#[global] Instance DateV_eq_dec : EqDecision DateV.
Proof. solve_decision. Defined.

(** ** Text codecs of the host *)

(** [TextEncoder.encode] and [TextDecoder.decode] (UTF-8), after the WHATWG
    Encoding standard. *)
Module Utf8.

Definition is_high (n : N) : bool := (0xD800 <=? n) && (n <=? 0xDBFF).
Definition is_low (n : N) : bool := (0xDC00 <=? n) && (n <=? 0xDFFF).

(** The scalar values of a string: a surrogate pair is one code point, a
    surrogate that stands alone is read as U+FFFD. *)
Fixpoint code_points (s : list N) : list N :=
  match s with
  | [] => []
  | c :: s' =>
    if is_high c then
      match s' with
      | d :: s'' =>
        if is_low d
        then (0x10000 + (c - 0xD800) * 0x400 + (d - 0xDC00)) :: code_points s''
        else 0xFFFD :: code_points s'
      | [] => [0xFFFD]
      end
    else if is_low c then 0xFFFD :: code_points s'
    else c :: code_points s'
  end.

(** The UTF-8 encoder's bytes for one scalar value. *)
Definition encode_cp (cp : N) : list N :=
  if cp <? 0x80 then [cp]
  else if cp <? 0x800 then
    [N.lor 0xC0 (N.shiftr cp 6); N.lor 0x80 (N.land cp 0x3F)]
  else if cp <? 0x10000 then
    [N.lor 0xE0 (N.shiftr cp 12);
     N.lor 0x80 (N.land (N.shiftr cp 6) 0x3F);
     N.lor 0x80 (N.land cp 0x3F)]
  else
    [N.lor 0xF0 (N.shiftr cp 18);
     N.lor 0x80 (N.land (N.shiftr cp 12) 0x3F);
     N.lor 0x80 (N.land (N.shiftr cp 6) 0x3F);
     N.lor 0x80 (N.land cp 0x3F)].

(** [new TextEncoder().encode(s)] *)
Definition encode (s : jsstring) : Uint8Array :=
  map byte_of_N (flat_map encode_cp (code_points (map charCode s))).

(** The state of the UTF-8 decoder. *)
Record dstate := DState {
  d_cp : N;
  d_seen : N;
  d_needed : N;
  d_lower : N;
  d_upper : N
}.

Definition d_init : dstate := DState 0 0 0 0x80 0xBF.

Definition emit (o : option N) : list N :=
  match o with Some cp => [cp] | None => [] end.

(** The decoder on a byte read while no sequence is open. *)
Definition lead_byte (b : N) : option N * dstate :=
  if b <=? 0x7F then (Some b, d_init)
  else if (0xC2 <=? b) && (b <=? 0xDF) then
    (None, DState (N.land b 0x1F) 0 1 0x80 0xBF)
  else if (0xE0 <=? b) && (b <=? 0xEF) then
    (None, DState (N.land b 0xF) 0 2
                  (if b =? 0xE0 then 0xA0 else 0x80)
                  (if b =? 0xED then 0x9F else 0xBF))
  else if (0xF0 <=? b) && (b <=? 0xF4) then
    (None, DState (N.land b 0x7) 0 3
                  (if b =? 0xF0 then 0x90 else 0x80)
                  (if b =? 0xF4 then 0x8F else 0xBF))
  else (Some 0xFFFD, d_init).

(** The decoder over a byte sequence; an ill-formed sequence yields U+FFFD
    and the byte that ended it is read again. *)
Fixpoint decode_cps (st : dstate) (bs : list N) : list N :=
  match bs with
  | [] => if d_needed st =? 0 then [] else [0xFFFD]
  | b :: bs' =>
    if d_needed st =? 0 then
      emit (fst (lead_byte b)) ++ decode_cps (snd (lead_byte b)) bs'
    else if negb ((d_lower st <=? b) && (b <=? d_upper st)) then
      0xFFFD :: emit (fst (lead_byte b)) ++ decode_cps (snd (lead_byte b)) bs'
    else
      let cp := N.lor (N.shiftl (d_cp st) 6) (N.land b 0x3F) in
      if d_seen st + 1 =? d_needed st then cp :: decode_cps d_init bs'
      else decode_cps (DState cp (d_seen st + 1) (d_needed st) 0x80 0xBF) bs'
  end.

(** A code point as UTF-16 code units. *)
Definition utf16_units (cp : N) : list N :=
  if cp <? 0x10000 then [cp]
  else [0xD800 + (cp - 0x10000) / 0x400; 0xDC00 + (cp - 0x10000) mod 0x400].

(** The byte order mark is not part of the decoded text. *)
Definition strip_bom (bs : list N) : list N :=
  match bs with
  | a :: b :: c :: rest =>
    if (a =? 0xEF) && (b =? 0xBB) && (c =? 0xBF) then rest else bs
  | _ => bs
  end.

(** [new TextDecoder().decode(bytes)] *)
Definition decode (bs : Uint8Array) : jsstring :=
  map fromCharCode
      (flat_map utf16_units (decode_cps d_init (strip_bom (map Byte.to_N bs)))).

(** Text that UTF-8 carries unchanged: no surrogate stands alone and the
    text does not start with U+FEFF. *)
Fixpoint well_formed (s : list N) : bool :=
  match s with
  | [] => true
  | c :: s' =>
    if is_high c then
      match s' with
      | d :: s'' => is_low d && well_formed s''
      | [] => false
      end
    else negb (is_low c) && well_formed s'
  end.

Definition no_bom (s : list N) : bool :=
  match s with
  | c :: _ => negb (c =? 0xFEFF)
  | [] => true
  end.

Definition utf8_safe (s : jsstring) : bool :=
  well_formed (map charCode s) && no_bom (map charCode s).

(** A scalar value: a code point that is no surrogate. *)
Definition scalar (cp : N) : Prop := cp < 0x110000 /\ ~ (0xD800 <= cp <= 0xDFFF).

End Utf8.

(** [btoa] and [atob], after RFC 4648 and the forgiving-base64 decoder of
    the HTML standard. *)
Module Base64.

(** The character of a 6-bit value. *)
Definition alphabet (v : N) : N :=
  if v <? 26 then 65 + v
  else if v <? 52 then 97 + (v - 26)
  else if v <? 62 then 48 + (v - 52)
  else if v =? 62 then 43
  else 47.

(** The 6-bit value of a character of the alphabet. *)
Definition value (c : N) : option N :=
  if (65 <=? c) && (c <=? 90) then Some (c - 65)
  else if (97 <=? c) && (c <=? 122) then Some (c - 97 + 26)
  else if (48 <=? c) && (c <=? 57) then Some (c - 48 + 52)
  else if c =? 43 then Some 62
  else if c =? 47 then Some 63
  else None.

Definition pad : N := 61.

(** The 6-bit values of a byte sequence: three bytes are four values, and
    a final group of one or two bytes is two or three values. *)
Fixpoint sextets (bs : list N) : list N :=
  match bs with
  | [] => []
  | [a] => [a / 4; a mod 4 * 16]
  | [a; b] => [a / 4; a mod 4 * 16 + b / 16; b mod 16 * 4]
  | a :: b :: c :: rest =>
    a / 4 :: (a mod 4 * 16 + b / 16) :: (b mod 16 * 4 + c / 64) :: c mod 64 :: sextets rest
  end.

(** The padding that completes the final group of four characters. *)
Definition padding (bs : list N) : list N :=
  match (length bs mod 3)%nat with
  | 1%nat => [pad; pad]
  | 2%nat => [pad]
  | _ => []
  end.

Definition encode_bytes (bs : list N) : list N :=
  map alphabet (sextets bs) ++ padding bs.

(** [btoa(s)]: [None] is the InvalidCharacterError for a character above
    U+00FF. *)
Definition btoa (s : jsstring) : option jsstring :=
  if forallb (fun c => charCode c <? 256) s
  then Some (map fromCharCode (encode_bytes (map charCode s)))
  else None.

Definition is_whitespace (c : N) : bool :=
  (c =? 9) || (c =? 10) || (c =? 12) || (c =? 13) || (c =? 32).

(** Without a closing [=]. *)
Definition drop_pad (s : list N) : list N :=
  match rev s with
  | c :: r => if c =? pad then rev r else s
  | [] => s
  end.

(** At a length that is a multiple of four, one or two closing [=] are
    dropped. *)
Definition strip_padding (s : list N) : list N :=
  if N.of_nat (length s) mod 4 =? 0 then drop_pad (drop_pad s) else s.

Fixpoint values (s : list N) : option (list N) :=
  match s with
  | [] => Some []
  | c :: s' =>
    match value c, values s' with
    | Some v, Some vs => Some (v :: vs)
    | _, _ => None
    end
  end.

(** Four values are three bytes; of a final group of two or three values
    the bits that fill no byte are dropped. *)
Fixpoint decode_values (vs : list N) : list N :=
  match vs with
  | a :: b :: c :: d :: rest =>
    (a * 4 + b / 16) :: (b mod 16 * 16 + c / 4) :: (c mod 4 * 64 + d)
    :: decode_values rest
  | [a; b; c] => [a * 4 + b / 16; b mod 16 * 16 + c / 4]
  | [a; b] => [a * 4 + b / 16]
  | _ => []
  end.

(** [atob(s)]: [None] is the InvalidCharacterError. *)
Definition atob (s : jsstring) : option jsstring :=
  let data := strip_padding (List.filter (fun c => negb (is_whitespace c)) (map charCode s)) in
  if N.of_nat (length data) mod 4 =? 1 then None
  else
    match values data with
    | Some vs => Some (map fromCharCode (decode_values vs))
    | None => None
    end.

End Base64.

(** ** The host interface *)

(** [localStorage] *)
Abbreviation Storage := (gmap jsstring jsstring).

(** What the program calls and does not define.  [None] stands for a thrown
    exception or a rejected promise. *)
Class Platform := {
  CryptoKey : Type;
  (** [typeof crypto !== 'undefined' && typeof crypto.subtle !== 'undefined'] *)
  crypto_supported : bool;
  (** [crypto.subtle.importKey('jwk', JSON.parse(storedKey), ...)] *)
  importKey : jsstring -> option CryptoKey;
  (** [JSON.stringify(await crypto.subtle.exportKey('jwk', key))] *)
  exportKey : CryptoKey -> jsstring;
  (** [crypto.subtle.encrypt({name: 'AES-GCM', iv}, key, data)] *)
  subtle_encrypt : CryptoKey -> Uint8Array -> Uint8Array -> option Uint8Array;
  (** [crypto.subtle.decrypt({name: 'AES-GCM', iv}, key, data)] *)
  subtle_decrypt : CryptoKey -> Uint8Array -> Uint8Array -> option Uint8Array;
  JSON_stringify : JValue -> jsstring;
  JSON_parse : jsstring -> option JValue;
  toLowerCase : jsstring -> jsstring;
  (** [date.toISOString()] of a valid date *)
  toISOString : Z -> jsstring;
  (** [new Date(text)] *)
  Date_parse : jsstring -> DateV;
  (** whether [localStorage.setItem(key, value)] is accepted; it throws a
      QuotaExceededError otherwise *)
  quota : Storage -> jsstring -> jsstring -> bool;
  (** the number of arguments that a call may be given; a call with more,
      as a spread of a longer array makes it, throws a RangeError *)
  max_arguments : N;
  (** [String(n)] of a number *)
  Number_toString : Z -> jsstring
}.

(** What one call reads from the clock and the random sources; the index
    tells apart the objects constructed by one call. *)
Record Entropy `{Platform} := {
  (** [Date.now()] *)
  date_now : nat -> N;
  (** [new Date()] *)
  new_date : nat -> Z;
  (** [Math.random().toString(36).substr(2, 5)] *)
  math_random : nat -> jsstring;
  (** [crypto.getRandomValues] *)
  random_values : nat -> byte;
  (** [crypto.subtle.generateKey] *)
  generated_key : CryptoKey
}.

Inductive Exception :=
| RangeError
| TypeError.

(** How a call ends. *)
Inductive Completion (A : Type) :=
| Return (a : A)
| Throw (e : Exception).
Arguments Return {A} a.
Arguments Throw {A} e.

(** ** The data model *)

Record Contact := {
  id : jsstring;
  name : jsstring;
  phone : jsstring;
  address : jsstring;
  category : jsstring;
  createdAt : DateV
}.

(** The object given to [new Contact]: the four fields, and an id or none. *)
Record ContactOptions := {
  o_id : option jsstring;
  o_name : jsstring;
  o_phone : jsstring;
  o_address : jsstring;
  o_category : jsstring
}.

(** [updatedData]: an object with any of the fields. *)
Record ContactPatch := {
  p_id : option jsstring;
  p_name : option jsstring;
  p_phone : option jsstring;
  p_address : option jsstring;
  p_category : option jsstring
}.

(** The texts of the [error] property and of the form's error line. *)
Inductive Message :=
| MsgDuplicate (name : option jsstring)  (* 已存在同名同类别的联系人: name *)
| MsgSaveFailed                          (* 保存失败，请重试 *)
| MsgNotFound                            (* 联系人不存在 *)
| MsgDeleteFailed                        (* 删除失败，请重试 *)
| MsgUpdateFailed                        (* 更新失败，请重试 *)
| MsgRequired                            (* 请填写所有必填字段 *)
| MsgMobile                              (* 请输入有效的11位手机号码 *)
| MsgPhoneDigits                         (* 电话号码至少需要7位数字 *)
| MsgOperationFailed.                    (* 操作失败，请重试 *)

(** [{success, error, contact}] *)
Record Result := {
  success : bool;
  error : option Message;
  contact : option Contact
}.

Definition failure (m : Message) : Result :=
  {| success := false; error := Some m; contact := None |}.

Definition succeeded (c : Contact) : Result :=
  {| success := true; error := None; contact := Some c |}.

(** A registered callback: it sees the collection and returns ([true]) or
    throws. *)
Abbreviation Listener := (list Contact -> bool).

(** The manager object and the storage of the page. *)
Record State := {
  contacts : list Contact;
  listeners : list Listener;
  localStorage : Storage
}.

Definition with_contacts (st : State) (cs : list Contact) : State :=
  {| contacts := cs; listeners := listeners st; localStorage := localStorage st |}.

Definition with_storage (st : State) (sto : Storage) : State :=
  {| contacts := contacts st; listeners := listeners st; localStorage := sto |}.

(** [contact.createdAt = d] *)
Definition with_createdAt (c : Contact) (d : DateV) : Contact :=
  {| id := id c; name := name c; phone := phone c; address := address c;
     category := category c; createdAt := d |}.

(** ** Array operations *)

(** [l.findIndex(p)], [None] for -1 *)
Fixpoint findIndex {A} (p : A -> bool) (l : list A) : option nat :=
  match l with
  | [] => None
  | x :: l' => if p x then Some O else option_map S (findIndex p l')
  end.

(** [l.splice(start, deleteCount, ...items)]: the removed elements and the
    array afterwards *)
Definition splice {A} (start deleteCount : nat) (items l : list A) : list A * list A :=
  (take deleteCount (drop start l),
   take start l ++ items ++ drop (start + deleteCount) l).

(** [l.push(x)] *)
Definition push {A} (x : A) (l : list A) : list A := l ++ [x].

(** [l.pop()] *)
Definition pop {A} (l : list A) : list A := removelast l.

(** ** The pinyin table of [getPinyinFirstLetter] *)

Definition pinyinMap : list (string * N * N) :=
  [("a", 19968, 20320); ("ai", 20321, 20543); ("an", 20544, 20807); ("ang", 20808, 20982);
   ("ao", 20983, 21199); ("ba", 21200, 21474); ("bai", 21475, 21605); ("ban", 21606, 21884);
   ("bang", 21885, 22031); ("bao", 22032, 22302); ("bei", 22303, 22530); ("ben", 22531, 22621);
   ("beng", 22622, 22786); ("bi", 22787, 23009); ("bian", 23010, 23242); ("biao", 23243, 23384);
   ("bie", 23385, 23532); ("bin", 23533, 23751); ("bing", 23752, 23942); ("bo", 23943, 24190);
   ("bu", 24191, 24382); ("ca", 24383, 24507); ("cai", 24508, 24688); ("can", 24689, 24893);
   ("cang", 24894, 25049); ("cao", 25050, 25209); ("ce", 25210, 25340); ("ceng", 25341, 25462);
   ("cha", 25463, 25667); ("chai", 25668, 25770); ("chan", 25771, 26039);
   ("chang", 26040, 26255); ("chao", 26256, 26410); ("che", 26411, 26552);
   ("chen", 26553, 26782); ("cheng", 26783, 27038); ("chi", 27039, 27295);
   ("chong", 27296, 27485); ("chou", 27486, 27730); ("chu", 27731, 28049);
   ("chuai", 28050, 28150); ("chuan", 28151, 28303); ("chuang", 28304, 28473);
   ("chui", 28474, 28603); ("chun", 28604, 28779); ("chuo", 28780, 28903); ("ci", 28904, 29134);
   ("cong", 29135, 29386); ("cou", 29387, 29505); ("cu", 29506, 29634); ("cuan", 29635, 29760);
   ("cui", 29761, 29901); ("cun", 29902, 30035); ("cuo", 30036, 30253); ("da", 30254, 30485);
   ("dai", 30486, 30638); ("dan", 30639, 30872); ("dang", 30873, 31071); ("dao", 31072, 31293);
   ("de", 31294, 31400); ("deng", 31401, 31584); ("di", 31585, 31892); ("dian", 31893, 32188);
   ("diao", 32189, 32323); ("die", 32324, 32538); ("ding", 32539, 32780); ("diu", 32781, 32799);
   ("dong", 32800, 33054); ("dou", 33055, 33270); ("du", 33271, 33626); ("duan", 33627, 33845);
   ("dui", 33846, 34020); ("dun", 34021, 34243); ("duo", 34244, 34445); ("e", 34446, 34708);
   ("en", 34709, 34899); ("er", 34900, 35055); ("fa", 35056, 35279); ("fan", 35280, 35529);
   ("fang", 35530, 35781); ("fei", 35782, 36044); ("fen", 36045, 36310); ("feng", 36311, 36592);
   ("fo", 36593, 36741); ("fou", 36742, 36757); ("fu", 36758, 37119); ("ga", 37120, 37323);
   ("gai", 37324, 37517); ("gan", 37518, 37730); ("gang", 37731, 37892); ("gao", 37893, 38150);
   ("ge", 38151, 38428); ("gei", 38429, 38508); ("gen", 38509, 38663); ("geng", 38664, 38890);
   ("gong", 38891, 39139); ("gou", 39140, 39318); ("gu", 39319, 39750); ("gua", 39751, 39927);
   ("guai", 39928, 40039); ("guan", 40040, 40230); ("guang", 40231, 40390);
   ("gui", 40391, 40607); ("gun", 40608, 40715); ("guo", 40716, 40889); ("ha", 40890, 41030);
   ("hai", 41031, 41196); ("han", 41197, 41417); ("hang", 41418, 41583); ("hao", 41584, 41775);
   ("he", 41776, 42010); ("hei", 42011, 42089); ("hen", 42090, 42230); ("heng", 42231, 42419);
   ("hong", 42420, 42595); ("hou", 42596, 42789); ("hu", 42790, 43311); ("hua", 43312, 43479);
   ("huai", 43480, 43617); ("huan", 43618, 43820); ("huang", 43821, 44030);
   ("hui", 44031, 44289); ("hun", 44290, 44470); ("huo", 44471, 44670); ("ji", 44671, 45252);
   ("jia", 45253, 45589); ("jian", 45590, 46083); ("jiang", 46084, 46390);
   ("jiao", 46391, 46742); ("jie", 46743, 47093); ("jin", 47094, 47517); ("jing", 47518, 47930);
   ("jiong", 47931, 48118); ("jiu", 48119, 48299); ("ju", 48300, 48694); ("juan", 48695, 48889);
   ("jue", 48890, 49250); ("jun", 49251, 49450); ("ka", 49451, 49625); ("kai", 49626, 49785);
   ("kan", 49786, 50010); ("kang", 50011, 50160); ("kao", 50161, 50242); ("ke", 50243, 50505);
   ("ken", 50506, 50630); ("keng", 50631, 50760); ("kong", 50761, 50890); ("kou", 50891, 51045);
   ("ku", 51046, 51307); ("kua", 51308, 51403); ("kuai", 51404, 51507); ("kuan", 51508, 51647);
   ("kuang", 51648, 51832); ("kui", 51833, 52019); ("kun", 52020, 52230); ("kuo", 52231, 52382);
   ("la", 52383, 52586); ("lai", 52587, 52720); ("lan", 52721, 53049); ("lang", 53050, 53219);
   ("lao", 53220, 53379); ("le", 53380, 53539); ("lei", 53540, 53749); ("leng", 53750, 53839);
   ("li", 53840, 54480); ("lia", 54481, 54540); ("lian", 54541, 54991); ("liang", 54992, 55289);
   ("liao", 55290, 55647); ("lie", 55648, 55908); ("lin", 55909, 56242); ("ling", 56243, 56589);
   ("liu", 56590, 56924); ("long", 56925, 57184); ("lou", 57185, 57334); ("lu", 57335, 57796);
   ("lv", 57797, 57980); ("luan", 57981, 58133); ("lue", 58134, 58240); ("lun", 58241, 58480);
   ("luo", 58481, 58908); ("ma", 58909, 59170); ("mai", 59171, 59306); ("man", 59307, 59600);
   ("mang", 59601, 59770); ("mao", 59771, 60105); ("me", 60106, 60200); ("mei", 60201, 60480);
   ("men", 60481, 60600); ("meng", 60601, 60810); ("mi", 60811, 61330); ("mian", 61331, 61580);
   ("miao", 61581, 61790); ("mie", 61791, 61930); ("min", 61931, 62122); ("ming", 62123, 62280);
   ("miu", 62281, 62299); ("mo", 62300, 62689); ("mou", 62690, 62830); ("mu", 62831, 63065);
   ("na", 63066, 63240); ("nai", 63241, 63370); ("nan", 63371, 63520); ("nang", 63521, 63640);
   ("nao", 63641, 63840); ("ne", 63841, 63920); ("nei", 63921, 64030); ("nen", 64031, 64080);
   ("neng", 64081, 64170); ("ni", 64171, 64689); ("nian", 64690, 64960);
   ("niang", 64961, 65040); ("niao", 65041, 65130); ("nie", 65131, 65380);
   ("nin", 65381, 65440); ("ning", 65441, 65580); ("niu", 65581, 65680); ("nong", 65681, 65790);
   ("nu", 65791, 65900); ("nv", 65901, 65940); ("nuan", 65941, 66010); ("nue", 66011, 66050);
   ("nuo", 66051, 66170); ("o", 66171, 66230); ("ou", 66231, 66430); ("pa", 66431, 66570);
   ("pai", 66571, 66740); ("pan", 66741, 67030); ("pang", 67031, 67180); ("pao", 67181, 67380);
   ("pei", 67381, 67540); ("pen", 67541, 67640); ("peng", 67641, 67910); ("pi", 67911, 68330);
   ("pian", 68331, 68520); ("piao", 68521, 68700); ("pie", 68701, 68800); ("pin", 68801, 69000);
   ("ping", 69001, 69260); ("po", 69261, 69540); ("pu", 69541, 69880); ("qi", 69881, 70449);
   ("qia", 70450, 70580); ("qian", 70581, 71099); ("qiang", 71100, 71309);
   ("qiao", 71310, 71519); ("qie", 71520, 71649); ("qin", 71650, 71939); ("qing", 71940, 72249);
   ("qiong", 72250, 72409); ("qiu", 72410, 72679); ("qu", 72680, 73149); ("quan", 73150, 73349);
   ("que", 73350, 73649); ("qun", 73650, 73849); ("ran", 73850, 74039); ("rang", 74040, 74199);
   ("rao", 74200, 74359); ("re", 74360, 74449); ("ren", 74450, 74739); ("reng", 74740, 74859);
   ("ri", 74860, 74929); ("rong", 74930, 75209); ("rou", 75210, 75349); ("ru", 75350, 75709);
   ("ruan", 75710, 75819); ("rui", 75820, 75939); ("run", 75940, 76039); ("ruo", 76040, 76209);
   ("sa", 76210, 76369); ("sai", 76370, 76509); ("san", 76510, 76729); ("sang", 76730, 76889);
   ("sao", 76890, 77049); ("se", 77050, 77189); ("sen", 77190, 77249); ("seng", 77250, 77329);
   ("sha", 77330, 77619); ("shai", 77620, 77729); ("shan", 77730, 78209);
   ("shang", 78210, 78549); ("shao", 78550, 78809); ("she", 78810, 79039);
   ("shen", 79040, 79499); ("sheng", 79500, 79819); ("shi", 79820, 80449);
   ("shou", 80450, 80709); ("shu", 80710, 81209); ("shua", 81210, 81289);
   ("shuai", 81290, 81389); ("shuan", 81390, 81489); ("shuang", 81490, 81609);
   ("shui", 81610, 81709); ("shun", 81710, 81899); ("shuo", 81900, 82019); ("si", 82020, 82529);
   ("song", 82530, 82889); ("sou", 82890, 83139); ("su", 83140, 83479); ("suan", 83480, 83589);
   ("sui", 83590, 83869); ("sun", 83870, 84049); ("suo", 84050, 84389); ("ta", 84390, 84649);
   ("tai", 84650, 84899); ("tan", 84900, 85319); ("tang", 85320, 85689); ("tao", 85690, 86009);
   ("te", 86010, 86099); ("teng", 86100, 86249); ("ti", 86250, 86789); ("tian", 86790, 87089);
   ("tiao", 87090, 87339); ("tie", 87340, 87489); ("ting", 87490, 87769);
   ("tong", 87770, 88049); ("tou", 88050, 88199); ("tu", 88200, 88549); ("tuan", 88550, 88659);
   ("tui", 88660, 88829); ("tun", 88830, 89049); ("tuo", 89050, 89359); ("wa", 89360, 89549);
   ("wai", 89550, 89649); ("wan", 89650, 90049); ("wang", 90050, 90309); ("wei", 90310, 90919);
   ("wen", 90920, 91249); ("weng", 91250, 91409); ("wo", 91410, 91629); ("wu", 91630, 92159);
   ("xi", 92160, 92789); ("xia", 92790, 93149); ("xian", 93150, 93719); ("xiang", 93720, 94159);
   ("xiao", 94160, 94669); ("xie", 94670, 95159); ("xin", 95160, 95489); ("xing", 95490, 95929);
   ("xiong", 95930, 96109); ("xiu", 96110, 96339); ("xu", 96340, 96899); ("xuan", 96900, 97229);
   ("xue", 97230, 97409); ("xun", 97410, 97809); ("ya", 97810, 98249); ("yan", 98250, 98929);
   ("yang", 98930, 99329); ("yao", 99330, 99849); ("ye", 99850, 100259); ("yi", 100260, 100979);
   ("yin", 100980, 101489); ("ying", 101490, 102049); ("yo", 102050, 102109);
   ("yong", 102110, 102489); ("you", 102490, 102999); ("yu", 103000, 103719);
   ("yuan", 103720, 104239); ("yue", 104240, 104489); ("yun", 104490, 105049);
   ("za", 105050, 105209); ("zai", 105210, 105349); ("zan", 105350, 105529);
   ("zang", 105530, 105649); ("zao", 105650, 105929); ("ze", 105930, 106149);
   ("zei", 106150, 106199); ("zen", 106200, 106289); ("zeng", 106290, 106489);
   ("zha", 106490, 106949); ("zhai", 106950, 107109); ("zhan", 107110, 107489);
   ("zhang", 107490, 107809); ("zhao", 107810, 108049); ("zhe", 108050, 108429);
   ("zhen", 108430, 108909); ("zheng", 108910, 109349); ("zhi", 109350, 110179);
   ("zhong", 110180, 110519); ("zhou", 110520, 110999); ("zhu", 111000, 111509);
   ("zhua", 111510, 111589); ("zhuai", 111590, 111649); ("zhuan", 111650, 111939);
   ("zhuang", 111940, 112139); ("zhui", 112140, 112349); ("zhun", 112350, 112509);
   ("zhuo", 112510, 112839); ("zi", 112840, 113319); ("zong", 113320, 113539);
   ("zou", 113540, 113729); ("zu", 113730, 114059); ("zuan", 114060, 114169);
   ("zui", 114170, 114259); ("zun", 114260, 114399); ("zuo", 114400, 114789);
   ("zz", 114790, 114879)]%string.

Section Program.
Context `{P : Platform}.

(** ** [localStorage] *)

Definition getItem (sto : Storage) (key : jsstring) : option jsstring := sto !! key.

Definition setItem (sto : Storage) (key value : jsstring) : option Storage :=
  if quota sto key value then Some (<[key := value]> sto) else None.

Definition removeItem (sto : Storage) (key : jsstring) : Storage := delete key sto.

(** ** [Crypto] (core/Crypto.js) *)

Definition keyName : jsstring := js "contact-manager-key".

Definition ivLength : nat := 12.

(** [getKey()]: the key of the key slot, a new key written to the slot when
    the slot is empty, [None] (null) when the host has no Web Crypto or a
    step throws. *)
Definition getKey (e : Entropy) (sto : Storage) : option CryptoKey * Storage :=
  if negb crypto_supported then (None, sto)
  else
    match getItem sto keyName with
    | Some (c :: storedKey) => (importKey (c :: storedKey), sto)
    | _ =>
      let newKey := generated_key e in
      match setItem sto keyName (exportKey newKey) with
      | Some sto' => (Some newKey, sto')
      | None => (None, sto)
      end
    end.

(** [generateIV()] *)
Definition generateIV (e : Entropy) : Uint8Array :=
  map (random_values e) (seq 0 ivLength).

(** [arrayBufferToBase64(buffer)]: [String.fromCharCode(...bytes)] is a call
    with one argument for each byte, and throws a RangeError for a buffer
    of more bytes than a call takes arguments. *)
Definition arrayBufferToBase64 (buffer : Uint8Array) : option jsstring :=
  if N.of_nat (length buffer) <=? max_arguments
  then Base64.btoa (map (fun b => fromCharCode (Byte.to_N b)) buffer)
  else None.

(** [base64ToArrayBuffer(base64)] *)
Definition base64ToArrayBuffer (base64 : jsstring) : option Uint8Array :=
  match Base64.atob base64 with
  | Some binaryString => Some (map (fun c => byte_of_N (charCode c)) binaryString)
  | None => None
  end.

(** [encrypt(data)]; a step of its [try] block that throws is a [None],
    and its [catch] returns [data]: so it does when the nonce and the
    ciphertext are more bytes than [arrayBufferToBase64] takes. *)
Definition encrypt (e : Entropy) (data : jsstring) (sto : Storage) : jsstring * Storage :=
  match getKey e sto with
  | (None, sto') => (data, sto')
  | (Some key, sto') =>
    let iv := generateIV e in
    match subtle_encrypt key iv (Utf8.encode data) with
    | Some encrypted =>
      match arrayBufferToBase64 (iv ++ encrypted) with
      | Some base64 => (base64, sto')
      | None => (data, sto')
      end
    | None => (data, sto')
    end
  end.

(** [decrypt(encryptedData)]; a step of its [try] block that throws is a
    [None], and its [catch] returns [encryptedData]. *)
Definition decrypt (e : Entropy) (encryptedData : jsstring) (sto : Storage) : jsstring * Storage :=
  match getKey e sto with
  | (None, sto') => (encryptedData, sto')
  | (Some key, sto') =>
    match base64ToArrayBuffer encryptedData with
    | Some combined =>
      let iv := take ivLength combined in
      let encrypted := drop ivLength combined in
      match subtle_decrypt key iv encrypted with
      | Some decrypted => (Utf8.decode decrypted, sto')
      | None => (encryptedData, sto')
      end
    | None => (encryptedData, sto')
    end
  end.

(** [encryptAndStore(key, data)]; it returns false when [setItem] throws. *)
Definition encryptAndStore (e : Entropy) (key : jsstring) (data : JValue) (sto : Storage)
  : bool * Storage :=
  let jsonData := JSON_stringify data in
  let (encrypted, sto') := encrypt e jsonData sto in
  match setItem sto' key encrypted with
  | Some sto'' => (true, sto'')
  | None => (false, sto')
  end.

(** [readAndDecrypt(key)], [None] for null: nothing is stored, or
    [JSON.parse] throws. *)
Definition readAndDecrypt (e : Entropy) (key : jsstring) (sto : Storage)
  : option JValue * Storage :=
  match getItem sto key with
  | Some (c :: encryptedData) =>
    let (decrypted, sto') := decrypt e (c :: encryptedData) sto in
    (JSON_parse decrypted, sto')
  | _ => (None, sto)
  end.

(** ** [Contact] *)

Definition digit36 (d : N) : char16 :=
  fromCharCode (if d <? 10 then 48 + d else 87 + d).

Fixpoint toString36_digits (fuel : nat) (n : N) (acc : jsstring) : jsstring :=
  match fuel with
  | O => acc
  | S fuel' =>
    let acc' := digit36 (n mod 36) :: acc in
    if n / 36 =? 0 then acc' else toString36_digits fuel' (n / 36) acc'
  end.

(** [n.toString(36)] of a natural number *)
Definition toString36 (n : N) : jsstring :=
  toString36_digits (S (N.to_nat (N.log2 n))) n [].

(** [Date.now().toString(36) + Math.random().toString(36).substr(2, 5)] *)
Definition generateId (e : Entropy) (k : nat) : jsstring :=
  toString36 (date_now e k) ++ math_random e k.

(** [new Contact(options)] *)
Definition Contact_new (e : Entropy) (k : nat) (options : ContactOptions) : Contact :=
  {| id := match o_id options with
           | Some (c :: s) => c :: s
           | _ => generateId e k
           end;
     name := o_name options;
     phone := o_phone options;
     address := o_address options;
     category := o_category options;
     createdAt := ValidDate (new_date e k) |}.

(** [contact.toJSON()]; [toISOString] throws a RangeError on an invalid
    date. *)
Definition toJSON (c : Contact) : Completion JValue :=
  match createdAt c with
  | ValidDate ms =>
    Return (JObj [(js "id", JStr (id c));
                  (js "name", JStr (name c));
                  (js "phone", JStr (phone c));
                  (js "address", JStr (address c));
                  (js "category", JStr (category c));
                  (js "createdAt", JStr (toISOString ms))])
  | InvalidDate => Throw RangeError
  end.

(** [contacts.map(contact => contact.toJSON())] *)
Fixpoint toJSON_all (cs : list Contact) : Completion (list JValue) :=
  match cs with
  | [] => Return []
  | c :: cs' =>
    match toJSON c with
    | Return v =>
      match toJSON_all cs' with
      | Return vs => Return (v :: vs)
      | Throw x => Throw x
      end
    | Throw x => Throw x
    end
  end.

(** ** [ContactManager] *)

(** [notifyListeners()]: [false] when a callback throws. *)
Definition notifyListeners (st : State) : bool :=
  forallb (fun callback => callback (contacts st)) (listeners st).

(** [saveToStorage()]; [contacts] is an array by its type, and an
    exception of its [try] block ([toJSON], a callback) makes it return
    false. *)
Definition saveToStorage (e : Entropy) (st : State) : bool * State :=
  match toJSON_all (contacts st) with
  | Return data =>
    let (ok, sto) := encryptAndStore e (js "contacts") (JArr data) (localStorage st) in
    let st' := with_storage st sto in
    if ok then (if notifyListeners st' then (true, st') else (false, st'))
    else (false, st')
  | Throw _ => (false, st)
  end.

(** The string stored under a property; a property that holds no string is
    read as absent ([toJSON] stores strings). *)
Definition string_prop (item : JValue) (key : jsstring) : option jsstring :=
  match get_prop item key with
  | Some (JStr s) => Some s
  | _ => None
  end.

(** The test of [loadFromStorage] on a stored entry. *)
Definition valid_item (item : JValue) : bool :=
  truthy item
  && bool_decide (is_Some (string_prop item (js "name")))
  && bool_decide (is_Some (string_prop item (js "phone")))
  && bool_decide (is_Some (string_prop item (js "category"))).

(** [String(v)], as [join] applies it to the elements of an array and
    [new Date] to an object.  An object read from JSON has no method of
    its own: with a property [toString] it has no [toString] that can be
    called, and the conversion throws a TypeError; without one it is
    [object Object].  An array is its elements with commas between them,
    null standing for nothing. *)
Fixpoint ToString (v : JValue) : Completion jsstring :=
  match v with
  | JNull => Return (js "null")
  | JBool b => Return (if b then js "true" else js "false")
  | JNum n => Return (Number_toString n)
  | JStr s => Return s
  | JArr l =>
    (fix elements (l : list JValue) : Completion jsstring :=
       match l with
       | [] => Return []
       | x :: rest =>
         match (match x with JNull => Return [] | _ => ToString x end) with
         | Return s =>
           match rest with
           | [] => Return s
           | _ :: _ =>
             match elements rest with
             | Return r => Return (s ++ js "," ++ r)
             | Throw x => Throw x
             end
           end
         | Throw x => Throw x
         end
       end) l
  | JObj fields =>
    match prop_lookup (js "toString") fields with
    | Some _ => Throw TypeError
    | None => Return (js "[object Object]")
    end
  end.

(** A time value is a whole number of at most 8.64e15 in size. *)
Definition TimeClip (n : Z) : DateV :=
  if (Z.abs n <=? 8640000000000000)%Z then ValidDate n else InvalidDate.

(** [new Date(value)]: a number is a time value, a text is parsed, and an
    array or an object is converted to a text first. *)
Definition Date_new (value : JValue) : Completion DateV :=
  match value with
  | JNull => Return (ValidDate 0)
  | JBool b => Return (ValidDate (if b then 1 else 0))
  | JNum n => Return (TimeClip n)
  | JStr s => Return (Date_parse s)
  | JArr _ | JObj _ =>
    match ToString value with
    | Return s => Return (Date_parse s)
    | Throw x => Throw x
    end
  end.

(** The record [loadFromStorage] builds from a stored entry.  [Contact]
    has the types of its documentation: an id or an address that is
    stored as something else than a string cannot be held by the record
    and is read as absent (the code keeps such a value). *)
Definition load_item (e : Entropy) (k : nat) (item : JValue) : Completion Contact :=
  let contact :=
    Contact_new e k
      {| o_id := string_prop item (js "id");
         o_name := default [] (string_prop item (js "name"));
         o_phone := default [] (string_prop item (js "phone"));
         o_address := default [] (string_prop item (js "address"));
         o_category := default [] (string_prop item (js "category")) |} in
  match get_prop item (js "createdAt") with
  | Some createdAt_ =>
    if truthy createdAt_ then
      match Date_new createdAt_ with
      | Return d => Return (with_createdAt contact d)
      | Throw x => Throw x
      end
    else Return contact
  | None => Return contact
  end.

(** [items.map(item => ...)] of [loadFromStorage], from index [k] on *)
Fixpoint load_items (e : Entropy) (k : nat) (items : list JValue)
  : Completion (list Contact) :=
  match items with
  | [] => Return []
  | item :: rest =>
    match load_item e k item with
    | Return c =>
      match load_items e (S k) rest with
      | Return cs => Return (c :: cs)
      | Throw x => Throw x
      end
    | Throw x => Throw x
    end
  end.

(** [loadFromStorage()].  The step of its [try] block that can throw is
    [new Date(item.createdAt)]; its [catch] empties the collection and
    removes the stored item. *)
Definition loadFromStorage (e : Entropy) (st : State) : State :=
  let (data, sto) := readAndDecrypt e (js "contacts") (localStorage st) in
  let st' := with_storage st sto in
  match data with
  | Some v =>
    if truthy v then
      match v with
      | JArr items =>
        match load_items e 0 (List.filter valid_item items) with
        | Return cs => with_contacts st' cs
        | Throw _ =>
          with_storage (with_contacts st' []) (removeItem sto (js "contacts"))
        end
      | _ => with_contacts st' []
      end
    else st'
  | None => st'
  end.

(** [new ContactManager()], once its load has completed *)
Definition ContactManager_new (e : Entropy) (sto : Storage) : State :=
  loadFromStorage e {| contacts := []; listeners := []; localStorage := sto |}.

(** [hasDuplicate(name, category, excludeId = null)]; an argument is [None]
    when the caller passes [undefined] (for the id: null). *)
Definition hasDuplicate (cs : list Contact) (nm cat excludeId : option jsstring) : bool :=
  existsb (fun c =>
             bool_decide (Some (name c) = nm)
             && bool_decide (Some (category c) = cat)
             && negb (bool_decide (Some (id c) = excludeId))) cs.

(** [addContact(contactData)] *)
Definition addContact (e : Entropy) (contactData : ContactOptions) (st : State)
  : Result * State :=
  if hasDuplicate (contacts st) (Some (o_name contactData)) (Some (o_category contactData)) None
  then (failure (MsgDuplicate (Some (o_name contactData))), st)
  else
    let c := Contact_new e 0 contactData in
    let st1 := with_contacts st (push c (contacts st)) in
    let (saveSuccess, st2) := saveToStorage e st1 in
    if saveSuccess then (succeeded c, st2)
    else (failure MsgSaveFailed, with_contacts st2 (pop (contacts st2))).

(** [getContactById(id)] *)
Definition getContactById (st : State) (i : jsstring) : option Contact :=
  List.find (fun c => bool_decide (id c = i)) (contacts st).

(** [deleteContact(id)] *)
Definition deleteContact (e : Entropy) (i : jsstring) (st : State) : Result * State :=
  match findIndex (fun c => bool_decide (id c = i)) (contacts st) with
  | None => (failure MsgNotFound, st)
  | Some contactIndex =>
    match splice contactIndex 1 [] (contacts st) with
    | (deletedContact :: _, rest) =>
      let (saveSuccess, st2) := saveToStorage e (with_contacts st rest) in
      if saveSuccess then (succeeded deletedContact, st2)
      else
        (failure MsgDeleteFailed,
         with_contacts st2 (snd (splice contactIndex 0 [deletedContact] (contacts st2))))
    | ([], _) => (failure MsgNotFound, st)  (* not reached: the index is one of the array *)
    end
  end.

(** [{...originalContact.toJSON(), ...updatedData}] *)
Definition merge (original : Contact) (updatedData : ContactPatch) : ContactOptions :=
  {| o_id := Some (default (id original) (p_id updatedData));
     o_name := default (name original) (p_name updatedData);
     o_phone := default (phone original) (p_phone updatedData);
     o_address := default (address original) (p_address updatedData);
     o_category := default (category original) (p_category updatedData) |}.

(** [updateContact(id, updatedData)]; in range, [contacts[i] = c] is the
    list update. *)
Definition updateContact (e : Entropy) (i : jsstring) (updatedData : ContactPatch) (st : State)
  : Completion Result * State :=
  match findIndex (fun c => bool_decide (id c = i)) (contacts st) with
  | None => (Return (failure MsgNotFound), st)
  | Some contactIndex =>
    if hasDuplicate (contacts st) (p_name updatedData) (p_category updatedData) (Some i)
    then (Return (failure (MsgDuplicate (p_name updatedData))), st)
    else
      match contacts st !! contactIndex with
      | Some originalContact =>
        match toJSON originalContact with
        | Return _ =>
          let updatedContact :=
            with_createdAt (Contact_new e 0 (merge originalContact updatedData))
                           (createdAt originalContact) in
          let st1 := with_contacts st (<[contactIndex := updatedContact]> (contacts st)) in
          let (saveSuccess, st2) := saveToStorage e st1 in
          if saveSuccess then (Return (succeeded updatedContact), st2)
          else
            (Return (failure MsgUpdateFailed),
             with_contacts st2 (<[contactIndex := originalContact]> (contacts st2)))
        | Throw x => (Throw x, st)
        end
      | None => (Return (failure MsgNotFound), st)  (* not reached *)
      end
  end.

Definition is_letter (n : N) : bool :=
  ((97 <=? n) && (n <=? 122)) || ((65 <=? n) && (n <=? 90)).

Definition is_digit (n : N) : bool := (48 <=? n) && (n <=? 57).

(** [getPinyinFirstLetter(char)] *)
Definition getPinyinFirstLetter (char : char16) : jsstring :=
  let charCode := charCode char in
  if is_letter charCode then toLowerCase [char]
  else if is_digit charCode then [char]
  else
    match List.find (fun '(letter, start, end_) => (start <=? charCode) && (charCode <=? end_))
                    pinyinMap with
    | Some (letter, _, _) => toLowerCase (take 1 (js letter))
    | None => []
    end.

(** [getPinyinInitials(str)] *)
Definition getPinyinInitials (str : jsstring) : jsstring :=
  flat_map getPinyinFirstLetter str.

(** [filterContacts(category, keyword = '')] *)
Definition filterContacts (st : State) (category_ keyword : jsstring) : list Contact :=
  List.filter
    (fun contact =>
       let matchCategory :=
         bool_decide (category_ = js "all") || bool_decide (category contact = category_) in
       if bool_decide (keyword = []) then matchCategory
       else
         let lowerKeyword := toLowerCase keyword in
         let nameInitials := getPinyinInitials (name contact) in
         let addressInitials := getPinyinInitials (address contact) in
         let categoryInitials := getPinyinInitials (category contact) in
         let matchKeyword :=
           includes (toLowerCase (name contact)) lowerKeyword
           || includes nameInitials lowerKeyword
           || includes (phone contact) keyword
           || includes (toLowerCase (address contact)) lowerKeyword
           || includes addressInitials lowerKeyword
           || includes (toLowerCase (category contact)) lowerKeyword
           || includes categoryInitials lowerKeyword in
         matchCategory && matchKeyword)
    (contacts st).

(** ** [AddContactModal] (ui/AddContactModal.js) *)

(** [/^1\d{10}$/.test(phone)] *)
Definition mobile_pattern (phone : jsstring) : bool :=
  match phone with
  | c :: rest =>
    bool_decide (charCode c = 49) && bool_decide (length rest = 10%nat)
    && forallb (fun d => is_digit (charCode d)) rest
  | [] => false
  end.

(** [/^\d{7,}$/.test(phone)] *)
Definition digits_pattern (phone : jsstring) : bool :=
  bool_decide (7 <= length phone)%nat && forallb (fun d => is_digit (charCode d)) phone.

(** [validateForm(contactData)]: the boolean it returns and the message it
    shows. *)
Definition validateForm (contactData : ContactOptions) : bool * option Message :=
  if bool_decide (o_name contactData = []) || bool_decide (o_phone contactData = [])
     || bool_decide (o_address contactData = [])
  then (false, Some MsgRequired)
  else if bool_decide (length (o_phone contactData) = 11%nat)
          && negb (mobile_pattern (o_phone contactData))
  then (false, Some MsgMobile)
  else if negb (digits_pattern (o_phone contactData))
  then (false, Some MsgPhoneDigits)
  else (true, None).

(** How [handleSubmit] ends. *)
Inductive Submission :=
| Rejected (shown : option Message)   (* the form is left open, no callback was called *)
| Answered (r : Result)               (* the callback returned [r] *)
| Failed.                             (* the callback threw: 操作失败，请重试 *)

(** The fields of the form as [updatedData]. *)
Definition patch_of (contactData : ContactOptions) : ContactPatch :=
  {| p_id := o_id contactData;
     p_name := Some (o_name contactData);
     p_phone := Some (o_phone contactData);
     p_address := Some (o_address contactData);
     p_category := Some (o_category contactData) |}.

(** [handleSubmit()], from the trimmed values of the four fields of the
    form, with the callbacks the application registers ([addContact] and
    [updateContact]). *)
Definition handleSubmit (e : Entropy) (editingContactId : option jsstring)
    (name_ phone_ address_ category_ : jsstring) (st : State) : Submission * State :=
  let contactData :=
    {| o_id := None; o_name := name_; o_phone := phone_;
       o_address := address_; o_category := category_ |} in
  match validateForm contactData with
  | (false, shown) => (Rejected shown, st)
  | (true, _) =>
    match editingContactId with
    | Some (c :: i) =>
      match updateContact e (c :: i) (patch_of contactData) st with
      | (Return r, st') => (Answered r, st')
      | (Throw _, st') => (Failed, st')
      end
    | _ =>
      let (r, st') := addContact e contactData st in (Answered r, st')
    end
  end.

(** ** Further array and string operations *)

(** [l.join(sep)] *)
Fixpoint join (sep : jsstring) (l : list jsstring) : jsstring :=
  match l with
  | [] => []
  | [x] => x
  | x :: l' => x ++ sep ++ join sep l'
  end.

(** [s.split(sep)] for a separator of one character *)
Fixpoint split (sep : N) (s : jsstring) : list jsstring :=
  match s with
  | [] => [[]]
  | c :: s' =>
    if charCode c =? sep then [] :: split sep s'
    else
      match split sep s' with
      | piece :: pieces => (c :: piece) :: pieces
      | [] => [[c]]
      end
  end.

(** [s.substring(start, end)]: the arguments are cut to the length, and
    swapped when the first is the larger. *)
Definition String_substring (s : jsstring) (start end_ : nat) : jsstring :=
  let a := Nat.min start (length s) in
  let b := Nat.min end_ (length s) in
  take (Nat.max a b - Nat.min a b) (drop (Nat.min a b) s).

(** White space and line terminators, which [trim] removes. *)
Definition is_white_space (n : N) : bool :=
  ((9 <=? n) && (n <=? 13)) || (n =? 32) || (n =? 160) || (n =? 0x1680)
  || ((0x2000 <=? n) && (n <=? 0x200A)) || (n =? 0x2028) || (n =? 0x2029)
  || (n =? 0x202F) || (n =? 0x205F) || (n =? 0x3000) || (n =? 0xFEFF).

Fixpoint trimStart (s : jsstring) : jsstring :=
  match s with
  | c :: s' => if is_white_space (charCode c) then trimStart s' else s
  | [] => []
  end.

Definition trimEnd (s : jsstring) : jsstring := rev (trimStart (rev s)).

(** [s.trim()] *)
Definition trim (s : jsstring) : jsstring := trimEnd (trimStart s).

(** [l.sort(comparefn)]: the sort is stable, and [x] goes after [y] when
    [comparefn(x, y) > 0].  With a comparator that is no ordering the
    arrangement is the engine's. *)
Fixpoint sort_insert {A} (comparefn : A -> A -> Z) (x : A) (l : list A) : list A :=
  match l with
  | [] => [x]
  | y :: l' =>
    if (0 <? comparefn x y)%Z then y :: sort_insert comparefn x l' else x :: y :: l'
  end.

Definition sort {A} (comparefn : A -> A -> Z) (l : list A) : list A :=
  foldr (sort_insert comparefn) [] l.

(** ** [Contact.formatPhone] *)

(** [/^\d{11}$/.test(phone)] *)
Definition eleven_digits (phone_ : jsstring) : bool :=
  bool_decide (length phone_ = 11%nat) && forallb (fun d => is_digit (charCode d)) phone_.

(** [s.replace(/(\d{3})(\d{4})(\d{4})/, '$1-$2-$3')]: the first eleven
    digits in a row, read from the left, are written in three groups. *)
Fixpoint replace_groups (s : jsstring) : jsstring :=
  if eleven_digits (take 11 s)
  then take 3 s ++ js "-" ++ take 4 (drop 3 s) ++ js "-" ++ take 4 (drop 7 s) ++ drop 11 s
  else
    match s with
    | c :: s' => c :: replace_groups s'
    | [] => []
    end.

(** [contact.formatPhone()] *)
Definition formatPhone (contact : Contact) : jsstring :=
  if eleven_digits (phone contact) then replace_groups (phone contact) else phone contact.

(** ** [ContactManager], continued *)

(** [addListener(callback)] *)
Definition addListener (callback : Listener) (st : State) : State :=
  {| contacts := contacts st;
     listeners := push callback (listeners st);
     localStorage := localStorage st |}.

(** The file [exportToCSV] offers for download: the [download] attribute
    of the link and the bytes of the [Blob]. *)
Record Download := {
  download : jsstring;
  blob : Uint8Array
}.

(** 姓名, 电话, 单位, 类别 *)
Definition csvHeaders : list jsstring :=
  [units [22995; 21517]; units [30005; 35805]; units [21333; 20301]; units [31867; 21035]].

(** A field between double quotes, as the template writes it. *)
Definition quoted (s : jsstring) : jsstring := units [34] ++ s ++ units [34].

Definition csvRow (contact : Contact) : list jsstring :=
  [quoted (name contact); quoted (phone contact); quoted (address contact);
   quoted (category contact)].

Definition csvContent (contactsToExport : list Contact) : jsstring :=
  join (units [10])
       (join (js ",") csvHeaders
        :: map (fun row => join (js ",") row) (map csvRow contactsToExport)).

(** [exportToCSV(category = 'all')]: the boolean it returns and the file it
    offers; with nothing to export it shows 没有可导出的联系人数据.  The
    calls on the document that build and click the link are taken to
    succeed; a [Blob] holds its text in UTF-8. *)
Definition exportToCSV (e : Entropy) (category_ : jsstring) (st : State)
  : bool * option Download :=
  let contactsToExport :=
    if bool_decide (category_ = js "all") then contacts st
    else List.filter (fun c => bool_decide (category c = category_)) (contacts st) in
  if bool_decide (length contactsToExport = 0%nat) then (false, None)
  else
    let bom := [xef; xbb; xbf] in
    let dateStr := default [] (head (split 84 (toISOString (new_date e 0)))) in
    let categoryText :=
      if bool_decide (category_ = js "all") then units [20840; 37096] else category_ in
    (true,
     Some {| download :=
               units [36890; 35759; 24405] ++ js "_" ++ categoryText ++ js "_" ++ dateStr
               ++ js ".csv";
             blob := bom ++ Utf8.encode (csvContent contactsToExport) |}).

(** ** [ContactList] (ui/ContactList.js) *)

(** [date.getTime()], [None] for NaN *)
Definition getTime (d : DateV) : option Z :=
  match d with
  | ValidDate ms => Some ms
  | InvalidDate => None
  end.

(** The comparator of [render]; NaN counts as 0 in a sort.  The difference
    of two time values has the sign of the exact difference. *)
Definition compare_created (currentSortOrder : jsstring) (a b : Contact) : Z :=
  match getTime (createdAt a), getTime (createdAt b) with
  | Some dateA, Some dateB =>
    if bool_decide (currentSortOrder = js "desc") then (dateB - dateA)%Z else (dateA - dateB)%Z
  | _, _ => 0%Z
  end.

(** The line [render] shows in place of an empty list. *)
Inductive Notice :=
| NoMatch (keyword : jsstring)         (* 未找到包含"keyword"的联系人 *)
| NoneInCategory (category_ : jsstring)  (* 未找到category类别的联系人 *)
| NoContacts.                          (* 暂无联系人数据 *)

(** What [render] puts in the container: a notice, or one card for each
    contact in this order; a card shows the name, [formatPhone()], the
    address and the category. *)
Inductive View :=
| EmptyMessage (notice : Notice)
| Cards (shown : list Contact).

(** [render()] *)
Definition render (st : State) (currentCategory currentKeyword currentSortOrder : jsstring)
  : View :=
  let filteredContacts :=
    sort (compare_created currentSortOrder)
         (filterContacts st currentCategory currentKeyword) in
  if bool_decide (length filteredContacts = 0%nat) then
    EmptyMessage
      (if negb (bool_decide (currentKeyword = [])) then NoMatch currentKeyword
       else if negb (bool_decide (currentCategory = js "all")) then NoneInCategory currentCategory
       else NoContacts)
  else Cards filteredContacts.

(** ** [DetailModal] (ui/DetailModal.js) *)

(** [phone.replace(/\D/g, '')] *)
Definition digits_only (phone_ : jsstring) : jsstring :=
  List.filter (fun d => is_digit (charCode d)) phone_.

(** [formatPhoneNumber(phone)] *)
Definition formatPhoneNumber (phone_ : jsstring) : jsstring :=
  let cleaned := digits_only phone_ in
  if bool_decide (length cleaned = 11%nat) then
    String_substring cleaned 0 3 ++ js "-" ++ String_substring cleaned 3 7 ++ js "-"
    ++ String_substring cleaned 7 (length cleaned)
  else phone_.

(** The texts [showContact] writes into the four elements. *)
Record Detail := {
  detailName : jsstring;
  detailPhone : jsstring;
  detailAddress : jsstring;
  detailCategory : jsstring
}.

(** [showContact(contact)]; 未提供 stands for an empty address. *)
Definition showContact (contact_ : Contact) : Detail :=
  {| detailName := name contact_;
     detailPhone := formatPhoneNumber (phone contact_);
     detailAddress :=
       if bool_decide (address contact_ = []) then units [26410; 25552; 20379]
       else address contact_;
     detailCategory := category contact_ |}.

(** [copyPhoneNumber()]: the text put on the clipboard, by the Clipboard
    API or by the fallback; nothing without a current contact. *)
Definition copyPhoneNumber (currentContact : option Contact) : option jsstring :=
  match currentContact with
  | Some c => Some (digits_only (phone c))
  | None => None
  end.

(** ** [AddContactModal], continued *)

(** The values of the four elements of the form, as they were typed. *)
Record FormValues := {
  name_value : jsstring;
  phone_value : jsstring;
  address_value : jsstring;
  category_value : jsstring
}.

(** [handleSubmit()] from the form: the name, the phone and the address
    are trimmed, the category is taken as it is. *)
Definition submit (e : Entropy) (editingContactId : option jsstring) (form : FormValues)
    (st : State) : Submission * State :=
  handleSubmit e editingContactId (trim (name_value form)) (trim (phone_value form))
               (trim (address_value form)) (category_value form) st.

(** The title of the modal. *)
Inductive ModalTitle :=
| TitleAdd     (* 添加联系人 *)
| TitleEdit.   (* 编辑联系人 *)

(** The modal of the form: the id of the contact that is edited (null in
    add mode), the values of the form, the title, the text of the error
    line and whether the modal is on display. *)
Record AddContactModal := {
  editingContactId : option jsstring;
  form_values : FormValues;
  title : ModalTitle;
  error_line : option Message;
  displayed : bool
}.

(** [reset()]; [form.reset()] gives the fields the values the page
    declares for them, [defaults]. *)
Definition reset (defaults : FormValues) (modal : AddContactModal) : AddContactModal :=
  {| editingContactId := None;
     form_values := defaults;
     title := TitleAdd;
     error_line := None;
     displayed := displayed modal |}.

(** [show()] of [AddContactModal]: [this.reset()], then [show()] of
    [Modal]. *)
Definition show (defaults : FormValues) (modal : AddContactModal) : AddContactModal :=
  let modal' := reset defaults modal in
  {| editingContactId := editingContactId modal';
     form_values := form_values modal';
     title := title modal';
     error_line := error_line modal';
     displayed := true |}.

(** [editContact(contact)]; its last statement, [this.show()], is the
    [show] of [AddContactModal]. *)
Definition editContact (defaults : FormValues) (contact_ : Contact) (modal : AddContactModal)
  : AddContactModal :=
  show defaults
       {| editingContactId := Some (id contact_);
          form_values :=
            {| name_value := name contact_;
               phone_value := phone contact_;
               address_value := address contact_;
               category_value := category contact_ |};
          title := TitleEdit;
          error_line := error_line modal;
          displayed := displayed modal |}.

(** The user fills in the form of the modal. *)
Definition typing (typed : FormValues) (modal : AddContactModal) : AddContactModal :=
  {| editingContactId := editingContactId modal;
     form_values := typed;
     title := title modal;
     error_line := error_line modal;
     displayed := displayed modal |}.

(** [handleSubmit()] of the modal in its state. *)
Definition submit_modal (e : Entropy) (modal : AddContactModal) (st : State)
  : Submission * State :=
  submit e (editingContactId modal) (form_values modal) st.

(** ** [App] (app.js) *)

(** [clearAllContacts()]: the storage after it, once the user has answered
    the question; the page is loaded again afterwards. *)
Definition clearAllContacts (confirmed : bool) (sto : Storage) : Storage :=
  if confirmed then removeItem sto (js "contacts") else sto.

(** ** The properties of the design document, in its words *)

(** The record [updateContact] puts in place of [original]. *)
Definition updated (e : Entropy) (original : Contact) (updatedData : ContactPatch) : Contact :=
  with_createdAt (Contact_new e 0 (merge original updatedData)) (createdAt original).

(** The category filter: exact match, or the wildcard. *)
Definition matches_category (category_ : jsstring) (c : Contact) : Prop :=
  category_ = js "all" \/ category c = category_.

(** [sub] occurs in [s]. *)
Definition substring (sub s : jsstring) : Prop :=
  exists before after, s = before ++ sub ++ after.

(** The keyword filter: the keyword is empty, or occurs, case aside, in
    the name, the address, the category or their phonetic initials, or
    occurs as it is in the phone. *)
Definition matches_keyword (keyword : jsstring) (c : Contact) : Prop :=
  keyword = []
  \/ substring (toLowerCase keyword) (toLowerCase (name c))
  \/ substring (toLowerCase keyword) (toLowerCase (address c))
  \/ substring (toLowerCase keyword) (toLowerCase (category c))
  \/ substring (toLowerCase keyword) (getPinyinInitials (name c))
  \/ substring (toLowerCase keyword) (getPinyinInitials (address c))
  \/ substring (toLowerCase keyword) (getPinyinInitials (category c))
  \/ substring keyword (phone c).

End Program.

(** Authenticated decryption of [encryptedData] fails, for one of the
    reasons [decrypt] catches: the text is no base64, or AES-GCM rejects
    the bytes (wrong key, truncated or altered data, tag mismatch). *)
Definition decryption_fails `{Platform} (key : CryptoKey) (encryptedData : jsstring) : Prop :=
  match base64ToArrayBuffer encryptedData with
  | Some combined => subtle_decrypt key (take ivLength combined) (drop ivLength combined) = None
  | None => True
  end.

(** No two contacts share both the name and the category. *)
Definition unique_name_category (cs : list Contact) : Prop :=
  forall i j a b,
    cs !! i = Some a -> cs !! j = Some b ->
    name a = name b -> category a = category b -> i = j.

(** Every contact has an id: [new Contact] assigns one when it is given
    none. *)
Definition ids_assigned (cs : list Contact) : Prop :=
  Forall (fun c => id c <> []) cs.

(** The number of digits of a phone number. *)
Definition count_digits (phone_ : jsstring) : nat :=
  length (List.filter (fun d => is_digit (charCode d)) phone_).

(** The fields that [exportToCSV] writes. *)
Definition fields (c : Contact) : list jsstring := [name c; phone c; address c; category c].

(** No field has a surrogate that stands alone. *)
Definition well_formed_fields (c : Contact) : Prop :=
  Forall (fun s => Utf8.well_formed (map charCode s) = true) (fields c).

(** No field has a line feed. *)
Definition single_line_fields (c : Contact) : Prop :=
  Forall (fun s => Forall (fun ch => charCode ch <> 10) s) (fields c).

(** The order of the cards: newest first for the order 'desc', oldest
    first for every other. *)
Definition in_order (currentSortOrder : jsstring) (a b : Contact) : Prop :=
  match createdAt a, createdAt b with
  | ValidDate dateA, ValidDate dateB =>
    if bool_decide (currentSortOrder = js "desc") then (dateB <= dateA)%Z
    else (dateA <= dateB)%Z
  | _, _ => True
  end.

(** The number by which the cards are in ascending order. *)
Definition sort_key (currentSortOrder : jsstring) (c : Contact) : Z :=
  match createdAt c with
  | ValidDate ms => if bool_decide (currentSortOrder = js "desc") then (- ms)%Z else ms
  | InvalidDate => 0%Z
  end.

(** ** The contract of the host *)

(** An object as [toJSON] builds it: its keys are distinct names, its
    values are strings. *)
Definition is_name (key : jsstring) : bool :=
  match key with
  | c :: _ => is_letter (charCode c)
  | [] => false
  end.

Definition is_JStr (v : JValue) : bool :=
  match v with JStr _ => true | _ => false end.

Definition plain_object (v : JValue) : Prop :=
  match v with
  | JObj fields =>
    NoDup (map fst fields)
    /\ Forall (fun kv => is_name (fst kv) = true /\ is_JStr (snd kv) = true) fields
  | _ => False
  end.

Class PlatformLaws (P : Platform) : Prop := {
  (** a key written to the key slot is read back *)
  importKey_exportKey : forall key, importKey (exportKey key) = Some key;
  exportKey_nonempty : forall key, exportKey key <> [];
  (** AES-GCM with a 96-bit nonce encrypts every text, and decrypts what it
      encrypted under the same key and nonce *)
  encrypt_succeeds : forall key iv data,
    length iv = 12%nat -> is_Some (subtle_encrypt key iv data);
  decrypt_encrypt : forall key iv data sealed,
    subtle_encrypt key iv data = Some sealed -> subtle_decrypt key iv sealed = Some data;
  (** [JSON.parse] inverts [JSON.stringify] on arrays of plain objects *)
  parse_stringify : forall items,
    Forall plain_object items ->
    JSON_parse (JSON_stringify (JArr items)) = Some (JArr items);
  (** the text of such an array has no surrogate that stands alone *)
  stringify_well_formed : forall items,
    Forall plain_object items -> Utf8.utf8_safe (JSON_stringify (JArr items)) = true;
  (** a text that denotes an array has an opening bracket *)
  parse_array : forall text items,
    JSON_parse text = Some (JArr items) -> exists c, c ∈ text /\ charCode c = 91
}.

(** ** A reference host

    An executable instance of [Platform], on which the operations are run
    on concrete inputs.  Its JSON codec covers the texts the program
    writes (arrays of objects of strings), objects inside these objects,
    and integers; its cipher is a
    stand-in with the interface of AES-GCM, not a cipher to rely on. *)

Module Ref.

Definition is_surrogate (n : N) : bool := (0xD800 <=? n) && (n <=? 0xDFFF).

Definition hex_digit (d : N) : N := if d <? 10 then 48 + d else 87 + d.

Definition hex_value (c : N) : option N :=
  if (48 <=? c) && (c <=? 57) then Some (c - 48)
  else if (97 <=? c) && (c <=? 102) then Some (c - 87)
  else if (65 <=? c) && (c <=? 70) then Some (c - 55)
  else None.

(** A character inside a JSON string: the quote and the backslash are
    escaped, a control character or a surrogate is written as a [\u]
    escape. *)
Definition escape (c : char16) : jsstring :=
  let n := charCode c in
  if n =? 34 then units [92; 34]
  else if n =? 92 then units [92; 92]
  else if (n <? 32) || is_surrogate n then
    units [92; 117; hex_digit (n / 4096); hex_digit (n / 256 mod 16);
           hex_digit (n / 16 mod 16); hex_digit (n mod 16)]
  else [c].

Definition quote (s : jsstring) : jsstring :=
  units [34] ++ flat_map escape s ++ units [34].

Fixpoint join_comma (l : list jsstring) : jsstring :=
  match l with
  | [] => []
  | [x] => x
  | x :: l' => x ++ units [44] ++ join_comma l'
  end.

Fixpoint decimal_digits (fuel : nat) (n : N) (acc : jsstring) : jsstring :=
  match fuel with
  | O => acc
  | S fuel' =>
    let acc' := fromCharCode (48 + n mod 10) :: acc in
    if n / 10 =? 0 then acc' else decimal_digits fuel' (n / 10) acc'
  end.

Definition decimal (n : Z) : jsstring :=
  (if (n <? 0)%Z then units [45] else [])
  ++ decimal_digits (S (N.to_nat (N.log2 (Z.abs_N n)))) (Z.abs_N n) [].

Fixpoint stringify (v : JValue) : jsstring :=
  match v with
  | JNull => js "null"
  | JBool true => js "true"
  | JBool false => js "false"
  | JNum n => decimal n
  | JStr s => quote s
  | JArr l => units [91] ++ join_comma (map stringify l) ++ units [93]
  | JObj fields =>
    units [123]
    ++ join_comma (map (fun kv => quote (fst kv) ++ units [58] ++ stringify (snd kv)) fields)
    ++ units [125]
  end.

(** The characters of a string literal, after its opening quote, and the
    text that follows the closing quote. *)
Fixpoint parse_chars (s : jsstring) : option (jsstring * jsstring) :=
  match s with
  | [] => None
  | c :: s1 =>
    if charCode c =? 34 then Some ([], s1)
    else if charCode c =? 92 then
      match s1 with
      | x :: s2 =>
        if (charCode x =? 34) || (charCode x =? 92) then
          match parse_chars s2 with
          | Some (r, rest) => Some (x :: r, rest)
          | None => None
          end
        else if charCode x =? 117 then
          match s2 with
          | h1 :: h2 :: h3 :: h4 :: s6 =>
            match hex_value (charCode h1), hex_value (charCode h2),
                  hex_value (charCode h3), hex_value (charCode h4), parse_chars s6 with
            | Some a, Some b, Some c', Some d, Some (r, rest) =>
              Some (fromCharCode (a * 4096 + b * 256 + c' * 16 + d) :: r, rest)
            | _, _, _, _, _ => None
            end
          | _ => None
          end
        else None
      | [] => None
      end
    else if charCode c <? 32 then None
    else
      match parse_chars s1 with
      | Some (r, rest) => Some (c :: r, rest)
      | None => None
      end
  end.

(** The members of an object, after its opening brace; the value of a
    member is a string, or an object with such members. *)
Fixpoint parse_fields (fuel : nat) (s : jsstring)
  : option (list (jsstring * JValue) * jsstring) :=
  match fuel with
  | O => None
  | S fuel' =>
    match s with
    | q :: s1 =>
      if charCode q =? 34 then
        match parse_chars s1 with
        | Some (key, colon :: q' :: s2) =>
          if (charCode colon =? 58) && (charCode q' =? 34) then
            match parse_chars s2 with
            | Some (val, sep :: s3) =>
              if charCode sep =? 125 then Some ([(key, JStr val)], s3)
              else if charCode sep =? 44 then
                match parse_fields fuel' s3 with
                | Some (fields, rest) => Some ((key, JStr val) :: fields, rest)
                | None => None
                end
              else None
            | _ => None
            end
          else if (charCode colon =? 58) && (charCode q' =? 123) then
            match parse_fields fuel' s2 with
            | Some (inner, sep :: s3) =>
              if charCode sep =? 125 then Some ([(key, JObj inner)], s3)
              else if charCode sep =? 44 then
                match parse_fields fuel' s3 with
                | Some (fields, rest) => Some ((key, JObj inner) :: fields, rest)
                | None => None
                end
              else None
            | _ => None
            end
          else None
        | _ => None
        end
      else None
    | [] => None
    end
  end.

(** The elements of an array of objects, after its opening bracket. *)
Fixpoint parse_items (fuel : nat) (s : jsstring) : option (list JValue * jsstring) :=
  match fuel with
  | O => None
  | S fuel' =>
    match s with
    | b :: c :: s1 =>
      if charCode b =? 123 then
        match (if charCode c =? 125 then Some ([], s1) else parse_fields fuel' (c :: s1)) with
        | Some (fields, sep :: s2) =>
          if charCode sep =? 93 then Some ([JObj fields], s2)
          else if charCode sep =? 44 then
            match parse_items fuel' s2 with
            | Some (items, rest) => Some (JObj fields :: items, rest)
            | None => None
            end
          else None
        | _ => None
        end
      else None
    | _ => None
    end
  end.

Fixpoint parse_digits (s : jsstring) (acc : N) : option N :=
  match s with
  | [] => Some acc
  | c :: s' =>
    if (48 <=? charCode c) && (charCode c <=? 57)
    then parse_digits s' (acc * 10 + (charCode c - 48))
    else None
  end.

(** The texts read: an array of objects of strings and of such objects,
    or digits. *)
Definition parse (s : jsstring) : option JValue :=
  match s with
  | [] => None
  | c :: s1 =>
    if charCode c =? 91 then
      match s1 with
      | [d] => if charCode d =? 93 then Some (JArr []) else None
      | _ =>
        match parse_items (length s1) s1 with
        | Some (items, []) => Some (JArr items)
        | _ => None
        end
      end
    else if (charCode c =? 48) && negb (bool_decide (s1 = [])) then None
    else option_map (fun n => JNum (Z.of_N n)) (parse_digits s 0)
  end.

(** The text of a member of an object. *)
Definition member_text (kv : jsstring * JValue) : jsstring :=
  quote (fst kv) ++ units [58] ++ stringify (snd kv).

(** The fuel that the elements of an array take. *)
Fixpoint members_count (items : list JValue) : nat :=
  match items with
  | [] => O
  | JObj fields :: items' => S (length fields + members_count items')
  | _ :: items' => S (members_count items')
  end.

(** An object whose values are strings. *)
Definition object_of_strings (v : JValue) : Prop :=
  match v with
  | JObj fields => Forall (fun kv => is_JStr (snd kv) = true) fields
  | _ => False
  end.

(** Text without surrogates. *)
Definition clean (s : jsstring) : Prop :=
  Forall (fun c => is_surrogate (charCode c) = false) s.

(** The stand-in cipher: every byte is shifted by an amount drawn from the
    key and the nonce, and a 16-byte tag of key, nonce and text follows. *)
Definition byte_sum (bs : Uint8Array) : N :=
  fold_right (fun b acc => (Byte.to_N b + acc) mod 256) 0 bs.

Definition shift_of (key iv : Uint8Array) : N := (byte_sum key + byte_sum iv) mod 256.

Definition tag_of (key iv data : Uint8Array) : Uint8Array :=
  repeat (byte_of_N (byte_sum key + 3 * byte_sum iv + 7 * byte_sum data + 1)) 16.

Definition seal (key iv data : Uint8Array) : option Uint8Array :=
  Some (map (fun b => byte_of_N (Byte.to_N b + shift_of key iv)) data ++ tag_of key iv data).

Definition open (key iv sealed : Uint8Array) : option Uint8Array :=
  if bool_decide (length sealed < 16)%nat then None
  else
    let body := take (length sealed - 16) sealed in
    let data := map (fun b => byte_of_N (Byte.to_N b + 256 - shift_of key iv)) body in
    if bool_decide (drop (length sealed - 16) sealed = tag_of key iv data)
    then Some data else None.

(** The key slot holds the letter k and the bytes of the key. *)
Definition export_key (key : Uint8Array) : jsstring :=
  fromCharCode 107 :: map (fun b => fromCharCode (Byte.to_N b)) key.

Definition import_key (s : jsstring) : option Uint8Array :=
  match s with
  | c :: s' =>
    if charCode c =? 107 then Some (map (fun c => byte_of_N (charCode c)) s') else None
  | [] => None
  end.

(** Lower case of the letters A to Z. *)
Definition lower (s : jsstring) : jsstring :=
  map (fun c => if (65 <=? charCode c) && (charCode c <=? 90)
                then fromCharCode (charCode c + 32) else c) s.

(** Dates are written as their time value. *)
Definition iso (ms : Z) : jsstring := decimal ms.

Definition date_of (s : jsstring) : DateV :=
  match s with
  | c :: s' =>
    if charCode c =? 45 then
      match parse_digits s' 0 with
      | Some n => ValidDate (- Z.of_N n)
      | None => InvalidDate
      end
    else
      match parse_digits s 0 with
      | Some n => ValidDate (Z.of_N n)
      | None => InvalidDate
      end
  | [] => InvalidDate
  end.

(** The host: with or without Web Crypto, with a storage that accepts an
    item of at most [capacity] code units, and with calls that take at most
    [arguments] arguments. *)
Definition host (supported : bool) (capacity arguments : N) : Platform :=
  {| CryptoKey := Uint8Array;
     crypto_supported := supported;
     importKey := import_key;
     exportKey := export_key;
     subtle_encrypt := seal;
     subtle_decrypt := open;
     JSON_stringify := stringify;
     JSON_parse := parse;
     toLowerCase := lower;
     toISOString := iso;
     Date_parse := date_of;
     quota := fun _ key value => N.of_nat (length key + length value) <=? capacity;
     max_arguments := arguments;
     Number_toString := decimal |}.

(** A browser with Web Crypto and room in its storage. *)
Definition browser : Platform := host true 5000000 65535.

(** A page outside a secure context: no Web Crypto. *)
Definition insecure : Platform := host false 5000000 65535.

(** A browser whose storage accepts nothing. *)
Definition full : Platform := host true 0 65535.

(** An engine whose calls take forty arguments: the nonce, twelve bytes of
    text and the tag. *)
Definition narrow : Platform := host true 5000000 40.

(** The draws of one call: clock [t], random suffix [r], and nonce and key
    bytes all equal to [b]. *)
Definition draws (Pf : Platform) (key : @CryptoKey Pf) (t : N) (r : jsstring) (b : byte)
  : @Entropy Pf :=
  {| date_now := fun _ => t;
     new_date := fun _ => Z.of_N t;
     math_random := fun _ => r;
     random_values := fun _ => b;
     generated_key := key |}.

End Ref.

(** ** Sample data

    The contacts of the search example of the design document, and the
    states and draws on which the operations are run below. *)

Module Sample.

(** 张三, 13512345678, XX科技公司, 办公 *)
Definition zhang : ContactOptions :=
  {| o_id := None;
     o_name := units [24352; 19977];
     o_phone := js "13512345678";
     o_address := js "XX" ++ units [31185; 25216; 20844; 21496];
     o_category := units [21150; 20844] |}.

(** 李四, 13887654321, XX设计院, 个人 *)
Definition li : ContactOptions :=
  {| o_id := None;
     o_name := units [26446; 22235];
     o_phone := js "13887654321";
     o_address := js "XX" ++ units [35774; 35745; 38498];
     o_category := units [20010; 20154] |}.

(** 王五, 13900001111, XX, 办公 *)
Definition wang : ContactOptions :=
  {| o_id := None;
     o_name := units [29579; 20116];
     o_phone := js "13900001111";
     o_address := js "XX";
     o_category := units [21150; 20844] |}.

(** Two draws of a browser that differ in their nonce. *)
Definition first : @Entropy Ref.browser :=
  Ref.draws Ref.browser [x2a; x17; xc3] 1700000000000 (js "k3x9q") x07.

Definition second : @Entropy Ref.browser :=
  Ref.draws Ref.browser [x51; x0e] 1700000000500 (js "p0w2z") x08.

(** The same draws on a page without Web Crypto and in a browser whose
    storage is full. *)
Definition plain : @Entropy Ref.insecure :=
  Ref.draws Ref.insecure [] 1700000000000 (js "k3x9q") x07.

Definition refused : @Entropy Ref.full :=
  Ref.draws Ref.full [x2a; x17; xc3] 1700000000000 (js "k3x9q") x07.

Definition record (i : string) (options : ContactOptions) (ms : Z) : Contact :=
  {| id := js i; name := o_name options; phone := o_phone options;
     address := o_address options; category := o_category options;
     createdAt := ValidDate ms |}.

Definition empty : State :=
  {| contacts := []; listeners := []; localStorage := ∅ |}.

(** A collection with the two contacts of the example. *)
Definition two : State :=
  {| contacts := [record "a1" zhang 1690000000000; record "a2" li 1690000000001];
     listeners := []; localStorage := ∅ |}.

(** The same name in two categories. *)
Definition namesakes : State :=
  {| contacts :=
       [record "a1" zhang 1690000000000;
        {| id := js "a2"; name := o_name zhang; phone := o_phone li;
           address := o_address li; category := o_category li;
           createdAt := ValidDate 1690000000001 |}];
     listeners := []; localStorage := ∅ |}.

(** A request that changes the category alone. *)
Definition to_office : ContactPatch :=
  {| p_id := None; p_name := None; p_phone := None; p_address := None;
     p_category := Some (o_category zhang) |}.

(** A request that changes the phone alone. *)
Definition new_phone : ContactPatch :=
  {| p_id := None; p_name := None; p_phone := Some (js "13600001111"); p_address := None;
     p_category := None |}.

(** A request with empty fields. *)
Definition blank : ContactOptions :=
  {| o_id := None; o_name := []; o_phone := []; o_address := []; o_category := [] |}.

(** The state after 张三 was added in a browser, and the same state with
    the stored text cut after twenty characters. *)
Definition saved : State := snd (addContact first zhang empty).

Definition truncated : Storage :=
  <[js "contacts" := take 20 (default [] (localStorage saved !! js "contacts"))]>
    (localStorage saved).

(** A text that starts with U+FEFF, and a text with a surrogate that
    stands alone. *)
Definition marked : jsstring := units [0xFEFF; 97].

Definition lone : jsstring := units [0xD800].

(** A collection with a contact whose stored date could not be read. *)
Definition undated : State :=
  {| contacts :=
       [record "a1" zhang 1690000000000;
        {| id := js "a3"; name := o_name wang; phone := o_phone wang;
           address := o_address wang; category := o_category wang;
           createdAt := InvalidDate |}];
     listeners := []; localStorage := ∅ |}.

(** The two contacts, with a callback that throws. *)
Definition watched : State := addListener (fun _ => false) two.

(** A form typed with white space around the values, and a form whose
    name is three spaces. *)
Definition typed : FormValues :=
  {| name_value := js "  " ++ o_name wang ++ js " ";
     phone_value := js " 13900001111";
     address_value := o_address wang ++ units [12288];
     category_value := o_category wang |}.

(** A modal that shows an error, with a form whose fields are empty until
    they are filled in. *)
Definition unfilled : FormValues :=
  {| name_value := []; phone_value := []; address_value := [];
     category_value := o_category zhang |}.

Definition modal : AddContactModal :=
  {| editingContactId := None; form_values := unfilled; title := TitleAdd;
     error_line := Some MsgRequired; displayed := false |}.

Definition spaces : FormValues :=
  {| name_value := js "   ";
     phone_value := js "13900001111";
     address_value := js "XX";
     category_value := o_category wang |}.

(** A storage whose key slot holds a text that is no key, and a storage
    with an item of another script. *)
Definition broken : Storage := <[keyName := js "broken"]> ∅.

Definition themed : State :=
  {| contacts := contacts two; listeners := [];
     localStorage := <[js "theme" := js "dark"]> ∅ |}.

(** Entries as a script writes them with [JSON.stringify], without ids
    and dates; the last has no phone. *)
Definition entries : list JValue :=
  [JObj [(js "name", JStr (o_name zhang)); (js "phone", JStr (o_phone zhang));
         (js "address", JStr (o_address zhang)); (js "category", JStr (o_category zhang))];
   JObj [(js "name", JStr (o_name li)); (js "phone", JStr (o_phone li));
         (js "address", JStr (o_address li)); (js "category", JStr (o_category li))];
   JObj [(js "name", JStr (o_name wang)); (js "category", JStr (o_category wang))]].

Definition scripted : State :=
  {| contacts := []; listeners := [];
     localStorage := <[js "contacts" := Ref.stringify (JArr entries)]> ∅ |}.

(** A manager that holds the two contacts, on the storage whose text was
    cut. *)
Definition holding : State :=
  {| contacts := contacts two; listeners := []; localStorage := truncated |}.

(** An entry whose creation date is an object with a property
    [toString], in the storage of a manager that holds the two contacts. *)
Definition shadowed : list JValue :=
  [JObj [(js "name", JStr (o_name zhang)); (js "phone", JStr (o_phone zhang));
         (js "category", JStr (o_category zhang));
         (js "createdAt", JObj [(js "toString", JStr (js "x"))])]].

Definition unreadable : State :=
  {| contacts := contacts two; listeners := [];
     localStorage := <[js "contacts" := Ref.stringify (JArr shadowed)]> ∅ |}.

(** The draws of an engine whose calls take forty arguments, and a text
    of sixteen characters. *)
Definition narrow_first : @Entropy Ref.narrow :=
  Ref.draws Ref.narrow [x2a; x17; xc3] 1700000000000 (js "k3x9q") x07.

Definition narrow_second : @Entropy Ref.narrow :=
  Ref.draws Ref.narrow [x51; x0e] 1700000000500 (js "p0w2z") x08.

Definition sixteen : jsstring := js "0123456789abcdef".

End Sample.

(** * Properties *)

(** ** Arrays *)

Section ArrayFacts.
Context {A : Type}.
Implicit Types (l : list A) (x : A) (i : nat).

Lemma pop_push x l : pop (push x l) = l.
Proof. unfold pop, push. apply removelast_last. Qed.

Lemma findIndex_Some (p : A -> bool) l i :
  findIndex p l = Some i -> exists x, l !! i = Some x /\ p x = true.
Proof.
  revert i. induction l as [|y l IH]; intros i; cbn; [done|].
  destruct (p y) eqn:Hy.
  - intros [= <-]. eauto.
  - destruct (findIndex p l) as [j|]; cbn; [|done].
    intros [= <-]. apply (IH j eq_refl).
Qed.

Lemma findIndex_first (p : A -> bool) l i j x :
  findIndex p l = Some i -> (j < i)%nat -> l !! j = Some x -> p x = false.
Proof.
  revert i j. induction l as [|y l IH]; intros i j; cbn; [done|].
  destruct (p y) eqn:Hy.
  - intros [= <-]. lia.
  - destruct (findIndex p l) as [k|]; cbn; [|done].
    intros [= <-] Hj. destruct j as [|j]; cbn.
    + now intros [= <-].
    + apply (IH k j eq_refl). lia.
Qed.

Lemma findIndex_None (p : A -> bool) l x :
  findIndex p l = None -> x ∈ l -> p x = false.
Proof.
  induction l as [|y l IH]; cbn; [intros _ H; inversion H|].
  destruct (p y) eqn:Hy; [done|].
  destruct (findIndex p l); cbn; [done|].
  intros _ [->|H]%elem_of_cons; auto.
Qed.

(** Removing the element at [i] and inserting it again at [i] gives the
    array back. *)
Lemma splice_remove_insert l i x :
  l !! i = Some x ->
  fst (splice i 1 [] l) = [x]
  /\ snd (splice i 0 [x] (snd (splice i 1 [] l))) = l.
Proof.
  intros Hi. unfold splice. cbn [fst snd].
  pose proof (lookup_lt_Some _ _ _ Hi) as Hlt.
  split.
  - rewrite (drop_S _ _ _ Hi). reflexivity.
  - rewrite app_nil_l, Nat.add_0_r.
    rewrite take_app_le by (rewrite length_take; lia).
    rewrite take_take, Nat.min_id.
    rewrite drop_app_ge by (rewrite length_take; lia).
    rewrite length_take, Nat.min_l, Nat.sub_diag by lia. cbn [drop].
    rewrite Nat.add_1_r. cbn [app].
    now apply take_drop_middle.
Qed.

Lemma insert_insert_back l i x y :
  l !! i = Some x -> <[i := x]> (<[i := y]> l) = l.
Proof.
  intros Hi. rewrite list_insert_insert_eq. now apply list_insert_id.
Qed.

End ArrayFacts.

(** ** The mutations of the collection *)

Section Manager.
Context `{P : Platform}.
Implicit Types (e : Entropy) (st : State) (c : Contact).

Lemma saveToStorage_contacts e st : contacts (snd (saveToStorage e st)) = contacts st.
Proof.
  unfold saveToStorage. destruct (toJSON_all (contacts st)); [|done].
  destruct (encryptAndStore _ _ _ _) as [ok sto].
  destruct ok; [destruct (notifyListeners _)|]; done.
Qed.

Lemma saveToStorage_listeners e st : listeners (snd (saveToStorage e st)) = listeners st.
Proof.
  unfold saveToStorage. destruct (toJSON_all (contacts st)); [|done].
  destruct (encryptAndStore _ _ _ _) as [ok sto].
  destruct ok; [destruct (notifyListeners _)|]; done.
Qed.

(** Runs the call of [saveToStorage] in the goal, which fails by [H]. *)
Ltac failing_save H :=
  match goal with
  | |- context [saveToStorage ?e ?st1] =>
    let ok := fresh "ok" in
    let st2 := fresh "st2" in
    pose proof (saveToStorage_contacts e st1) as Hc;
    destruct (saveToStorage e st1) as [ok st2];
    cbn [fst snd] in H, Hc; subst ok
  end.

(** C1. When the call of saveToStorage made by addContact, updateContact or
    deleteContact fails, the operation returns a failure result and the
    in-memory collection is equal to the collection before the call; the
    record that deleteContact removed at index k is at index k again. *)
Theorem rollback_on_persistence_failure e st :
  (forall contactData,
      hasDuplicate (contacts st) (Some (o_name contactData))
                   (Some (o_category contactData)) None = false ->
      fst (saveToStorage e (with_contacts st (push (Contact_new e 0 contactData) (contacts st))))
      = false ->
      fst (addContact e contactData st) = failure MsgSaveFailed
      /\ contacts (snd (addContact e contactData st)) = contacts st)
  /\ (forall i updatedData k original,
      findIndex (fun c => bool_decide (id c = i)) (contacts st) = Some k ->
      contacts st !! k = Some original ->
      hasDuplicate (contacts st) (p_name updatedData) (p_category updatedData) (Some i) = false ->
      createdAt original <> InvalidDate ->
      fst (saveToStorage e (with_contacts st (<[k := updated e original updatedData]> (contacts st))))
      = false ->
      fst (updateContact e i updatedData st) = Return (failure MsgUpdateFailed)
      /\ contacts (snd (updateContact e i updatedData st)) = contacts st)
  /\ (forall i k deleted,
      findIndex (fun c => bool_decide (id c = i)) (contacts st) = Some k ->
      contacts st !! k = Some deleted ->
      fst (saveToStorage e (with_contacts st (snd (splice k 1 [] (contacts st))))) = false ->
      fst (deleteContact e i st) = failure MsgDeleteFailed
      /\ contacts (snd (deleteContact e i st)) = contacts st
      /\ contacts (snd (deleteContact e i st)) !! k = Some deleted).
Proof.
  split; [|split].
  - intros contactData Hdup Hsave. unfold addContact. rewrite Hdup.
    failing_save Hsave. cbn. rewrite Hc. cbn. now rewrite pop_push.
  - intros i updatedData k original Hidx Hk Hdup Hdate Hsave.
    unfold updateContact, updated in *. rewrite Hidx, Hdup, Hk.
    unfold toJSON. destruct (createdAt original) as [ms|] eqn:Hcr; [|done].
    failing_save Hsave. cbn. rewrite Hc. cbn. now rewrite insert_insert_back.
  - intros i k deleted Hidx Hk Hsave.
    destruct (splice_remove_insert _ _ _ Hk) as [Hrm Hins].
    assert (contacts (snd (deleteContact e i st)) = contacts st
            /\ fst (deleteContact e i st) = failure MsgDeleteFailed) as [Hc Hr].
    { unfold deleteContact. rewrite Hidx.
      destruct (splice k 1 [] (contacts st)) as [removed rest] eqn:Hsp.
      cbn [fst snd] in Hrm, Hins, Hsave. subst removed.
      failing_save Hsave. cbn [fst snd contacts with_contacts]. now rewrite Hc. }
    now rewrite Hc.
Qed.

End Manager.

(** ** Search *)

Lemma startsWith_spec (s p : jsstring) :
  startsWith s p = true <-> exists after, s = p ++ after.
Proof.
  revert s. induction p as [|x p IH]; intros [|y s]; cbn.
  - split; [intros _; now exists []|done].
  - split; [intros _; now exists (y :: s)|done].
  - split; [done|]. intros [after H]. discriminate H.
  - rewrite andb_true_iff, bool_decide_eq_true, IH. split.
    + intros [-> [after ->]]. eauto.
    + intros [after [= -> ->]]. eauto.
Qed.

Lemma includes_spec (s sub : jsstring) : includes s sub = true <-> substring sub s.
Proof.
  unfold substring. induction s as [|y s IH]; cbn [includes].
  - rewrite orb_false_r, startsWith_spec. split.
    + intros [after ->]. exists [], after. reflexivity.
    + intros [before [after H]]. symmetry in H.
      apply app_eq_nil in H as [-> H]. exists after. done.
  - rewrite orb_true_iff, startsWith_spec, IH. split.
    + intros [[after ->]|[before [after ->]]].
      * exists [], after. reflexivity.
      * exists (y :: before), after. reflexivity.
    + intros [[|z before] [after H]].
      * left. exists after. exact H.
      * right. injection H as -> ->. eauto.
Qed.

Section Search.
Context `{P : Platform}.

(** C9. filterContacts returns, in the order of the collection, exactly the
    contacts that satisfy both the category filter (the category is "all"
    or is the contact's category) and the keyword filter (the keyword is
    empty, or occurs, case aside, in the name, address, category or their
    phonetic initials, or occurs as it is in the phone); a contact whose
    category does not match is not returned, whatever the keyword. *)
Theorem filterContacts_exact (st : State) (category_ keyword : jsstring) :
  (exists keep : Contact -> bool,
      (forall c, keep c = true <-> matches_category category_ c /\ matches_keyword keyword c)
      /\ filterContacts st category_ keyword = List.filter keep (contacts st))
  /\ (forall c, c ∈ filterContacts st category_ keyword <->
                c ∈ contacts st /\ matches_category category_ c /\ matches_keyword keyword c)
  /\ (forall c, ~ matches_category category_ c -> c ∉ filterContacts st category_ keyword).
Proof.
  set (keep := fun contact : Contact =>
         let matchCategory :=
           bool_decide (category_ = js "all") || bool_decide (category contact = category_) in
         if bool_decide (keyword = []) then matchCategory
         else
           let lowerKeyword := toLowerCase keyword in
           matchCategory
           && (includes (toLowerCase (name contact)) lowerKeyword
               || includes (getPinyinInitials (name contact)) lowerKeyword
               || includes (phone contact) keyword
               || includes (toLowerCase (address contact)) lowerKeyword
               || includes (getPinyinInitials (address contact)) lowerKeyword
               || includes (toLowerCase (category contact)) lowerKeyword
               || includes (getPinyinInitials (category contact)) lowerKeyword)).
  assert (Hkeep : forall c, keep c = true <->
                            matches_category category_ c /\ matches_keyword keyword c).
  { intros c. unfold keep, matches_category, matches_keyword. cbn zeta.
    case_bool_decide as Hkw.
    - rewrite orb_true_iff, !bool_decide_eq_true. tauto.
    - rewrite andb_true_iff, !orb_true_iff, !bool_decide_eq_true, !includes_spec. tauto. }
  assert (Hmem : forall c, c ∈ filterContacts st category_ keyword <->
                 c ∈ contacts st /\ matches_category category_ c /\ matches_keyword keyword c).
  { intros c. unfold filterContacts. fold keep.
    rewrite !list_elem_of_In, filter_In, Hkeep. tauto. }
  split; [|split].
  - exists keep. split; [exact Hkeep | reflexivity].
  - exact Hmem.
  - intros c Hc [_ [H _]]%Hmem. exact (Hc H).
Qed.

End Search.

(** ** Identity and uniqueness *)

Section Identity.
Context `{P : Platform}.
Implicit Types (e : Entropy) (st : State) (c : Contact).

Lemma toString36_digits_nonempty fuel n acc :
  acc <> [] -> toString36_digits fuel n acc <> [].
Proof.
  revert n acc. induction fuel as [|fuel IH]; intros n acc Hacc; cbn; [done|].
  destruct (n / 36 =? 0); [done|]. now apply IH.
Qed.

Lemma generateId_nonempty e k : generateId e k <> [].
Proof.
  unfold generateId, toString36. cbn [toString36_digits].
  destruct (date_now e k / 36 =? 0); [done|].
  intros [H _]%app_eq_nil. revert H. now apply toString36_digits_nonempty.
Qed.

(** [new Contact] always assigns an id. *)
Lemma Contact_new_id e k options : id (Contact_new e k options) <> [].
Proof.
  unfold Contact_new. cbn. destruct (o_id options) as [[|c s]|]; try done;
    apply generateId_nonempty.
Qed.

(** It keeps the id it is given. *)
Lemma Contact_new_keeps_id e k options i :
  o_id options = Some i -> i <> [] -> id (Contact_new e k options) = i.
Proof. intros Ho Hi. unfold Contact_new. cbn. rewrite Ho. now destruct i. Qed.

Lemma hasDuplicate_false cs nm cat ex :
  hasDuplicate cs nm cat ex = false <->
  forall c, c ∈ cs -> Some (name c) = nm -> Some (category c) = cat -> Some (id c) = ex.
Proof.
  unfold hasDuplicate. rewrite <- not_true_iff_false, existsb_exists. split.
  - intros H c Hc Hn Hcat. destruct (decide (Some (id c) = ex)) as [|Hne]; [done|].
    exfalso. apply H. exists c. rewrite <- list_elem_of_In.
    rewrite !andb_true_iff, negb_true_iff, !bool_decide_eq_true, bool_decide_eq_false. done.
  - intros H (c & Hc & Hb). rewrite <- list_elem_of_In in Hc.
    rewrite !andb_true_iff, negb_true_iff, !bool_decide_eq_true, bool_decide_eq_false in Hb.
    destruct Hb as [[Hn Hcat] Hid]. apply Hid. now apply H.
Qed.

Lemma hasDuplicate_true cs nm cat ex :
  hasDuplicate cs nm cat ex = true <->
  exists c, c ∈ cs /\ Some (name c) = nm /\ Some (category c) = cat /\ Some (id c) <> ex.
Proof.
  unfold hasDuplicate. rewrite existsb_exists. split.
  - intros (c & Hc & Hb). rewrite <- list_elem_of_In in Hc.
    rewrite !andb_true_iff, negb_true_iff, !bool_decide_eq_true, bool_decide_eq_false in Hb.
    exists c. tauto.
  - intros (c & Hc & Hn & Hcat & Hid). exists c. rewrite <- list_elem_of_In.
    rewrite !andb_true_iff, negb_true_iff, !bool_decide_eq_true, bool_decide_eq_false. done.
Qed.

(** *** The ids of the collection *)





(** How [addContact] ends. *)
Lemma addContact_cases e contactData st :
  let c := Contact_new e 0 contactData in
  (hasDuplicate (contacts st) (Some (o_name contactData)) (Some (o_category contactData)) None
   = true
   /\ addContact e contactData st = (failure (MsgDuplicate (Some (o_name contactData))), st))
  \/ (hasDuplicate (contacts st) (Some (o_name contactData)) (Some (o_category contactData)) None
      = false
      /\ exists st2, contacts st2 = push c (contacts st)
                     /\ ((saveToStorage e (with_contacts st (push c (contacts st))) = (true, st2)
                          /\ addContact e contactData st = (succeeded c, st2))
                         \/ (fst (saveToStorage e (with_contacts st (push c (contacts st)))) = false
                             /\ addContact e contactData st
                                = (failure MsgSaveFailed, with_contacts st2 (contacts st))))).
Proof.
  intros c. unfold addContact. fold c.
  destruct (hasDuplicate _ _ _ _); [left; done|right]. split; [done|].
  pose proof (saveToStorage_contacts e (with_contacts st (push c (contacts st)))) as Hc.
  destruct (saveToStorage _ _) as [ok st2]. cbn [fst snd contacts with_contacts] in Hc.
  exists st2. split; [exact Hc|]. destruct ok; [left; done|right]. split; [done|].
  now rewrite Hc, pop_push.
Qed.


(** *** Uniqueness of name and category *)

Lemma unique_push cs c :
  unique_name_category cs ->
  (forall a, a ∈ cs -> name a = name c -> category a = category c -> False) ->
  unique_name_category (push c cs).
Proof.
  intros Hu Hc i j a b Hi Hj Hn Hcat. unfold push in *.
  assert (forall k x, (cs ++ [c]) !! k = Some x ->
                      (cs !! k = Some x /\ (k < length cs)%nat) \/ (k = length cs /\ x = c))
    as Hcase.
  { intros k x Hk. destruct (decide (k < length cs)%nat) as [Hlt|Hge].
    - left. now rewrite lookup_app_l in Hk.
    - right. rewrite lookup_app_r in Hk by lia.
      destruct (k - length cs)%nat as [|m] eqn:Hm; cbn in Hk; [|done].
      split; [lia|congruence]. }
  destruct (Hcase _ _ Hi) as [[Hi' _]|[-> ->]], (Hcase _ _ Hj) as [[Hj' _]|[-> ->]].
  - exact (Hu _ _ _ _ Hi' Hj' Hn Hcat).
  - exfalso. apply (Hc a); [eapply list_elem_of_lookup_2; exact Hi'|done..].
  - exfalso. apply (Hc b); [eapply list_elem_of_lookup_2; exact Hj'|done..].
  - reflexivity.
Qed.

Lemma unique_insert cs k u :
  unique_name_category cs ->
  (forall j a, j <> k -> cs !! j = Some a -> name a = name u -> category a = category u -> False) ->
  unique_name_category (<[k := u]> cs).
Proof.
  intros Hu Hc i j a b Hi Hj Hn Hcat.
  destruct (decide (i = k)) as [->|Hik], (decide (j = k)) as [->|Hjk]; [done|..].
  - rewrite list_lookup_insert_ne in Hj by done.
    assert (a = u) as ->.
    { apply list_lookup_insert_Some in Hi as [(_ & -> & _)|[? _]]; done. }
    exfalso. eapply (Hc j b); eauto.
  - rewrite list_lookup_insert_ne in Hi by done.
    assert (b = u) as ->.
    { apply list_lookup_insert_Some in Hj as [(_ & -> & _)|[? _]]; done. }
    exfalso. eapply (Hc i a); eauto.
  - rewrite list_lookup_insert_ne in Hi, Hj by done. exact (Hu _ _ _ _ Hi Hj Hn Hcat).
Qed.

(** [addContact] keeps the invariant, whatever its result. *)
Lemma addContact_keeps_uniqueness e contactData st :
  unique_name_category (contacts st) ->
  unique_name_category (contacts (snd (addContact e contactData st))).
Proof.
  intros Hu.
  destruct (addContact_cases e contactData st)
    as [[_ ->]|[Hdup (st2 & Hc & [[_ ->]|[_ ->]])]]; cbn [snd contacts with_contacts]; try done.
  rewrite Hc. apply unique_push; [exact Hu|].
  intros a Ha Hn Hcat. rewrite hasDuplicate_false in Hdup.
  specialize (Hdup a Ha). cbn in Hn, Hcat. rewrite Hn, Hcat in Hdup.
  now specialize (Hdup eq_refl eq_refl).
Qed.

(** It refuses a request whose name and category are those of a contact of
    the collection, and leaves the state as it is. *)
Lemma addContact_rejects_duplicate e contactData st c :
  c ∈ contacts st -> name c = o_name contactData -> category c = o_category contactData ->
  addContact e contactData st = (failure (MsgDuplicate (Some (o_name contactData))), st).
Proof.
  intros Hc Hn Hcat.
  destruct (addContact_cases e contactData st) as [[_ H]|[Hdup _]]; [exact H|].
  rewrite hasDuplicate_false in Hdup. specialize (Hdup c Hc). rewrite Hn, Hcat in Hdup.
  now specialize (Hdup eq_refl eq_refl).
Qed.

(** It accepts a request whose name is taken in other categories only,
    when the collection can be saved. *)
Lemma addContact_accepts_other_category e contactData st st2 :
  (forall c, c ∈ contacts st -> name c = o_name contactData ->
             category c <> o_category contactData) ->
  saveToStorage e (with_contacts st (push (Contact_new e 0 contactData) (contacts st)))
  = (true, st2) ->
  addContact e contactData st = (succeeded (Contact_new e 0 contactData), st2).
Proof.
  intros Hother Hsave.
  destruct (addContact_cases e contactData st)
    as [[Hdup _]|[_ (st2' & _ & [[Hs ->]|[Hs _]])]].
  - apply hasDuplicate_true in Hdup as (c & Hc & [= Hn] & [= Hcat] & _).
    now destruct (Hother c Hc Hn).
  - congruence.
  - rewrite Hsave in Hs. discriminate Hs.
Qed.

(** [updateContact] keeps the invariant when the ids are distinct and the
    request names both the name and the category. *)
Lemma updateContact_keeps_uniqueness e i updatedData st nm cat :
  unique_name_category (contacts st) ->
  NoDup (map id (contacts st)) ->
  p_name updatedData = Some nm -> p_category updatedData = Some cat ->
  unique_name_category (contacts (snd (updateContact e i updatedData st))).
Proof.
  intros Hu Hnd Hnm Hcat. unfold updateContact.
  destruct (findIndex _ _) as [k|] eqn:Hidx; [|done].
  destruct (hasDuplicate _ _ _ _) eqn:Hdup; [done|].
  destruct (findIndex_Some _ _ _ Hidx) as (original & Hk & Hid).
  apply bool_decide_eq_true in Hid.
  rewrite Hk. destruct (toJSON original) as [json|]; [|done].
  match goal with
  | |- context [saveToStorage ?e ?st1] =>
    pose proof (saveToStorage_contacts e st1) as Hc;
    destruct (saveToStorage e st1) as [ok st2]
  end.
  cbn [fst snd contacts with_contacts] in Hc.
  destruct ok; cbn [snd contacts with_contacts]; rewrite Hc.
  - apply unique_insert; [exact Hu|].
    intros j a Hj Ha Hn' Hcat'. cbn in Hn', Hcat'. rewrite Hnm in Hn'. rewrite Hcat in Hcat'.
    rewrite Hnm, Hcat in Hdup. cbn in Hn', Hcat'.
    rewrite hasDuplicate_false in Hdup.
    assert (Some (id a) = Some i) as [= Hida].
    { apply Hdup; [eapply list_elem_of_lookup_2; eauto|congruence..]. }
    apply Hj. eapply NoDup_lookup; [exact Hnd| |].
    + rewrite list_lookup_fmap, Ha. reflexivity.
    + rewrite list_lookup_fmap, Hk. cbn. congruence.
  - now rewrite list_insert_insert_eq, list_insert_id.
Qed.

(** C10. A successful updateContact(id, data) whose data has no id replaces
    the record found under the id and nothing else: the length of the
    collection and every other record are unchanged, and the new record has
    the id and the createdAt of the original and, for each of name, phone,
    address and category, the value supplied in data or else the value of
    the original. *)
Theorem update_changes_only_the_target e i updatedData st r st' :
  ids_assigned (contacts st) ->
  p_id updatedData = None ->
  updateContact e i updatedData st = (Return r, st') ->
  success r = true ->
  exists k original changed,
    contacts st !! k = Some original
    /\ id original = i
    /\ contact r = Some changed
    /\ contacts st' = <[k := changed]> (contacts st)
    /\ length (contacts st') = length (contacts st)
    /\ (forall j, j <> k -> contacts st' !! j = contacts st !! j)
    /\ contacts st' !! k = Some changed
    /\ id changed = id original
    /\ createdAt changed = createdAt original
    /\ name changed = default (name original) (p_name updatedData)
    /\ phone changed = default (phone original) (p_phone updatedData)
    /\ address changed = default (address original) (p_address updatedData)
    /\ category changed = default (category original) (p_category updatedData).
Proof.
  intros Hids Hnoid Hrun Hok. unfold updateContact in Hrun.
  destruct (findIndex _ _) as [k|] eqn:Hidx; [|injection Hrun as <- <-; discriminate Hok].
  destruct (hasDuplicate _ _ _ _); [injection Hrun as <- <-; discriminate Hok|].
  destruct (findIndex_Some _ _ _ Hidx) as (original & Hk & Hid).
  apply bool_decide_eq_true in Hid.
  rewrite Hk in Hrun. destruct (toJSON original); [|discriminate Hrun].
  pose proof (saveToStorage_contacts e
    (with_contacts st (<[k := with_createdAt (Contact_new e 0 (merge original updatedData))
                                              (createdAt original)]> (contacts st)))) as Hc.
  destruct (saveToStorage _ _) as [ok st2]. cbn [fst snd] in Hc.
  destruct ok; injection Hrun as <- <-; [|discriminate Hok].
  exists k, original, (updated e original updatedData).
  assert (Hlt := lookup_lt_Some _ _ _ Hk).
  assert (id original <> []) as Hne.
  { unfold ids_assigned in Hids. rewrite Forall_forall in Hids. apply Hids.
    eapply list_elem_of_lookup_2. exact Hk. }
  repeat split; try done.
  - rewrite Hc. cbn. now rewrite length_insert.
  - intros j Hj. rewrite Hc. cbn. now apply list_lookup_insert_ne.
  - rewrite Hc. cbn. now apply list_lookup_insert_eq.
  - cbn. rewrite Hnoid. cbn. now destruct (id original).
Qed.

End Identity.

(** ** Validation of the form *)

Lemma digits_pattern_count (phone_ : jsstring) :
  digits_pattern phone_ = true -> (7 <= count_digits phone_)%nat.
Proof.
  unfold digits_pattern, count_digits. rewrite andb_true_iff, bool_decide_eq_true.
  intros [Hlen Hall]. rewrite forallb_filter_id by exact Hall. exact Hlen.
Qed.

Section Form.
Context `{P : Platform}.

(** C3 (amended). For every input whose name, phone or address is empty, or
    whose phone has fewer than 7 digits, validateForm returns false and
    shows a validation message, and handleSubmit returns without calling
    addContact or updateContact: the state is unchanged and no contact is
    inserted. *)
Theorem form_rejects_invalid_input (e : Entropy) (editingContactId : option jsstring)
    (name_ phone_ address_ category_ : jsstring) (st : State) :
  name_ = [] \/ phone_ = [] \/ address_ = [] \/ (count_digits phone_ < 7)%nat ->
  let contactData :=
    {| o_id := None; o_name := name_; o_phone := phone_;
       o_address := address_; o_category := category_ |} in
  exists reason,
    validateForm contactData = (false, Some reason)
    /\ handleSubmit e editingContactId name_ phone_ address_ category_ st
       = (Rejected (Some reason), st).
Proof.
  intros Hbad contactData.
  assert (exists reason, validateForm contactData = (false, Some reason)) as [reason Hv].
  { unfold validateForm. cbn [o_name o_phone o_address contactData].
    destruct (bool_decide (name_ = []) || bool_decide (phone_ = [])
              || bool_decide (address_ = [])) eqn:Hreq; [eauto|].
    destruct (bool_decide (length phone_ = 11%nat) && negb (mobile_pattern phone_)); [eauto|].
    destruct (digits_pattern phone_) eqn:Hd; cbn; [|eauto].
    exfalso. rewrite !orb_false_iff, !bool_decide_eq_false in Hreq.
    apply digits_pattern_count in Hd. destruct Hbad as [?|[?|[?|?]]]; [tauto..|lia]. }
  exists reason. split; [exact Hv|].
  unfold handleSubmit. fold contactData. now rewrite Hv.
Qed.

End Form.

(** ** Code units and bytes *)

Lemma charCode_bounded (c : char16) : charCode c < 65536.
Proof.
  unfold charCode. pose proof (Byte.to_N_bounded (c16_hi c)).
  pose proof (Byte.to_N_bounded (c16_lo c)). lia.
Qed.

Lemma to_N_byte_of_N (n : N) : n < 256 -> Byte.to_N (byte_of_N n) = n.
Proof.
  intros Hn. unfold byte_of_N. rewrite N.mod_small by exact Hn.
  destruct (Byte.of_N n) as [b|] eqn:Hb.
  - now apply Byte.to_of_N.
  - apply Byte.of_N_None_iff in Hb. lia.
Qed.

Lemma charCode_fromCharCode (n : N) : n < 65536 -> charCode (fromCharCode n) = n.
Proof.
  intros Hn. unfold charCode, fromCharCode. cbn [c16_hi c16_lo].
  rewrite to_N_byte_of_N by lia.
  unfold byte_of_N at 1. destruct (Byte.of_N (n mod 256)) as [b|] eqn:Hb.
  - apply Byte.to_of_N in Hb. lia.
  - apply Byte.of_N_None_iff in Hb. lia.
Qed.

Lemma map_charCode_fromCharCode (l : list N) :
  Forall (fun n => n < 65536) l -> map charCode (map fromCharCode l) = l.
Proof.
  induction 1 as [|n l Hn _ IH]; cbn; [done|].
  now rewrite charCode_fromCharCode, IH.
Qed.

Lemma map_fromCharCode_charCode (s : jsstring) : map fromCharCode (map charCode s) = s.
Proof.
  induction s as [|c s IH]; cbn; [done|]. now rewrite fromCharCode_charCode, IH.
Qed.

(** Splits the comparisons of the goal into their cases. *)
Ltac compare_cases :=
  repeat match goal with
         | |- context [?a <? ?b] => destruct (N.ltb_spec a b)
         | |- context [?a <=? ?b] => destruct (N.leb_spec a b)
         | |- context [?a =? ?b] => destruct (N.eqb_spec a b)
         end;
  cbn [andb orb negb].

(** Induction over a list in groups of three. *)
Lemma list_ind3 {A} (Q : list A -> Prop) :
  Q [] -> (forall a, Q [a]) -> (forall a b, Q [a; b]) ->
  (forall a b c rest, Q rest -> Q (a :: b :: c :: rest)) ->
  forall l, Q l.
Proof.
  intros H0 H1 H2 H3. fix IH 1.
  intros [|a [|b [|c rest]]]; [exact H0 | apply H1 | apply H2 | apply H3, IH].
Qed.

(** ** Base64 *)

Lemma value_alphabet (v : N) : v < 64 -> Base64.value (Base64.alphabet v) = Some v.
Proof.
  intros Hv. unfold Base64.value, Base64.alphabet.
  compare_cases; try lia; f_equal; lia.
Qed.

Lemma alphabet_range (v : N) :
  v < 64 -> 43 <= Base64.alphabet v <= 122 /\ Base64.alphabet v <> 61.
Proof. intros Hv. unfold Base64.alphabet. compare_cases; lia. Qed.

Lemma alphabet_not_pad (v : N) : v < 64 -> (Base64.alphabet v =? Base64.pad) = false.
Proof. intros Hv. apply N.eqb_neq. unfold Base64.pad. now apply alphabet_range. Qed.

Lemma alphabet_not_whitespace (v : N) :
  v < 64 -> Base64.is_whitespace (Base64.alphabet v) = false.
Proof.
  intros Hv. pose proof (alphabet_range v Hv) as [Hr _].
  unfold Base64.is_whitespace. generalize dependent (Base64.alphabet v). intros c Hc.
  compare_cases; try reflexivity; lia.
Qed.

Lemma values_alphabet (vs : list N) :
  Forall (fun v => v < 64) vs -> Base64.values (map Base64.alphabet vs) = Some vs.
Proof.
  induction 1 as [|v vs Hv _ IH]; cbn; [done|].
  now rewrite value_alphabet, IH.
Qed.

Lemma sextets_bounded (bs : list N) :
  Forall (fun b => b < 256) bs -> Forall (fun v => v < 64) (Base64.sextets bs).
Proof.
  induction bs as [|a|a b|a b c rest IH] using list_ind3; intros H; cbn [Base64.sextets].
  - constructor.
  - inversion_clear H. repeat constructor; lia.
  - inversion_clear H as [|? ? Ha H']. inversion_clear H'. repeat constructor; lia.
  - inversion_clear H as [|? ? Ha H']. inversion_clear H' as [|? ? Hb H''].
    inversion_clear H'' as [|? ? Hc Hrest]. repeat constructor; try lia. now apply IH.
Qed.

Lemma decode_sextets (bs : list N) :
  Forall (fun b => b < 256) bs -> Base64.decode_values (Base64.sextets bs) = bs.
Proof.
  induction bs as [|a|a b|a b c rest IH] using list_ind3; intros H;
    cbn [Base64.sextets Base64.decode_values].
  - reflexivity.
  - inversion_clear H. f_equal. lia.
  - inversion_clear H as [|? ? Ha H']. inversion_clear H'. repeat (f_equal; try lia).
  - inversion_clear H as [|? ? Ha H']. inversion_clear H' as [|? ? Hb H''].
    inversion_clear H'' as [|? ? Hc Hrest]. rewrite IH by done.
    repeat (f_equal; try lia).
Qed.

Lemma padding_step {A} (a b c : A) (rest : list A) (f : A -> N) :
  Base64.padding (map f (a :: b :: c :: rest)) = Base64.padding (map f rest).
Proof.
  unfold Base64.padding. cbn [map length].
  replace (S (S (S (length (map f rest))))) with (length (map f rest) + 1 * 3)%nat by lia.
  now rewrite Nat.Div0.mod_add.
Qed.

(** The encoding has a length that is a multiple of four, of which the
    padding is none, one or two characters. *)
Lemma encoding_shape (bs : list N) :
  (exists q, length (Base64.sextets bs) + length (Base64.padding bs) = 4 * q)%nat
  /\ (exists q r, length (Base64.sextets bs) = 4 * q + r /\ r <> 1 /\ r < 4)%nat
  /\ (Base64.padding bs = []
      \/ (Base64.padding bs = [Base64.pad] /\ Base64.sextets bs <> [])
      \/ (Base64.padding bs = [Base64.pad; Base64.pad] /\ Base64.sextets bs <> [])).
Proof.
  induction bs as [|a|a b|a b c rest IH] using list_ind3.
  - cbn. split; [now exists 0%nat|]. split; [exists 0%nat, 0%nat; lia|]. now left.
  - cbn. split; [now exists 1%nat|]. split; [exists 0%nat, 2%nat; lia|]. right. right. done.
  - cbn. split; [now exists 1%nat|]. split; [exists 0%nat, 3%nat; lia|]. right. left. done.
  - pose proof (padding_step a b c rest (fun x => x)) as Hp. rewrite !map_id in Hp.
    rewrite Hp. cbn [Base64.sextets length].
    destruct IH as ((q & H1) & (q' & r & H2 & Hr) & H3).
    split; [exists (S q); lia|]. split; [exists (S q'), r; lia|].
    destruct H3 as [H3|[[H3 _]|[H3 _]]]; [left|right; left|right; right]; done.
Qed.

Lemma drop_pad_snoc (l : list N) (x : N) :
  Base64.drop_pad (l ++ [x]) = if x =? Base64.pad then l else l ++ [x].
Proof.
  unfold Base64.drop_pad. rewrite rev_app_distr. cbn [rev app].
  now rewrite rev_involutive.
Qed.

Lemma drop_pad_alphabet (vs : list N) :
  Forall (fun v => v < 64) vs ->
  Base64.drop_pad (map Base64.alphabet vs) = map Base64.alphabet vs.
Proof.
  intros H. destruct vs as [|v vs _] using rev_ind; [done|].
  rewrite map_app. cbn [map]. rewrite drop_pad_snoc, alphabet_not_pad; [done|].
  apply Forall_app in H as [_ H]. now inversion_clear H.
Qed.

Lemma strip_padding_encoding (bs : list N) :
  Forall (fun b => b < 256) bs ->
  Base64.strip_padding (Base64.encode_bytes bs) = map Base64.alphabet (Base64.sextets bs).
Proof.
  intros Hbs. pose proof (sextets_bounded bs Hbs) as Hv.
  destruct (encoding_shape bs) as ((q & Hlen) & _ & Hpad).
  unfold Base64.strip_padding, Base64.encode_bytes.
  rewrite length_app, length_map.
  replace (N.of_nat (length (Base64.sextets bs) + length (Base64.padding bs)) mod 4 =? 0)
    with true by (symmetry; apply N.eqb_eq; lia).
  destruct Hpad as [->|[[-> _]|[-> _]]].
  - rewrite app_nil_r. now rewrite !drop_pad_alphabet.
  - rewrite drop_pad_snoc. cbn. now rewrite drop_pad_alphabet.
  - change [Base64.pad; Base64.pad] with ([Base64.pad] ++ [Base64.pad]).
    rewrite app_assoc, drop_pad_snoc. cbn. rewrite drop_pad_snoc. now cbn.
Qed.

Lemma encoding_no_whitespace (bs : list N) :
  Forall (fun b => b < 256) bs ->
  List.filter (fun c => negb (Base64.is_whitespace c)) (Base64.encode_bytes bs)
  = Base64.encode_bytes bs.
Proof.
  intros Hbs. apply forallb_filter_id. apply forallb_forall. intros c Hc.
  unfold Base64.encode_bytes in Hc. apply in_app_or in Hc as [Hc|Hc].
  - apply in_map_iff in Hc as (v & <- & Hv).
    rewrite alphabet_not_whitespace; [done|].
    pose proof (sextets_bounded bs Hbs) as Hall. rewrite Forall_forall in Hall.
    apply Hall. now apply list_elem_of_In.
  - unfold Base64.padding in Hc.
    destruct (length bs mod 3)%nat as [|[|[|?]]]; cbn in Hc; intuition (subst; done).
Qed.

Lemma encoding_bounded (bs : list N) :
  Forall (fun b => b < 256) bs -> Forall (fun c => c < 65536) (Base64.encode_bytes bs).
Proof.
  intros Hbs. unfold Base64.encode_bytes. apply Forall_app. split.
  - apply Forall_map. eapply Forall_impl; [apply sextets_bounded, Hbs|].
    intros v Hv. cbn. pose proof (alphabet_range v Hv). lia.
  - unfold Base64.padding, Base64.pad.
    destruct (length bs mod 3)%nat as [|[|[|?]]]; repeat constructor; lia.
Qed.

(** [atob] inverts [btoa]. *)
Lemma atob_btoa (s encoded : jsstring) :
  Base64.btoa s = Some encoded -> Base64.atob encoded = Some s.
Proof.
  unfold Base64.btoa. destruct (forallb _ s) eqn:Hs; [|done]. intros [= <-].
  assert (Forall (fun b => b < 256) (map charCode s)) as Hbs.
  { apply Forall_map. apply Forall_forall. intros c Hc.
    rewrite forallb_forall in Hs. apply N.ltb_lt, Hs. now apply list_elem_of_In. }
  unfold Base64.atob.
  rewrite map_charCode_fromCharCode by (now apply encoding_bounded).
  rewrite encoding_no_whitespace, strip_padding_encoding by done.
  destruct (encoding_shape (map charCode s)) as (_ & (q & r & Hlen & Hr) & _).
  rewrite length_map.
  replace (N.of_nat (length (Base64.sextets (map charCode s))) mod 4 =? 1) with false
    by (symmetry; apply N.eqb_neq; lia).
  rewrite values_alphabet by (now apply sextets_bounded).
  now rewrite decode_sextets, map_fromCharCode_charCode.
Qed.

(** ** UTF-8 *)

(** *** The bit operations of the codec as arithmetic *)

Lemma land_low (x k : N) : N.land x (N.ones k) = x mod 2 ^ k.
Proof. apply N.land_ones. Qed.

Lemma lor_disjoint (a b k : N) : b < 2 ^ k -> N.lor (a * 2 ^ k) b = a * 2 ^ k + b.
Proof.
  intros Hb. assert (N.land (a * 2 ^ k) b = 0) as Hland.
  { apply N.bits_inj. intros n. rewrite N.land_spec, N.bits_0.
    destruct (N.lt_ge_cases n k) as [Hn|Hn].
    - now rewrite N.mul_pow2_bits_low.
    - rewrite <- (N.mod_small b (2 ^ k)) by exact Hb.
      rewrite N.mod_pow2_bits_high by exact Hn. apply andb_false_r. }
  now rewrite <- N.lxor_lor, <- N.add_nocarry_lxor.
Qed.

Lemma lor_0x80 (y : N) : y < 64 -> N.lor 0x80 y = 128 + y.
Proof. intros Hy. exact (lor_disjoint 2 y 6 Hy). Qed.

Lemma lor_0xC0 (y : N) : y < 32 -> N.lor 0xC0 y = 192 + y.
Proof. intros Hy. exact (lor_disjoint 6 y 5 Hy). Qed.

Lemma lor_0xE0 (y : N) : y < 16 -> N.lor 0xE0 y = 224 + y.
Proof. intros Hy. exact (lor_disjoint 14 y 4 Hy). Qed.

Lemma lor_0xF0 (y : N) : y < 8 -> N.lor 0xF0 y = 240 + y.
Proof. intros Hy. exact (lor_disjoint 30 y 3 Hy). Qed.

Lemma shift_in (a b : N) : N.lor (N.shiftl a 6) (N.land b 0x3F) = a * 64 + b mod 64.
Proof.
  rewrite N.shiftl_mul_pow2. change 0x3F with (N.ones 6). rewrite land_low.
  apply lor_disjoint. apply N.mod_lt. done.
Qed.

(** The bytes of a scalar value, in arithmetic. *)
Lemma encode_cp_arith (cp : N) :
  cp < 0x110000 ->
  Utf8.encode_cp cp =
  if cp <? 0x80 then [cp]
  else if cp <? 0x800 then [192 + cp / 64; 128 + cp mod 64]
  else if cp <? 0x10000 then [224 + cp / 4096; 128 + cp / 64 mod 64; 128 + cp mod 64]
  else [240 + cp / 262144; 128 + cp / 4096 mod 64; 128 + cp / 64 mod 64; 128 + cp mod 64].
Proof.
  intros Hcp. unfold Utf8.encode_cp.
  rewrite !N.shiftr_div_pow2. change 0x3F with (N.ones 6). rewrite !land_low.
  change (2 ^ 6) with 64. change (2 ^ 12) with 4096. change (2 ^ 18) with 262144.
  destruct (N.ltb_spec cp 0x80); [done|].
  destruct (N.ltb_spec cp 0x800).
  { rewrite lor_0xC0, lor_0x80 by lia. done. }
  destruct (N.ltb_spec cp 0x10000).
  { rewrite lor_0xE0, !lor_0x80 by lia. done. }
  rewrite lor_0xF0, !lor_0x80 by lia. done.
Qed.

Lemma encode_cp_bytes (cp : N) :
  cp < 0x110000 -> Forall (fun b => b < 256) (Utf8.encode_cp cp).
Proof.
  intros Hcp. rewrite encode_cp_arith by exact Hcp.
  destruct (N.ltb_spec cp 0x80), (N.ltb_spec cp 0x800), (N.ltb_spec cp 0x10000);
    repeat (constructor; [lia|]); constructor.
Qed.

(** *** The decoder on the bytes of a scalar value *)

Lemma decode_ascii (b : N) (rest : list N) :
  b < 0x80 ->
  Utf8.decode_cps Utf8.d_init (b :: rest) = b :: Utf8.decode_cps Utf8.d_init rest.
Proof.
  intros Hb. cbn [Utf8.decode_cps Utf8.d_init Utf8.d_needed].
  change (0 =? 0) with true. cbn match. unfold Utf8.lead_byte.
  destruct (N.leb_spec b 0x7F); [done|lia].
Qed.

(** A byte that continues an open sequence. *)
Lemma decode_continue (cp seen needed lower upper b : N) (rest : list N) :
  needed <> 0 -> lower <= b <= upper ->
  Utf8.decode_cps (Utf8.DState cp seen needed lower upper) (b :: rest)
  = if seen + 1 =? needed
    then (cp * 64 + b mod 64) :: Utf8.decode_cps Utf8.d_init rest
    else Utf8.decode_cps (Utf8.DState (cp * 64 + b mod 64) (seen + 1) needed 0x80 0xBF) rest.
Proof.
  intros Hn [Hl Hu]. cbn [Utf8.decode_cps Utf8.d_needed Utf8.d_lower Utf8.d_upper
                         Utf8.d_cp Utf8.d_seen].
  destruct (N.eqb_spec needed 0); [done|].
  destruct (N.leb_spec lower b); [|lia]. destruct (N.leb_spec b upper); [|lia].
  cbn [andb negb]. cbn zeta. now rewrite shift_in.
Qed.

Lemma decode_lead (b : N) (rest : list N) :
  0x80 <= b ->
  Utf8.decode_cps Utf8.d_init (b :: rest)
  = Utf8.emit (fst (Utf8.lead_byte b)) ++ Utf8.decode_cps (snd (Utf8.lead_byte b)) rest.
Proof. intros _. reflexivity. Qed.

Lemma lead_byte_2 (x : N) :
  2 <= x < 32 -> Utf8.lead_byte (192 + x) = (None, Utf8.DState x 0 1 0x80 0xBF).
Proof.
  intros Hx. unfold Utf8.lead_byte.
  destruct (N.leb_spec (192 + x) 0x7F); [lia|].
  destruct (N.leb_spec 0xC2 (192 + x)); [|lia].
  destruct (N.leb_spec (192 + x) 0xDF); [|lia]. cbn [andb].
  change 0x1F with (N.ones 5). rewrite land_low. do 2 f_equal. lia.
Qed.

Lemma lead_byte_3 (x : N) :
  x < 16 ->
  Utf8.lead_byte (224 + x)
  = (None, Utf8.DState x 0 2 (if x =? 0 then 0xA0 else 0x80) (if x =? 13 then 0x9F else 0xBF)).
Proof.
  intros Hx. unfold Utf8.lead_byte.
  destruct (N.leb_spec (224 + x) 0x7F); [lia|].
  destruct (N.leb_spec 0xC2 (224 + x)); [|lia].
  destruct (N.leb_spec (224 + x) 0xDF); [lia|]. cbn [andb].
  destruct (N.leb_spec 0xE0 (224 + x)); [|lia].
  destruct (N.leb_spec (224 + x) 0xEF); [|lia]. cbn [andb].
  change 0xF with (N.ones 4). rewrite land_low.
  replace ((224 + x) mod 2 ^ 4) with x by lia.
  replace (224 + x =? 0xE0) with (x =? 0)
    by (destruct (N.eqb_spec x 0), (N.eqb_spec (224 + x) 0xE0); (reflexivity || lia)).
  replace (224 + x =? 0xED) with (x =? 13)
    by (destruct (N.eqb_spec x 13), (N.eqb_spec (224 + x) 0xED); (reflexivity || lia)).
  reflexivity.
Qed.

Lemma lead_byte_4 (x : N) :
  x < 5 ->
  Utf8.lead_byte (240 + x)
  = (None, Utf8.DState x 0 3 (if x =? 0 then 0x90 else 0x80) (if x =? 4 then 0x8F else 0xBF)).
Proof.
  intros Hx. unfold Utf8.lead_byte.
  destruct (N.leb_spec (240 + x) 0x7F); [lia|].
  destruct (N.leb_spec 0xC2 (240 + x)); [|lia].
  destruct (N.leb_spec (240 + x) 0xDF); [lia|]. cbn [andb].
  destruct (N.leb_spec 0xE0 (240 + x)); [|lia].
  destruct (N.leb_spec (240 + x) 0xEF); [lia|]. cbn [andb].
  destruct (N.leb_spec 0xF0 (240 + x)); [|lia].
  destruct (N.leb_spec (240 + x) 0xF4); [|lia]. cbn [andb].
  change 0x7 with (N.ones 3). rewrite land_low.
  replace ((240 + x) mod 2 ^ 3) with x by lia.
  replace (240 + x =? 0xF0) with (x =? 0)
    by (destruct (N.eqb_spec x 0), (N.eqb_spec (240 + x) 0xF0); (reflexivity || lia)).
  replace (240 + x =? 0xF4) with (x =? 4)
    by (destruct (N.eqb_spec x 4), (N.eqb_spec (240 + x) 0xF4); (reflexivity || lia)).
  reflexivity.
Qed.

(** The decoder reads the bytes of a scalar value as that value. *)
Lemma decode_encode_cp (cp : N) (rest : list N) :
  Utf8.scalar cp ->
  Utf8.decode_cps Utf8.d_init (Utf8.encode_cp cp ++ rest)
  = cp :: Utf8.decode_cps Utf8.d_init rest.
Proof.
  intros [Hcp Hsur]. rewrite encode_cp_arith by exact Hcp.
  destruct (N.ltb_spec cp 0x80); [now apply decode_ascii|].
  destruct (N.ltb_spec cp 0x800).
  { cbn [app]. rewrite decode_lead, lead_byte_2 by lia. cbn [fst snd Utf8.emit app].
    rewrite decode_continue by lia. cbn. f_equal. lia. }
  destruct (N.ltb_spec cp 0x10000).
  { cbn [app]. rewrite decode_lead, lead_byte_3 by lia. cbn [fst snd Utf8.emit app].
    rewrite decode_continue;
      [|done|destruct (N.eqb_spec (cp / 4096) 0), (N.eqb_spec (cp / 4096) 13); lia].
    change (0 + 1 =? 2) with false. cbn match.
    rewrite decode_continue by lia. cbn. f_equal. lia. }
  cbn [app]. rewrite decode_lead, lead_byte_4 by lia. cbn [fst snd Utf8.emit app].
  rewrite decode_continue;
    [|done|destruct (N.eqb_spec (cp / 262144) 0), (N.eqb_spec (cp / 262144) 4); lia].
  change (0 + 1 =? 3) with false. cbn match.
  rewrite decode_continue by lia.
  change (0 + 1 + 1 =? 3) with false. cbn match.
  rewrite decode_continue by lia. cbn. f_equal. lia.
Qed.

Lemma decode_encode_cps (cps : list N) :
  Forall Utf8.scalar cps ->
  Utf8.decode_cps Utf8.d_init (flat_map Utf8.encode_cp cps) = cps.
Proof.
  induction 1 as [|cp cps Hcp _ IH]; cbn [flat_map]; [done|].
  now rewrite decode_encode_cp, IH.
Qed.

(** *** Well-formed text *)

Lemma well_formed_ind (Q : list N -> Prop) :
  Q [] ->
  (forall c s, Utf8.is_high c = false -> Utf8.is_low c = false ->
               Utf8.well_formed s = true -> Q s -> Q (c :: s)) ->
  (forall c d s, Utf8.is_high c = true -> Utf8.is_low d = true ->
                 Utf8.well_formed s = true -> Q s -> Q (c :: d :: s)) ->
  forall s, Utf8.well_formed s = true -> Q s.
Proof.
  intros H0 H1 H2. fix IH 1. intros [|c s]; [intros _; exact H0|].
  cbn [Utf8.well_formed]. destruct (Utf8.is_high c) eqn:Hc.
  - destruct s as [|d s]; [discriminate|].
    intros [Hd Hs]%andb_true_iff. apply H2; [done..|]. apply IH, Hs.
  - intros [Hl Hs]%andb_true_iff. apply negb_true_iff in Hl.
    apply H1; [done..|]. apply IH, Hs.
Qed.

Lemma is_high_spec (c : N) : Utf8.is_high c = true <-> 0xD800 <= c <= 0xDBFF.
Proof. unfold Utf8.is_high. rewrite andb_true_iff, !N.leb_le. done. Qed.

Lemma is_low_spec (c : N) : Utf8.is_low c = true <-> 0xDC00 <= c <= 0xDFFF.
Proof. unfold Utf8.is_low. rewrite andb_true_iff, !N.leb_le. done. Qed.

Lemma not_surrogate (c : N) :
  Utf8.is_high c = false -> Utf8.is_low c = false -> ~ (0xD800 <= c <= 0xDFFF).
Proof.
  intros Hh Hl H. apply not_true_iff_false in Hh, Hl.
  rewrite is_high_spec in Hh. rewrite is_low_spec in Hl. lia.
Qed.

(** The code points of well-formed text are scalar values, and their
    UTF-16 form is the text. *)
Lemma code_points_well_formed (s : list N) :
  Utf8.well_formed s = true -> Forall (fun c => c < 65536) s ->
  Forall Utf8.scalar (Utf8.code_points s)
  /\ flat_map Utf8.utf16_units (Utf8.code_points s) = s.
Proof.
  revert s. refine (well_formed_ind _ _ _ _);
    [intros Hb|intros c s Hh Hl _ IH Hb|intros c d s Hh Hl _ IH Hb].
  - split; [constructor|reflexivity].
  - inversion_clear Hb as [|? ? Hc Hs]. destruct (IH Hs) as [IH1 IH2].
    cbn [Utf8.code_points]. rewrite Hh, Hl. cbn [flat_map]. split.
    + constructor; [|exact IH1]. split; [lia|]. now apply not_surrogate.
    + rewrite IH2. unfold Utf8.utf16_units.
      destruct (N.ltb_spec c 0x10000); [done|lia].
  - inversion_clear Hb as [|? ? Hc Hs']. inversion_clear Hs' as [|? ? Hd Hs].
    destruct (IH Hs) as [IH1 IH2].
    cbn [Utf8.code_points]. rewrite Hh, Hl. cbn [flat_map].
    apply is_high_spec in Hh. apply is_low_spec in Hl. split.
    + constructor; [|exact IH1]. split; lia.
    + rewrite IH2. unfold Utf8.utf16_units.
      destruct (N.ltb_spec (0x10000 + (c - 0xD800) * 0x400 + (d - 0xDC00)) 0x10000); [lia|].
      cbn [app]. f_equal; [lia|]. f_equal. lia.
Qed.

(** The first code point of text that does not start with U+FEFF. *)
Lemma code_points_no_bom (s : list N) :
  Utf8.no_bom s = true -> Utf8.no_bom (Utf8.code_points s) = true.
Proof.
  destruct s as [|c s]; [done|]. cbn [Utf8.no_bom Utf8.code_points].
  intros Hc. apply negb_true_iff, N.eqb_neq in Hc.
  destruct (Utf8.is_high c) eqn:Hh.
  - apply is_high_spec in Hh. destruct s as [|d s]; [done|].
    destruct (Utf8.is_low d) eqn:Hl; [|done]. apply is_low_spec in Hl.
    cbn [Utf8.no_bom]. apply negb_true_iff, N.eqb_neq. lia.
  - destruct (Utf8.is_low c); [done|]. cbn [Utf8.no_bom]. now apply negb_true_iff, N.eqb_neq.
Qed.

(** Only U+FEFF is encoded as the byte order mark. *)
Lemma strip_bom_encoding (cps : list N) :
  Forall Utf8.scalar cps -> Utf8.no_bom cps = true ->
  Utf8.strip_bom (flat_map Utf8.encode_cp cps) = flat_map Utf8.encode_cp cps.
Proof.
  intros Hs Hb. destruct Hs as [|cp cps [Hcp Hsur] Hrest]; [done|].
  cbn [Utf8.no_bom] in Hb. apply negb_true_iff, N.eqb_neq in Hb.
  cbn [flat_map]. rewrite encode_cp_arith by exact Hcp.
  assert (forall a bs, a <> 0xEF -> Utf8.strip_bom (a :: bs) = a :: bs) as Hfirst.
  { intros a bs Ha. unfold Utf8.strip_bom. destruct bs as [|b [|c bs]]; try done.
    destruct (N.eqb_spec a 0xEF); [done|reflexivity]. }
  destruct (N.ltb_spec cp 0x80); [apply Hfirst; lia|].
  destruct (N.ltb_spec cp 0x800); [apply Hfirst; lia|].
  destruct (N.ltb_spec cp 0x10000); [|apply Hfirst; lia].
  cbn [app Utf8.strip_bom].
  destruct (N.eqb_spec (224 + cp / 4096) 0xEF); [|done].
  destruct (N.eqb_spec (128 + cp / 64 mod 64) 0xBB); [|done].
  destruct (N.eqb_spec (128 + cp mod 64) 0xBF); [|done]. lia.
Qed.

Lemma map_to_N_byte_of_N (bs : list N) :
  Forall (fun b => b < 256) bs -> map Byte.to_N (map byte_of_N bs) = bs.
Proof.
  induction 1 as [|b bs Hb _ IH]; cbn; [done|]. now rewrite to_N_byte_of_N, IH.
Qed.

Lemma map_byte_of_to_N (bs : Uint8Array) : map byte_of_N (map Byte.to_N bs) = bs.
Proof. induction bs as [|b bs IH]; cbn; [done|]. now rewrite byte_of_to_N, IH. Qed.

(** [TextDecoder] inverts [TextEncoder] on text that UTF-8 carries. *)
Lemma decode_encode (s : jsstring) :
  Utf8.utf8_safe s = true -> Utf8.decode (Utf8.encode s) = s.
Proof.
  unfold Utf8.utf8_safe. intros [Hwf Hb]%andb_true_iff.
  assert (Forall (fun c => c < 65536) (map charCode s)) as Hunits.
  { apply Forall_map, Forall_forall. intros c _. apply charCode_bounded. }
  destruct (code_points_well_formed _ Hwf Hunits) as [Hsc Hback].
  unfold Utf8.decode, Utf8.encode.
  rewrite map_to_N_byte_of_N.
  - rewrite strip_bom_encoding by (try apply code_points_no_bom; done).
    rewrite decode_encode_cps by exact Hsc.
    rewrite Hback. apply map_fromCharCode_charCode.
  - apply Forall_flat_map. eapply Forall_impl; [exact Hsc|].
    intros cp [Hcp _]. now apply encode_cp_bytes.
Qed.

(** ** Encryption *)

Section Encryption.
Context `{P : Platform}.
Implicit Types (e : Entropy) (sto : Storage) (key : CryptoKey).

Lemma generateIV_length e : length (generateIV e) = 12%nat.
Proof. unfold generateIV. now rewrite length_map, length_seq. Qed.

(** A byte array that one call can be given is encoded; a longer one makes
    the spread throw. *)
Lemma arrayBufferToBase64_Some (buffer : Uint8Array) :
  (N.of_nat (length buffer) <= max_arguments)%N ->
  arrayBufferToBase64 buffer
  = Some (map fromCharCode (Base64.encode_bytes (map Byte.to_N buffer))).
Proof.
  intros Hfits. unfold arrayBufferToBase64, Base64.btoa.
  apply N.leb_le in Hfits. rewrite Hfits.
  assert (forall b : byte, charCode (fromCharCode (Byte.to_N b)) = Byte.to_N b) as Hb.
  { intros b. apply charCode_fromCharCode. pose proof (Byte.to_N_bounded b). lia. }
  replace (forallb _ _) with true.
  - rewrite map_map. do 3 f_equal. apply map_ext. exact Hb.
  - symmetry. apply forallb_forall. intros c (b & <- & _)%in_map_iff.
    rewrite Hb. apply N.ltb_lt. pose proof (Byte.to_N_bounded b). lia.
Qed.

Lemma arrayBufferToBase64_None (buffer : Uint8Array) :
  (max_arguments < N.of_nat (length buffer))%N -> arrayBufferToBase64 buffer = None.
Proof.
  intros Hover. unfold arrayBufferToBase64.
  apply N.leb_gt in Hover. now rewrite Hover.
Qed.

(** [base64ToArrayBuffer] inverts [arrayBufferToBase64]. *)
Lemma base64ToArrayBuffer_arrayBufferToBase64 (buffer : Uint8Array) (base64 : jsstring) :
  arrayBufferToBase64 buffer = Some base64 -> base64ToArrayBuffer base64 = Some buffer.
Proof.
  intros H. unfold base64ToArrayBuffer. unfold arrayBufferToBase64 in H.
  destruct (_ <=? _)%N; [|discriminate H].
  rewrite (atob_btoa _ _ H). f_equal. rewrite map_map.
  rewrite <- (map_id buffer) at 2. apply map_ext. intros b.
  rewrite charCode_fromCharCode by (pose proof (Byte.to_N_bounded b); lia).
  apply byte_of_to_N.
Qed.

(** A text with a character outside the alphabet is no base64. *)
Lemma atob_rejects (s : jsstring) (c : char16) :
  c ∈ s -> Base64.is_whitespace (charCode c) = false ->
  charCode c <> Base64.pad -> Base64.value (charCode c) = None ->
  Base64.atob s = None.
Proof.
  intros Hc Hws Hpad Hval. unfold Base64.atob.
  set (data := List.filter _ _).
  assert (In (charCode c) data) as Hin.
  { apply filter_In. split; [|now rewrite Hws].
    apply in_map. now apply list_elem_of_In. }
  assert (forall l, In (charCode c) l -> Base64.values l = None) as Hvalues.
  { induction l as [|x l IH]; [done|]. intros [->|Hl]; cbn.
    - now rewrite Hval.
    - rewrite (IH Hl). now destruct (Base64.value x). }
  assert (forall l, In (charCode c) l -> In (charCode c) (Base64.drop_pad l)) as Hdrop.
  { intros l Hl. unfold Base64.drop_pad. destruct (rev l) as [|x r] eqn:Hr; [done|].
    destruct (N.eqb_spec x Base64.pad) as [->|]; [|done].
    apply in_rev in Hl. rewrite Hr in Hl. destruct Hl as [Hl|Hl]; [congruence|].
    now apply in_rev in Hl. }
  assert (In (charCode c) (Base64.strip_padding data)) as Hin'.
  { unfold Base64.strip_padding. destruct (_ =? 0); [|done]. now apply Hdrop, Hdrop. }
  rewrite (Hvalues _ Hin'). now destruct (_ =? 1).
Qed.

Lemma base64ToArrayBuffer_bracket (s : jsstring) (c : char16) :
  c ∈ s -> charCode c = 91 -> base64ToArrayBuffer s = None.
Proof.
  intros Hc H91. unfold base64ToArrayBuffer.
  rewrite (atob_rejects s c Hc); [done|rewrite H91; done..].
Qed.

(** [decrypt] returns the decrypted text or, when a step fails, its input:
    no failure leaves it as an exception. *)
Lemma decrypt_cases e (encryptedData : jsstring) sto :
  (fst (getKey e sto) = None /\ fst (decrypt e encryptedData sto) = encryptedData)
  \/ (exists key, fst (getKey e sto) = Some key
                  /\ decryption_fails key encryptedData
                  /\ fst (decrypt e encryptedData sto) = encryptedData)
  \/ (exists key combined decrypted,
         fst (getKey e sto) = Some key
         /\ base64ToArrayBuffer encryptedData = Some combined
         /\ subtle_decrypt key (take ivLength combined) (drop ivLength combined)
            = Some decrypted
         /\ fst (decrypt e encryptedData sto) = Utf8.decode decrypted).
Proof.
  unfold decrypt, decryption_fails. destruct (getKey e sto) as [[key|] sto']; [|left; done].
  right. destruct (base64ToArrayBuffer encryptedData) as [combined|] eqn:Hb.
  - destruct (subtle_decrypt _ _ _) as [decrypted|] eqn:Hd.
    + right. exists key, combined, decrypted. done.
    + left. exists key. done.
  - left. exists key. done.
Qed.

(** When no key is available, or authenticated decryption fails, [decrypt]
    returns its input. *)
Lemma decrypt_returns_input e (encryptedData : jsstring) sto :
  (forall key, fst (getKey e sto) = Some key -> decryption_fails key encryptedData) ->
  fst (decrypt e encryptedData sto) = encryptedData.
Proof.
  intros Hfail.
  destruct (decrypt_cases e encryptedData sto)
    as [[_ H]|[(key & _ & _ & H)|(key & combined & decrypted & Hk & Hb & Hd & _)]];
    [exact H..|].
  specialize (Hfail key Hk). unfold decryption_fails in Hfail. rewrite Hb in Hfail.
  congruence.
Qed.

(** C6. [decrypt] ends by returning a string on every input: a step that
    throws is caught.  When no key is available it returns the encoded
    input; when a key is available and authenticated decryption fails (the
    text is no base64, or AES-GCM rejects the bytes: corrupt or truncated
    data, a wrong key, a tag mismatch) it returns the encoded input
    unchanged; in every other case it returns the decoded plaintext. *)
Theorem decrypt_fails_soft e (encryptedData : jsstring) sto :
  (fst (getKey e sto) = None -> fst (decrypt e encryptedData sto) = encryptedData)
  /\ (forall key, fst (getKey e sto) = Some key -> decryption_fails key encryptedData ->
                  fst (decrypt e encryptedData sto) = encryptedData)
  /\ (fst (decrypt e encryptedData sto) = encryptedData
      \/ exists key combined decrypted,
          fst (getKey e sto) = Some key
          /\ base64ToArrayBuffer encryptedData = Some combined
          /\ subtle_decrypt key (take ivLength combined) (drop ivLength combined)
             = Some decrypted
          /\ fst (decrypt e encryptedData sto) = Utf8.decode decrypted).
Proof.
  split; [|split].
  - intros Hk. apply decrypt_returns_input. intros key Hk'. congruence.
  - intros key Hk Hfail. apply decrypt_returns_input. intros key' Hk'.
    assert (key' = key) as -> by congruence. exact Hfail.
  - destruct (decrypt_cases e encryptedData sto) as [[_ H]|[(key & _ & _ & H)|H]]; auto.
Qed.

End Encryption.

Section EncryptionLaws.
Context `{P : Platform} {L : PlatformLaws P}.
Implicit Types (e : Entropy) (sto : Storage) (key : CryptoKey).

(** A key that [getKey] returns is the key of the key slot. *)
Lemma getKey_slot e sto key sto' :
  getKey e sto = (Some key, sto') ->
  crypto_supported = true
  /\ exists c s, sto' !! keyName = Some (c :: s) /\ importKey (c :: s) = Some key.
Proof.
  unfold getKey. destruct crypto_supported; [|discriminate]. cbn [negb].
  intros H. split; [done|]. unfold getItem, setItem in H.
  assert (forall sto2, (if quota sto keyName (exportKey (generated_key e))
                        then Some (<[keyName := exportKey (generated_key e)]> sto) else None)
                       = Some sto2 ->
                       (Some (generated_key e), sto2) = (Some key, sto') ->
                       exists c s, sto' !! keyName = Some (c :: s)
                                   /\ importKey (c :: s) = Some key) as Hgen.
  { intros sto2 Hset [= Hkey Hsto]. rewrite Hkey in Hset. subst sto2.
    destruct (quota sto keyName (exportKey key)); [|discriminate Hset]. injection Hset as <-.
    destruct (exportKey key) as [|c s] eqn:Hex; [now apply exportKey_nonempty in Hex|].
    exists c, s. rewrite lookup_insert_eq. split; [done|].
    rewrite <- Hex. apply importKey_exportKey. }
  destruct (sto !! keyName) as [[|c s]|] eqn:Hslot.
  - destruct (if quota _ _ _ then _ else _) eqn:Hset; [|discriminate H]. eauto.
  - injection H as Hk <-. eauto.
  - destruct (if quota _ _ _ then _ else _) eqn:Hset; [|discriminate H]. eauto.
Qed.

(** [getKey] reads a filled key slot and leaves the storage as it is. *)
Lemma getKey_reads e sto c s :
  crypto_supported = true -> sto !! keyName = Some (c :: s) ->
  getKey e sto = (importKey (c :: s), sto).
Proof. intros Hs Hslot. unfold getKey, getItem. now rewrite Hs, Hslot. Qed.

(** Once a key is returned, every later call returns it. *)
Lemma getKey_stable e e' sto key sto' :
  getKey e sto = (Some key, sto') -> getKey e' sto' = (Some key, sto').
Proof.
  intros (Hs & c & s & Hslot & Himp)%getKey_slot.
  now rewrite (getKey_reads e' sto' c s Hs Hslot), Himp.
Qed.

(** [encrypt] when a key is available: the nonce and the sealed bytes are
    encoded when one call can be given them, and the text is returned as it
    is when the spread throws. *)
Lemma encrypt_with_key e (data : jsstring) sto key sto' :
  getKey e sto = (Some key, sto') ->
  exists sealed,
    subtle_encrypt key (generateIV e) (Utf8.encode data) = Some sealed
    /\ ((N.of_nat (length (generateIV e ++ sealed)) <= max_arguments)%N ->
        arrayBufferToBase64 (generateIV e ++ sealed) = Some (fst (encrypt e data sto)))
    /\ ((max_arguments < N.of_nat (length (generateIV e ++ sealed)))%N ->
        fst (encrypt e data sto) = data)
    /\ snd (encrypt e data sto) = sto'.
Proof.
  intros Hk. unfold encrypt. rewrite Hk. cbn zeta.
  destruct (encrypt_succeeds key (generateIV e) (Utf8.encode data) (generateIV_length e))
    as [sealed Hseal].
  exists sealed. rewrite Hseal. split; [done|]. split; [|split].
  - intros Hfits. now rewrite (arrayBufferToBase64_Some _ Hfits).
  - intros Hover. now rewrite (arrayBufferToBase64_None _ Hover).
  - now destruct (arrayBufferToBase64 _).
Qed.

(** [decrypt] on what [encrypt] produced with the same key. *)
Lemma decrypt_sealed e (data : jsstring) iv sealed base64 sto key sto' :
  getKey e sto = (Some key, sto') ->
  length iv = ivLength ->
  subtle_encrypt key iv (Utf8.encode data) = Some sealed ->
  arrayBufferToBase64 (iv ++ sealed) = Some base64 ->
  decrypt e base64 sto = (Utf8.decode (Utf8.encode data), sto').
Proof.
  intros Hk Hlen Hseal H64. unfold decrypt. rewrite Hk.
  rewrite (base64ToArrayBuffer_arrayBufferToBase64 _ _ H64). cbn zeta.
  rewrite take_app_length' by (now symmetry). rewrite drop_app_length' by (now symmetry).
  now rewrite (decrypt_encrypt _ _ _ _ Hseal).
Qed.

(** With a key, and a ciphertext that one call can be given, [decrypt]
    after [encrypt] is [TextDecoder] after [TextEncoder], whatever the
    text. *)
Lemma decrypt_encrypt_text e e' (data : jsstring) sto key sealed :
  fst (getKey e sto) = Some key ->
  subtle_encrypt key (generateIV e) (Utf8.encode data) = Some sealed ->
  (N.of_nat (length (generateIV e ++ sealed)) <= max_arguments)%N ->
  fst (decrypt e' (fst (encrypt e data sto)) (snd (encrypt e data sto)))
  = Utf8.decode (Utf8.encode data).
Proof.
  intros Hk Hsealed Hfits. destruct (getKey e sto) as [k sto'] eqn:Hget. cbn in Hk. subst k.
  destruct (encrypt_with_key e data sto key sto' Hget) as (sealed' & Hseal & H64 & _ & ->).
  assert (sealed' = sealed) as -> by congruence.
  now rewrite (decrypt_sealed e' data _ sealed _ sto' key sto'
                 (getKey_stable _ _ _ _ _ Hget) (generateIV_length e) Hseal (H64 Hfits)).
Qed.

(** With a key, and a ciphertext too long for one call, [encrypt] returns
    the text as it is, and [decrypt] gives it back unless the text is
    itself one that decrypts. *)
Lemma encrypt_beyond_the_limit e e' (data : jsstring) sto key sealed :
  fst (getKey e sto) = Some key ->
  subtle_encrypt key (generateIV e) (Utf8.encode data) = Some sealed ->
  (max_arguments < N.of_nat (length (generateIV e ++ sealed)))%N ->
  fst (encrypt e data sto) = data
  /\ (decryption_fails key data ->
      fst (decrypt e' (fst (encrypt e data sto)) (snd (encrypt e data sto))) = data).
Proof.
  intros Hk Hsealed Hover. destruct (getKey e sto) as [k sto'] eqn:Hget. cbn in Hk. subst k.
  destruct (encrypt_with_key e data sto key sto' Hget) as (sealed' & Hseal & _ & Hplain & ->).
  assert (sealed' = sealed) as -> by congruence.
  rewrite (Hplain Hover). split; [done|]. intros Hfail.
  apply decrypt_returns_input. intros key' Hk'.
  rewrite (getKey_stable _ e' _ _ _ Hget) in Hk'. cbn in Hk'. congruence.
Qed.

(** C8 (amended). For every plaintext that is well-formed UTF-16, does not
    start with U+FEFF and whose nonce and ciphertext are together no more
    bytes than one call takes arguments, two runs of encrypt on it with a
    key available and two different nonces produce two distinct texts, and
    decrypt maps each of them back to the plaintext. *)
Theorem encrypt_twice e1 e2 e' e'' (data : jsstring) sto key sealed1 sealed2 :
  Utf8.utf8_safe data = true ->
  fst (getKey e1 sto) = Some key ->
  generateIV e1 <> generateIV e2 ->
  subtle_encrypt key (generateIV e1) (Utf8.encode data) = Some sealed1 ->
  subtle_encrypt key (generateIV e2) (Utf8.encode data) = Some sealed2 ->
  (N.of_nat (length (generateIV e1 ++ sealed1)) <= max_arguments)%N ->
  (N.of_nat (length (generateIV e2 ++ sealed2)) <= max_arguments)%N ->
  let first := encrypt e1 data sto in
  let second := encrypt e2 data (snd first) in
  fst first <> fst second
  /\ fst (decrypt e' (fst first) (snd second)) = data
  /\ fst (decrypt e'' (fst second) (snd second)) = data.
Proof.
  intros Hsafe Hk Hiv Hsealed1 Hsealed2 Hfits1 Hfits2 first second.
  destruct (getKey e1 sto) as [k sto'] eqn:Hget. cbn in Hk. subst k.
  destruct (encrypt_with_key e1 data sto key sto' Hget)
    as (sealed1' & Hseal1 & H1 & _ & Hsto1).
  pose proof (getKey_stable e1 e2 _ _ _ Hget) as Hget2.
  destruct (encrypt_with_key e2 data sto' key sto' Hget2)
    as (sealed2' & Hseal2 & H2 & _ & Hsto2).
  assert (sealed1' = sealed1) as -> by congruence.
  assert (sealed2' = sealed2) as -> by congruence.
  specialize (H1 Hfits1). specialize (H2 Hfits2).
  fold first in H1, Hsto1. subst second. rewrite Hsto1 in *.
  set (second := encrypt e2 data sto') in *.
  rewrite Hsto2. split; [|split].
  - intros Heq. rewrite Heq in H1.
    apply base64ToArrayBuffer_arrayBufferToBase64 in H1, H2.
    assert (generateIV e1 ++ sealed1 = generateIV e2 ++ sealed2) as Hsame by congruence.
    apply Hiv. apply (f_equal (take ivLength)) in Hsame.
    now rewrite !take_app_length' in Hsame by (symmetry; apply generateIV_length).
  - rewrite (decrypt_sealed e' data _ sealed1 _ sto' key sto'
               (getKey_stable _ _ _ _ _ Hget) (generateIV_length e1) Hseal1 H1).
    now apply decode_encode.
  - rewrite (decrypt_sealed e'' data _ sealed2 _ sto' key sto'
               (getKey_stable _ _ _ _ _ Hget) (generateIV_length e2) Hseal2 H2).
    now apply decode_encode.
Qed.

(** Two runs that draw the same nonce produce the same text. *)
Lemma encrypt_same_nonce e1 e2 (data : jsstring) sto key :
  fst (getKey e1 sto) = Some key ->
  generateIV e1 = generateIV e2 ->
  fst (encrypt e2 data (snd (encrypt e1 data sto))) = fst (encrypt e1 data sto).
Proof.
  intros Hk Hiv. destruct (getKey e1 sto) as [k sto'] eqn:Hget. cbn in Hk. subst k.
  assert (snd (encrypt e1 data sto) = sto') as ->.
  { now destruct (encrypt_with_key e1 data sto key sto' Hget) as (_ & _ & _ & _ & ->). }
  pose proof (getKey_stable e1 e2 _ _ _ Hget) as Hget2.
  unfold encrypt. rewrite Hget, Hget2. cbn zeta. now rewrite Hiv.
Qed.

(** Two runs on a text whose ciphertexts are too long for one call both
    return the text: the two outputs are the same. *)
Lemma two_runs_beyond_the_limit e1 e2 (data : jsstring) sto key sealed1 sealed2 :
  fst (getKey e1 sto) = Some key ->
  subtle_encrypt key (generateIV e1) (Utf8.encode data) = Some sealed1 ->
  subtle_encrypt key (generateIV e2) (Utf8.encode data) = Some sealed2 ->
  (max_arguments < N.of_nat (length (generateIV e1 ++ sealed1)))%N ->
  (max_arguments < N.of_nat (length (generateIV e2 ++ sealed2)))%N ->
  fst (encrypt e1 data sto) = data
  /\ fst (encrypt e2 data (snd (encrypt e1 data sto))) = data.
Proof.
  intros Hk Hsealed1 Hsealed2 Hover1 Hover2.
  destruct (getKey e1 sto) as [k sto'] eqn:Hget. cbn in Hk. subst k.
  destruct (encrypt_with_key e1 data sto key sto' Hget)
    as (sealed1' & Hseal1 & _ & H1 & Hsto1).
  pose proof (getKey_stable e1 e2 _ _ _ Hget) as Hget2.
  destruct (encrypt_with_key e2 data sto' key sto' Hget2)
    as (sealed2' & Hseal2 & _ & H2 & _).
  assert (sealed1' = sealed1) as -> by congruence.
  assert (sealed2' = sealed2) as -> by congruence.
  rewrite Hsto1. auto.
Qed.

End EncryptionLaws.

(** ** Persistence *)

Section Persistence.
Context `{P : Platform} {L : PlatformLaws P}.
Implicit Types (e : Entropy) (sto : Storage) (st : State) (c : Contact).

Lemma keyName_not_contacts : keyName <> js "contacts".
Proof. discriminate. Qed.

(** What [toJSON] writes is read back by [loadFromStorage]. *)
Lemma toJSON_plain c item : toJSON c = Return item -> plain_object item.
Proof.
  unfold toJSON. destruct (createdAt c); [|discriminate]. intros [= <-]. split.
  - cbn [map fst]. apply (bool_decide_unpack (NoDup _)). vm_compute. exact I.
  - repeat (constructor; [split; reflexivity|]). constructor.
Qed.

Lemma toJSON_valid c item : toJSON c = Return item -> valid_item item = true.
Proof.
  unfold toJSON. destruct (createdAt c); [|discriminate]. intros [= <-]. reflexivity.
Qed.

Lemma toJSON_load e k c item :
  toJSON c = Return item ->
  exists loaded,
    load_item e k item = Return loaded
    /\ name loaded = name c /\ phone loaded = phone c /\ address loaded = address c
    /\ category loaded = category c /\ (id c <> [] -> id loaded = id c).
Proof.
  unfold toJSON. destruct (createdAt c); [|discriminate]. intros [= <-].
  unfold load_item.
  change (get_prop _ (js "createdAt")) with (Some (JStr (toISOString ms))).
  assert (forall d, let loaded :=
            with_createdAt
              (Contact_new e k
                 {| o_id := Some (id c); o_name := name c; o_phone := phone c;
                    o_address := address c; o_category := category c |}) d in
            name loaded = name c /\ phone loaded = phone c /\ address loaded = address c
            /\ category loaded = category c /\ (id c <> [] -> id loaded = id c)) as Hfields.
  { intros d. cbn. repeat split. now destruct (id c). }
  destruct (toISOString ms) as [|c0 s0]; cbn [truthy Date_new]; eexists; (split; [reflexivity|]).
  - exact (Hfields (ValidDate (new_date e k))).
  - apply Hfields.
Qed.

(** The value of a property of an object of strings is a string. *)
Lemma plain_object_prop (item : JValue) (key : jsstring) (v : JValue) :
  plain_object item -> get_prop item key = Some v -> is_JStr v = true.
Proof.
  destruct item as [| | | | |fields]; try done. intros [_ Hall]. cbn.
  induction Hall as [|[k0 v0] rest [_ Hv] _ IH]; cbn; [done|].
  destruct (bool_decide (k0 = key)); [now intros [= <-]|exact IH].
Qed.

(** [new Date] of a text does not throw: an entry whose values are
    strings is loaded. *)
Lemma load_item_returns e k (item : JValue) :
  plain_object item -> exists c, load_item e k item = Return c.
Proof.
  intros Hplain. unfold load_item.
  destruct (get_prop item (js "createdAt")) as [v|] eqn:Hv; [|eauto].
  apply (plain_object_prop _ _ _ Hplain) in Hv.
  destruct v; try discriminate Hv. cbn [Date_new]. destruct (truthy _); eauto.
Qed.

Lemma load_items_returns e k (items : list JValue) :
  Forall plain_object items -> exists cs, load_items e k items = Return cs.
Proof.
  intros Hplain. revert k. induction Hplain as [|item rest Hitem _ IH]; intros k; cbn.
  - eauto.
  - destruct (load_item_returns e k item Hitem) as [c ->].
    destruct (IH (S k)) as [cs ->]. eauto.
Qed.

(** The contacts of a load that completes: one for each entry, in order. *)
Lemma load_items_lookup e k (items : list JValue) (cs : list Contact) :
  load_items e k items = Return cs ->
  length cs = length items
  /\ forall i item, items !! i = Some item ->
                    exists c, cs !! i = Some c /\ load_item e (k + i) item = Return c.
Proof.
  revert k cs. induction items as [|item rest IH]; intros k cs; cbn.
  - intros [= <-]. split; [done|]. intros i item H. done.
  - destruct (load_item e k item) as [c|] eqn:Hc; [|discriminate].
    destruct (load_items e (S k) rest) as [cs'|] eqn:Hrest; [|discriminate].
    intros [= <-]. destruct (IH _ _ Hrest) as [Hlen Hk]. split; [cbn; lia|].
    intros [|i] item'; cbn.
    + intros [= <-]. exists c. now rewrite Nat.add_0_r.
    + intros Hi. destruct (Hk i item' Hi) as (c' & Hc' & Hload). exists c'.
      split; [exact Hc'|]. now rewrite <- Nat.add_succ_comm.
Qed.

(** A load that reads an array of objects of strings builds the contacts
    of its valid entries. *)
Lemma loadFromStorage_array e st (items : list JValue) :
  Forall plain_object items ->
  fst (readAndDecrypt e (js "contacts") (localStorage st)) = Some (JArr items) ->
  load_items e 0 (List.filter valid_item items) = Return (contacts (loadFromStorage e st)).
Proof.
  intros Hplain Hread. unfold loadFromStorage.
  destruct (readAndDecrypt e (js "contacts") (localStorage st)) as [data sto1].
  cbn [fst] in Hread. subst data. cbn [truthy].
  destruct (load_items_returns e 0 (List.filter valid_item items)) as [cs ->]; [|done].
  rewrite Forall_forall in *. intros item Hin. apply Hplain.
  apply list_elem_of_In, List.filter_In in Hin. apply list_elem_of_In. tauto.
Qed.

Lemma toJSON_all_items cs items :
  toJSON_all cs = Return items ->
  length items = length cs
  /\ forall k c, cs !! k = Some c -> exists item, items !! k = Some item /\ toJSON c = Return item.
Proof.
  revert items. induction cs as [|c cs IH]; intros items; cbn.
  - intros [= <-]. split; [done|]. intros k c H. done.
  - destruct (toJSON c) as [item|] eqn:Hc; [|discriminate].
    destruct (toJSON_all cs) as [rest|]; [|discriminate]. intros [= <-].
    destruct (IH rest eq_refl) as [Hlen Hk]. split; [cbn; lia|].
    intros [|k] c'; cbn; [intros [= <-]; eauto|apply Hk].
Qed.

Lemma toJSON_all_plain cs items :
  toJSON_all cs = Return items ->
  Forall plain_object items /\ Forall (fun item => valid_item item = true) items.
Proof.
  revert items. induction cs as [|c cs IH]; intros items; cbn.
  - intros [= <-]. split; constructor.
  - destruct (toJSON c) as [item|] eqn:Hc; [|discriminate].
    destruct (toJSON_all cs) as [rest|]; [|discriminate]. intros [= <-].
    destruct (IH rest eq_refl) as [H1 H2].
    split; constructor; eauto using toJSON_plain, toJSON_valid.
Qed.

(** A successful [saveToStorage] has written the encrypted JSON text of the
    collection under [contacts]. *)
Lemma saveToStorage_written e st st2 :
  saveToStorage e st = (true, st2) ->
  exists items,
    toJSON_all (contacts st) = Return items
    /\ localStorage st2
       = <[js "contacts" := fst (encrypt e (JSON_stringify (JArr items)) (localStorage st))]>
           (snd (encrypt e (JSON_stringify (JArr items)) (localStorage st))).
Proof.
  unfold saveToStorage. destruct (toJSON_all (contacts st)) as [items|]; [|discriminate].
  unfold encryptAndStore, setItem. cbn zeta.
  destruct (encrypt e _ _) as [encrypted sto1] eqn:Henc. cbn [fst snd].
  destruct (quota _ _ _); [|discriminate].
  destruct (notifyListeners _); [|discriminate].
  intros [= <-]. exists items. now rewrite Henc.
Qed.

(** The JSON text of an array is no base64. *)
Lemma array_text_bracket (items : list JValue) :
  Forall plain_object items ->
  exists ch : char16, ch ∈ JSON_stringify (JArr items) /\ charCode ch = 91.
Proof. intros H. eapply parse_array. now apply parse_stringify. Qed.

(** Whatever the key slot holds later, [decrypt] gives back the JSON text
    that [encrypt] was given. *)
Lemma decrypt_stored_text e e' (items : list JValue) sto sto2 :
  Forall plain_object items ->
  let text := JSON_stringify (JArr items) in
  sto2 !! keyName = snd (encrypt e text sto) !! keyName ->
  fst (encrypt e text sto) <> []
  /\ fst (decrypt e' (fst (encrypt e text sto)) sto2) = text.
Proof.
  intros Hplain text Hslot.
  destruct (array_text_bracket items Hplain) as (ch & Hc & H91). fold text in Hc.
  assert (fst (encrypt e text sto) = text ->
          fst (encrypt e text sto) <> []
          /\ fst (decrypt e' (fst (encrypt e text sto)) sto2) = text) as Hkept.
  { intros Henc. rewrite Henc. split.
    - intros Hnil. rewrite Hnil in Hc. inversion Hc.
    - unfold decrypt. destruct (getKey e' sto2) as [[key|] sto'']; [|done].
      now rewrite (base64ToArrayBuffer_bracket text ch Hc H91). }
  destruct (getKey e sto) as [[key|] sto'] eqn:Hget.
  - destruct (encrypt_with_key e text sto key sto' Hget)
      as (sealed & Hseal & H64 & Hover & Hsto).
    destruct (N.le_gt_cases (N.of_nat (length (generateIV e ++ sealed))) max_arguments)
      as [Hfits|Hlong]; [|apply Hkept, Hover, Hlong].
    specialize (H64 Hfits). rewrite Hsto in Hslot.
    destruct (getKey_slot _ _ _ _ Hget) as (Hsup & c0 & s0 & Hk & Himp).
    rewrite <- Hslot in Hk.
    pose proof (getKey_reads e' sto2 c0 s0 Hsup Hk) as Hget'. rewrite Himp in Hget'.
    split.
    + intros Hnil. rewrite Hnil in H64.
      apply base64ToArrayBuffer_arrayBufferToBase64 in H64.
      assert (base64ToArrayBuffer [] = Some []) as Hempty by reflexivity.
      assert (generateIV e ++ sealed = []) as Happ by congruence.
      apply (f_equal length) in Happ.
      rewrite length_app, generateIV_length in Happ. discriminate Happ.
    + rewrite (decrypt_sealed e' text _ sealed _ sto2 key sto2 Hget'
                 (generateIV_length e) Hseal H64).
      cbn [fst]. apply decode_encode. now apply stringify_well_formed.
  - apply Hkept. unfold encrypt. now rewrite Hget.
Qed.

(** C4 (amended). For every string that is well-formed UTF-16, does not
    start with U+FEFF and whose nonce and AES-GCM ciphertext are together no
    more bytes than one call takes arguments, decrypt(encrypt(s)) = s when
    a key is available: the encrypted text is the base64 encoding of the
    nonce followed by the ciphertext.  For every string whatever, when no
    key is available to either call, both functions return their input
    unchanged.  For every serialized contact collection (the JSON text of
    an array of objects of strings) decrypt(encrypt(s)) = s, with or
    without a key and whatever its length. *)
Theorem decrypt_encrypt_roundtrip e e' (data : jsstring) sto :
  (forall key sealed,
      fst (getKey e sto) = Some key ->
      Utf8.utf8_safe data = true ->
      subtle_encrypt key (generateIV e) (Utf8.encode data) = Some sealed ->
      (N.of_nat (length (generateIV e ++ sealed)) <= max_arguments)%N ->
      arrayBufferToBase64 (generateIV e ++ sealed) = Some (fst (encrypt e data sto))
      /\ fst (decrypt e' (fst (encrypt e data sto)) (snd (encrypt e data sto))) = data)
  /\ (fst (getKey e sto) = None ->
      fst (getKey e' (snd (encrypt e data sto))) = None ->
      fst (encrypt e data sto) = data
      /\ fst (decrypt e' (fst (encrypt e data sto)) (snd (encrypt e data sto))) = data)
  /\ (forall items,
         Forall plain_object items ->
         data = JSON_stringify (JArr items) ->
         fst (decrypt e' (fst (encrypt e data sto)) (snd (encrypt e data sto))) = data).
Proof.
  split; [|split].
  - intros key sealed Hk Hsafe Hsealed Hfits.
    destruct (getKey e sto) as [k sto'] eqn:Hget. cbn in Hk. subst k.
    destruct (encrypt_with_key e data sto key sto' Hget) as (sealed' & Hseal & H64 & _ & ->).
    assert (sealed' = sealed) as -> by congruence.
    specialize (H64 Hfits). split; [exact H64|].
    rewrite (decrypt_sealed e' data _ sealed _ sto' key sto'
               (getKey_stable _ _ _ _ _ Hget) (generateIV_length e) Hseal H64).
    cbn [fst]. now apply decode_encode.
  - intros Hk Hk'. assert (encrypt e data sto = (data, snd (getKey e sto))) as Henc.
    { unfold encrypt. destruct (getKey e sto) as [[k|] sto']; [discriminate Hk|done]. }
    rewrite Henc in *. cbn [fst snd] in *. split; [done|].
    unfold decrypt. destruct (getKey e' _) as [[k|] sto'']; [discriminate Hk'|done].
  - intros items Hplain ->.
    now apply (decrypt_stored_text e e' items sto _ Hplain).
Qed.

(** After a successful save, a load reads every record of the collection
    back. *)
Lemma load_after_save e e' st st2 st3 :
  saveToStorage e st = (true, st2) ->
  localStorage st3 = localStorage st2 ->
  exists items,
    toJSON_all (contacts st) = Return items
    /\ load_items e' 0 items = Return (contacts (loadFromStorage e' st3)).
Proof.
  intros (items & Hitems & Hsto)%saveToStorage_written Hsame.
  exists items. split; [exact Hitems|].
  destruct (toJSON_all_plain _ _ Hitems) as [Hplain Hvalid].
  set (text := JSON_stringify (JArr items)) in *.
  destruct (decrypt_stored_text e e' items (localStorage st) (localStorage st3) Hplain)
    as [Hne Hdec].
  { rewrite Hsame, Hsto. apply lookup_insert_ne. intros H. now apply keyName_not_contacts. }
  fold text in Hne, Hdec.
  assert (List.filter valid_item items = items) as Hall.
  { apply forallb_filter_id, forallb_forall. intros item Hin.
    rewrite Forall_forall in Hvalid. apply Hvalid. now apply list_elem_of_In. }
  rewrite <- Hall at 1. apply loadFromStorage_array; [exact Hplain|].
  unfold readAndDecrypt, getItem.
  rewrite Hsame, Hsto, lookup_insert_eq, <- Hsto, <- Hsame.
  destruct (fst (encrypt e text (localStorage st))) as [|c0 s0] eqn:Henc; [done|].
  destruct (decrypt e' (c0 :: s0) (localStorage st3)) as [decrypted sto'] eqn:Hd.
  cbn [fst] in Hdec. subst decrypted. unfold text. cbn [fst].
  apply parse_stringify, Hplain.
Qed.

(** C5. After a successful addContact, a load from the storage it wrote
    (by the same manager or by a new one) ends with a collection of the
    same length whose last record has the name, phone, address and category
    of the request and the id that was assigned to the added contact. *)
Theorem add_then_load e e' (contactData : ContactOptions) st r st2 st3 :
  addContact e contactData st = (r, st2) ->
  success r = true ->
  localStorage st3 = localStorage st2 ->
  exists added loaded,
    contact r = Some added
    /\ last (contacts (loadFromStorage e' st3)) = Some loaded
    /\ length (contacts (loadFromStorage e' st3)) = length (contacts st2)
    /\ id loaded = id added
    /\ name loaded = o_name contactData
    /\ phone loaded = o_phone contactData
    /\ address loaded = o_address contactData
    /\ category loaded = o_category contactData.
Proof.
  intros Hadd Hok Hsame.
  destruct (addContact_cases e contactData st)
    as [[_ H]|[_ (st2' & Hc & [[Hsave H]|[_ H]])]];
    rewrite H in Hadd; injection Hadd as <- <-; try discriminate Hok.
  set (added := Contact_new e 0 contactData) in *.
  destruct (load_after_save e e' _ st2' st3 Hsave Hsame) as (items & Hitems & Hload).
  cbn [contacts with_contacts] in Hitems.
  destruct (toJSON_all_items _ _ Hitems) as [Hlen Hk].
  destruct (Hk (length (contacts st)) added) as (item & Hitem & Hjson).
  { unfold push. rewrite lookup_app_r by lia. now rewrite Nat.sub_diag. }
  destruct (load_items_lookup _ _ _ _ Hload) as [Hlength Hentries].
  destruct (Hentries _ _ Hitem) as (loaded & Hlast & Hloaded).
  destruct (toJSON_load e' (0 + length (contacts st)) added item Hjson)
    as (loaded' & Hloaded' & Hn & Hp & Ha & Hcat & Hid).
  assert (loaded' = loaded) as -> by congruence.
  exists added, loaded.
  unfold push in Hlen. rewrite length_app in Hlen. cbn [length] in Hlen.
  repeat split; try done.
  - rewrite last_lookup, Hlength, Hlen.
    replace (Init.Nat.pred (length (contacts st) + 1)) with (length (contacts st)) by lia.
    exact Hlast.
  - rewrite Hlength, Hlen, Hc. unfold push. now rewrite length_app.
  - apply Hid. apply Contact_new_id.
Qed.

(** What a load does when the stored text is no encryption of an array:
    a text that [JSON.parse] rejects leaves the collection as it is, and a
    text that denotes a value other than an array empties it unless the
    value is falsy. *)
Lemma load_corrupt e st (stored : jsstring) :
  localStorage st !! js "contacts" = Some stored ->
  Forall (fun ch => charCode ch <> 91) stored ->
  (forall key, fst (getKey e (localStorage st)) = Some key -> decryption_fails key stored) ->
  (contacts (loadFromStorage e st) = [] \/ contacts (loadFromStorage e st) = contacts st)
  /\ (JSON_parse stored = None -> contacts (loadFromStorage e st) = contacts st).
Proof.
  intros Hstored Hno Hfail. unfold loadFromStorage, readAndDecrypt, getItem.
  rewrite Hstored. destruct stored as [|c0 s0]; [split; [right|]; done|].
  assert (fst (decrypt e (c0 :: s0) (localStorage st)) = c0 :: s0) as Hdec
    by (now apply decrypt_returns_input).
  destruct (decrypt e (c0 :: s0) (localStorage st)) as [decrypted sto']. cbn [fst] in Hdec.
  subst decrypted.
  destruct (JSON_parse (c0 :: s0)) as [v|] eqn:Hparse; [|split; [right|]; done].
  split; [|discriminate].
  destruct (truthy v); [|right; done].
  destruct v as [| | | |items|]; try (left; done).
  exfalso. destruct (parse_array _ _ Hparse) as (ch & Hin & H91).
  rewrite Forall_forall in Hno. now apply (Hno ch).
Qed.

(** C7 (amended). When the text stored under [contacts] has no opening
    bracket (a truncated or altered ciphertext is a text over the base64
    alphabet) and authenticated decryption of it fails under the key of
    the key slot, a load ends without an exception.  The load of a new
    manager ends with an empty collection.  The load of a manager that
    holds contacts ends with the empty collection or with the collection
    it held, and with the collection it held when the text is no JSON. *)
Theorem corrupt_storage_loads_empty e sto (stored : jsstring) :
  sto !! js "contacts" = Some stored ->
  Forall (fun ch => charCode ch <> 91) stored ->
  (forall key, fst (getKey e sto) = Some key -> decryption_fails key stored) ->
  contacts (ContactManager_new e sto) = []
  /\ (forall st, localStorage st = sto -> contacts st = [] ->
                 contacts (loadFromStorage e st) = [])
  /\ (forall st, localStorage st = sto ->
                 (contacts (loadFromStorage e st) = []
                  \/ contacts (loadFromStorage e st) = contacts st)
                 /\ (JSON_parse stored = None ->
                     contacts (loadFromStorage e st) = contacts st)).
Proof.
  intros Hstored Hno Hfail.
  assert (forall st, localStorage st = sto ->
                     (contacts (loadFromStorage e st) = []
                      \/ contacts (loadFromStorage e st) = contacts st)
                     /\ (JSON_parse stored = None ->
                         contacts (loadFromStorage e st) = contacts st)) as Hload.
  { intros st Hsto. apply load_corrupt; rewrite ?Hsto; done. }
  assert (forall st, localStorage st = sto -> contacts st = [] ->
                     contacts (loadFromStorage e st) = []) as Hempty.
  { intros st Hsto Hnil. destruct (Hload st Hsto) as [[H|H] _]; [exact H|].
    now rewrite H. }
  split; [|split; [exact Hempty|exact Hload]].
  unfold ContactManager_new. now apply Hempty.
Qed.

End Persistence.

(** ** The reference host keeps the contract *)

Lemma to_N_byte_of_N_mod (n : N) : Byte.to_N (byte_of_N n) = n mod 256.
Proof.
  unfold byte_of_N. destruct (Byte.of_N (n mod 256)) as [b|] eqn:Hb.
  - now apply Byte.to_of_N.
  - apply Byte.of_N_None_iff in Hb. lia.
Qed.

Lemma char_of_code (c : char16) (n : N) : charCode c = n -> c = fromCharCode n.
Proof. intros <-. symmetry. apply fromCharCode_charCode. Qed.

(** *** The stand-in cipher *)

Lemma ref_open_seal (key iv data sealed : Uint8Array) :
  Ref.seal key iv data = Some sealed -> Ref.open key iv sealed = Some data.
Proof.
  unfold Ref.seal. intros [= <-]. unfold Ref.open.
  set (shift := Ref.shift_of key iv).
  assert (shift < 256) as Hshift by (unfold shift, Ref.shift_of; lia).
  set (body := map _ data).
  assert (length (Ref.tag_of key iv data) = 16%nat) as Htag by reflexivity.
  rewrite length_app, Htag.
  rewrite bool_decide_eq_false_2 by lia.
  replace (length body + 16 - 16)%nat with (length body) by lia.
  rewrite take_app_length, drop_app_length.
  assert (map (fun b => byte_of_N (Byte.to_N b + 256 - shift)) body = data) as ->.
  { unfold body. rewrite map_map. rewrite <- (map_id data) at 2. apply map_ext. intros b.
    rewrite to_N_byte_of_N_mod. rewrite <- (byte_of_to_N b) at 2. unfold byte_of_N.
    pose proof (Byte.to_N_bounded b).
    replace (((Byte.to_N b + shift) mod 256 + 256 - shift) mod 256)
      with (Byte.to_N b mod 256) by lia.
    reflexivity. }
  now rewrite bool_decide_eq_true_2.
Qed.

Lemma ref_import_export (key : Uint8Array) : Ref.import_key (Ref.export_key key) = Some key.
Proof.
  unfold Ref.import_key, Ref.export_key. rewrite charCode_fromCharCode by lia.
  cbn. f_equal. rewrite map_map. rewrite <- (map_id key) at 2. apply map_ext. intros b.
  rewrite charCode_fromCharCode by (pose proof (Byte.to_N_bounded b); lia).
  apply byte_of_to_N.
Qed.

(** *** The JSON codec *)

Lemma hex_value_digit (d : N) : d < 16 -> Ref.hex_value (Ref.hex_digit d) = Some d.
Proof.
  intros Hd. unfold Ref.hex_value, Ref.hex_digit.
  destruct (N.ltb_spec d 10).
  - destruct (N.leb_spec 48 (48 + d)), (N.leb_spec (48 + d) 57); try lia.
    cbn. f_equal. lia.
  - destruct (N.leb_spec 48 (87 + d)), (N.leb_spec (87 + d) 57); try lia.
    cbn. destruct (N.leb_spec 97 (87 + d)), (N.leb_spec (87 + d) 102); try lia.
    cbn. f_equal. lia.
Qed.

Lemma hex_digit_bounded (d : N) : d < 16 -> Ref.hex_digit d < 128.
Proof. intros Hd. unfold Ref.hex_digit. destruct (N.ltb_spec d 10); lia. Qed.

Lemma code_of_hex (d : N) :
  d < 16 -> Ref.hex_value (charCode (fromCharCode (Ref.hex_digit d))) = Some d.
Proof.
  intros Hd. rewrite charCode_fromCharCode by (pose proof (hex_digit_bounded d Hd); lia).
  now apply hex_value_digit.
Qed.

Lemma hex_digits_value (n : N) :
  n / 4096 * 4096 + n / 256 mod 16 * 256 + n / 16 mod 16 * 16 + n mod 16 = n.
Proof.
  assert (n / 256 = n / 16 / 16) as H1 by (now rewrite N.Div0.div_div).
  assert (n / 4096 = n / 256 / 16) as H2 by (now rewrite N.Div0.div_div).
  pose proof (N.div_mod n 16). pose proof (N.div_mod (n / 16) 16).
  pose proof (N.div_mod (n / 256) 16).
  rewrite H2. rewrite H1 in *. lia.
Qed.

(** The characters of a string are read back from their escapes. *)
Lemma parse_chars_escape (s rest : jsstring) :
  Ref.parse_chars (flat_map Ref.escape s ++ fromCharCode 34 :: rest) = Some (s, rest).
Proof.
  induction s as [|c s IH]; cbn [flat_map app].
  - cbn [Ref.parse_chars]. rewrite charCode_fromCharCode by lia. reflexivity.
  - unfold Ref.escape at 1. cbn zeta.
    pose proof (charCode_bounded c) as Hc.
    destruct (N.eqb_spec (charCode c) 34) as [H34|H34].
    { cbn [units map app Ref.parse_chars].
      rewrite (charCode_fromCharCode 92), (charCode_fromCharCode 34) by lia.
      cbn. rewrite IH. now rewrite (char_of_code c 34 H34). }
    destruct (N.eqb_spec (charCode c) 92) as [H92|H92].
    { cbn [units map app Ref.parse_chars].
      rewrite (charCode_fromCharCode 92) by lia.
      cbn. rewrite IH. now rewrite (char_of_code c 92 H92). }
    destruct ((charCode c <? 32) || Ref.is_surrogate (charCode c)) eqn:Hesc.
    { cbn [units map app Ref.parse_chars].
      rewrite (charCode_fromCharCode 92), (charCode_fromCharCode 117) by lia.
      change (92 =? 34) with false. change (92 =? 92) with true.
      change ((117 =? 34) || (117 =? 92)) with false. change (117 =? 117) with true.
      cbn match. rewrite !code_of_hex by lia. rewrite IH.
      do 2 f_equal. f_equal. rewrite hex_digits_value. apply fromCharCode_charCode. }
    apply orb_false_iff in Hesc as [H32 _].
    cbn [app Ref.parse_chars].
    destruct (N.eqb_spec (charCode c) 34); [done|].
    destruct (N.eqb_spec (charCode c) 92); [done|].
    now rewrite H32, IH.
Qed.

Lemma quote_cons (s rest : jsstring) :
  Ref.quote s ++ rest = fromCharCode 34 :: flat_map Ref.escape s ++ fromCharCode 34 :: rest.
Proof. unfold Ref.quote. cbn [units map]. now rewrite <- !app_assoc. Qed.

(** One member, followed by [after]. *)
Lemma parse_member (key val after : jsstring) :
  Ref.member_text (key, JStr val) ++ after
  = fromCharCode 34
    :: flat_map Ref.escape key
    ++ fromCharCode 34 :: fromCharCode 58 :: fromCharCode 34
    :: flat_map Ref.escape val ++ fromCharCode 34 :: after.
Proof.
  unfold Ref.member_text. cbn [fst snd Ref.stringify units map].
  rewrite <- !app_assoc. rewrite quote_cons. cbn [app]. now rewrite quote_cons.
Qed.

Lemma parse_fields_members (fields : list (jsstring * JValue)) :
  forall (fuel : nat) (rest : jsstring),
    fields <> [] ->
    Forall (fun kv => is_JStr (snd kv) = true) fields ->
    (length fields <= fuel)%nat ->
    Ref.parse_fields fuel (Ref.join_comma (map Ref.member_text fields) ++ fromCharCode 125 :: rest)
    = Some (fields, rest).
Proof.
  induction fields as [|[key v] fields IH]; intros fuel rest Hne Hstr Hfuel; [done|].
  inversion_clear Hstr as [|? ? Hv Hrest]. destruct v as [| | |val| |]; try discriminate Hv.
  destruct fuel as [|fuel]; [cbn in Hfuel; lia|]. cbn [length] in Hfuel.
  destruct fields as [|kv' fields].
  - cbn [map Ref.join_comma]. rewrite parse_member. cbn [Ref.parse_fields].
    rewrite (charCode_fromCharCode 34) by lia. change (34 =? 34) with true. cbn match.
    rewrite parse_chars_escape.
    rewrite (charCode_fromCharCode 58), (charCode_fromCharCode 34) by lia.
    change ((58 =? 58) && (34 =? 34)) with true. cbn match.
    rewrite parse_chars_escape. rewrite (charCode_fromCharCode 125) by lia. reflexivity.
  - cbn [map Ref.join_comma]. cbn [map] in IH.
    rewrite <- !app_assoc. rewrite parse_member. cbn [Ref.parse_fields].
    rewrite (charCode_fromCharCode 34) by lia. change (34 =? 34) with true. cbn match.
    rewrite parse_chars_escape.
    rewrite (charCode_fromCharCode 58), (charCode_fromCharCode 34) by lia.
    change ((58 =? 58) && (34 =? 34)) with true. cbn match.
    rewrite parse_chars_escape. cbn [units map app].
    rewrite (charCode_fromCharCode 44) by lia.
    change (44 =? 125) with false. change (44 =? 44) with true. cbn match.
    rewrite IH; [done|done|exact Hrest|cbn [length] in Hfuel |- *; lia].
Qed.

Lemma stringify_object (fields : list (jsstring * JValue)) (rest : jsstring) :
  Ref.stringify (JObj fields) ++ rest
  = fromCharCode 123 :: Ref.join_comma (map Ref.member_text fields) ++ fromCharCode 125 :: rest.
Proof. cbn [Ref.stringify units map]. now rewrite <- !app_assoc. Qed.

Lemma member_text_head (kv : jsstring * JValue) :
  exists text, Ref.member_text kv = fromCharCode 34 :: text.
Proof.
  unfold Ref.member_text, Ref.quote. cbn [units map]. rewrite <- !app_assoc. cbn [app]. eauto.
Qed.

Lemma join_comma_head (x : jsstring) (l : list jsstring) (c : char16) (text : jsstring) :
  x = c :: text -> exists text', Ref.join_comma (x :: l) = c :: text'.
Proof. intros ->. destruct l; cbn [Ref.join_comma app]; eauto. Qed.

(** One element, followed by [after]. *)
Lemma parse_items_object (fields : list (jsstring * JValue)) (fuel : nat) (after : jsstring) :
  Forall (fun kv => is_JStr (snd kv) = true) fields ->
  (length fields <= fuel)%nat ->
  exists b c text,
    Ref.stringify (JObj fields) ++ after = b :: c :: text
    /\ charCode b = 123
    /\ (if charCode c =? 125 then Some ([], text) else Ref.parse_fields fuel (c :: text))
       = Some (fields, after).
Proof.
  intros Hstr Hfuel. rewrite stringify_object. destruct fields as [|kv fields].
  - exists (fromCharCode 123), (fromCharCode 125), after. cbn [map Ref.join_comma app].
    rewrite (charCode_fromCharCode 123), (charCode_fromCharCode 125) by lia. done.
  - destruct (member_text_head kv) as [t Ht].
    destruct (join_comma_head _ (map Ref.member_text fields) _ _ Ht) as [t' Ht'].
    pose proof (parse_fields_members (kv :: fields) fuel after) as Hparse.
    cbn [map] in Hparse |- *. rewrite Ht' in Hparse |- *. cbn [app] in Hparse |- *.
    exists (fromCharCode 123), (fromCharCode 34), (t' ++ fromCharCode 125 :: after).
    rewrite (charCode_fromCharCode 123), (charCode_fromCharCode 34) by lia.
    change (34 =? 125) with false. cbn match. split; [done|]. split; [done|].
    now apply Hparse.
Qed.

Lemma parse_items_elements (items : list JValue) :
  forall (fuel : nat) (rest : jsstring),
    items <> [] ->
    Forall Ref.object_of_strings items ->
    (Ref.members_count items <= fuel)%nat ->
    Ref.parse_items fuel (Ref.join_comma (map Ref.stringify items) ++ fromCharCode 93 :: rest)
    = Some (items, rest).
Proof.
  induction items as [|item items IH]; intros fuel rest Hne Hobj Hfuel; [done|].
  inversion_clear Hobj as [|? ? Hitem Hrest].
  destruct item as [| | | | |fields]; try done. cbn [Ref.object_of_strings] in Hitem.
  cbn [Ref.members_count] in Hfuel. destruct fuel as [|fuel]; [lia|].
  destruct items as [|item' items].
  - cbn [map Ref.join_comma].
    destruct (parse_items_object fields fuel (fromCharCode 93 :: rest) Hitem)
      as (b & c & text & -> & Hb & Hparse); [lia|].
    cbn [Ref.parse_items]. rewrite Hb. change (123 =? 123) with true. cbn match.
    rewrite Hparse. rewrite (charCode_fromCharCode 93) by lia. reflexivity.
  - cbn [map]. cbn [map] in IH.
    change (Ref.join_comma (Ref.stringify (JObj fields) :: Ref.stringify item'
                            :: map Ref.stringify items))
      with (Ref.stringify (JObj fields) ++ units [44]
            ++ Ref.join_comma (Ref.stringify item' :: map Ref.stringify items)).
    rewrite <- !app_assoc.
    destruct (parse_items_object fields fuel
                (units [44] ++ Ref.join_comma (Ref.stringify item' :: map Ref.stringify items)
                 ++ fromCharCode 93 :: rest) Hitem)
      as (b & c & text & Heq & Hb & Hparse); [lia|]. rewrite Heq.
    cbn [Ref.parse_items]. rewrite Hb. change (123 =? 123) with true. cbn match.
    rewrite Hparse. cbn [units map app]. rewrite (charCode_fromCharCode 44) by lia.
    change (44 =? 93) with false. change (44 =? 44) with true. cbn match.
    rewrite IH; [done|done|exact Hrest|lia].
Qed.

Lemma join_comma_length (x : jsstring) (l : list jsstring) :
  (length x + length (Ref.join_comma l) <= length (Ref.join_comma (x :: l)))%nat.
Proof.
  destruct l as [|y l]; [cbn; lia|].
  change (Ref.join_comma (x :: y :: l)) with (x ++ units [44] ++ Ref.join_comma (y :: l)).
  rewrite !length_app. lia.
Qed.

Lemma members_length (fields : list (jsstring * JValue)) :
  (length fields <= length (Ref.join_comma (map Ref.member_text fields)))%nat.
Proof.
  induction fields as [|kv fields IH]; [done|]. cbn [map length].
  pose proof (join_comma_length (Ref.member_text kv) (map Ref.member_text fields)).
  destruct (member_text_head kv) as [t Ht]. rewrite Ht in H at 1. cbn [length] in H. lia.
Qed.

Lemma stringify_object_length (fields : list (jsstring * JValue)) :
  (2 + length fields <= length (Ref.stringify (JObj fields)))%nat.
Proof.
  pose proof (stringify_object fields []) as H. rewrite app_nil_r in H. rewrite H.
  cbn [length]. rewrite length_app. cbn [length]. pose proof (members_length fields). lia.
Qed.

Lemma members_count_length (items : list JValue) :
  Forall Ref.object_of_strings items ->
  (Ref.members_count items <= length (Ref.join_comma (map Ref.stringify items)))%nat.
Proof.
  induction 1 as [|item items Hitem _ IH]; [done|].
  destruct item as [| | | | |fields]; try done. cbn [Ref.members_count map].
  pose proof (join_comma_length (Ref.stringify (JObj fields)) (map Ref.stringify items)) as H.
  pose proof (stringify_object_length fields). lia.
Qed.

Lemma plain_object_strings (v : JValue) : plain_object v -> Ref.object_of_strings v.
Proof.
  destruct v as [| | | | |fields]; try done. intros [_ H]. cbn.
  eapply Forall_impl; [exact H|]. now intros kv [_ ?].
Qed.

Lemma ref_parse_stringify (items : list JValue) :
  Forall plain_object items -> Ref.parse (Ref.stringify (JArr items)) = Some (JArr items).
Proof.
  intros Hplain.
  assert (Forall Ref.object_of_strings items) as Hobj
    by (eapply Forall_impl; [exact Hplain|apply plain_object_strings]).
  cbn [Ref.stringify units map app]. unfold Ref.parse.
  rewrite (charCode_fromCharCode 91) by lia. change (91 =? 91) with true. cbn match.
  destruct items as [|item items].
  - cbn [map Ref.join_comma app]. now rewrite (charCode_fromCharCode 93) by lia.
  - pose proof (parse_items_elements (item :: items)
                  (length (Ref.join_comma (map Ref.stringify (item :: items))
                           ++ [fromCharCode 93])) [] ltac:(done) Hobj) as Hparse.
    specialize (Hparse ltac:(rewrite length_app; pose proof (members_count_length _ Hobj); lia)).
    revert Hparse. generalize (Ref.join_comma (map Ref.stringify (item :: items))
                               ++ [fromCharCode 93]).
    intros text Hparse.
    destruct text as [|b [|c text]]; [discriminate Hparse| |now rewrite Hparse].
    cbn in Hparse. now destruct (charCode b =? 123).
Qed.

Lemma clean_well_formed (s : jsstring) : Ref.clean s -> Utf8.well_formed (map charCode s) = true.
Proof.
  induction 1 as [|c s Hc _ IH]; [done|]. cbn [map Utf8.well_formed].
  unfold Ref.is_surrogate in Hc. unfold Utf8.is_high, Utf8.is_low.
  destruct (N.leb_spec 0xD800 (charCode c)), (N.leb_spec (charCode c) 0xDFFF);
    try discriminate Hc;
    destruct (N.leb_spec (charCode c) 0xDBFF), (N.leb_spec 0xDC00 (charCode c));
    cbn; try exact IH; lia.
Qed.

Lemma clean_ascii (n : N) : n < 128 -> Ref.clean [fromCharCode n].
Proof.
  intros Hn. constructor; [|constructor]. rewrite charCode_fromCharCode by lia.
  unfold Ref.is_surrogate. destruct (N.leb_spec 0xD800 n); [lia|done].
Qed.

Lemma clean_app (a b : jsstring) : Ref.clean a -> Ref.clean b -> Ref.clean (a ++ b).
Proof. intros Ha Hb. apply Forall_app. done. Qed.

Lemma clean_cons_ascii (n : N) (s : jsstring) : n < 128 -> Ref.clean s -> Ref.clean (fromCharCode n :: s).
Proof. intros Hn Hs. apply (clean_app [_] s); [now apply clean_ascii|done]. Qed.

Lemma clean_escape (c : char16) : Ref.clean (Ref.escape c).
Proof.
  unfold Ref.escape. cbn zeta. pose proof (charCode_bounded c).
  destruct (charCode c =? 34); [cbn [units map]; repeat apply clean_cons_ascii; try lia; constructor|].
  destruct (charCode c =? 92); [cbn [units map]; repeat apply clean_cons_ascii; try lia; constructor|].
  destruct (charCode c <? 32) eqn:H32; cbn [orb].
  - cbn [units map].
    repeat apply clean_cons_ascii; try lia; try (apply hex_digit_bounded; lia). constructor.
  - destruct (Ref.is_surrogate (charCode c)) eqn:Hs.
    + cbn [units map].
      repeat apply clean_cons_ascii; try lia; try (apply hex_digit_bounded; lia). constructor.
    + constructor; [exact Hs|constructor].
Qed.

Lemma clean_quote (s : jsstring) : Ref.clean (Ref.quote s).
Proof.
  unfold Ref.quote. cbn [units map]. apply clean_app; [now apply clean_ascii|].
  apply clean_app; [|now apply clean_ascii].
  induction s as [|c s IH]; cbn [flat_map]; [constructor|].
  apply clean_app; [apply clean_escape|exact IH].
Qed.

Lemma clean_join_comma (l : list jsstring) : Forall Ref.clean l -> Ref.clean (Ref.join_comma l).
Proof.
  induction 1 as [|x l Hx Hl IH]; [constructor|].
  destruct l as [|y l]; [exact Hx|].
  change (Ref.join_comma (x :: y :: l)) with (x ++ units [44] ++ Ref.join_comma (y :: l)).
  apply clean_app; [exact Hx|]. apply clean_app; [now apply clean_ascii|exact IH].
Qed.

Lemma clean_object (v : JValue) : Ref.object_of_strings v -> Ref.clean (Ref.stringify v).
Proof.
  destruct v as [| | | | |fields]; try done. cbn [Ref.object_of_strings]. intros Hstr.
  cbn [Ref.stringify units map]. apply clean_app; [now apply clean_ascii|].
  apply clean_app; [|now apply clean_ascii].
  apply clean_join_comma. apply Forall_map. eapply Forall_impl; [exact Hstr|].
  intros [key v] Hv. cbn [fst snd] in *. destruct v as [| | |val| |]; try discriminate Hv.
  apply clean_app; [apply clean_quote|].
  apply clean_app; [now apply clean_ascii|apply clean_quote].
Qed.

Lemma ref_stringify_well_formed (items : list JValue) :
  Forall plain_object items -> Utf8.utf8_safe (Ref.stringify (JArr items)) = true.
Proof.
  intros Hplain. unfold Utf8.utf8_safe. apply andb_true_iff. split.
  - apply clean_well_formed. cbn [Ref.stringify units map].
    apply clean_app; [now apply clean_ascii|]. apply clean_app; [|now apply clean_ascii].
    apply clean_join_comma, Forall_map. eapply Forall_impl; [exact Hplain|].
    intros v Hv. now apply clean_object, plain_object_strings.
  - cbn [Ref.stringify units map app Utf8.no_bom].
    now rewrite (charCode_fromCharCode 91) by lia.
Qed.

Lemma ref_parse_array (text : jsstring) (items : list JValue) :
  Ref.parse text = Some (JArr items) -> exists c, c ∈ text /\ charCode c = 91.
Proof.
  unfold Ref.parse. destruct text as [|c s1]; [discriminate|].
  destruct (N.eqb_spec (charCode c) 91) as [H91|_].
  - intros _. exists c. split; [apply list_elem_of_here|exact H91].
  - destruct ((charCode c =? 48) && negb (bool_decide (s1 = []))); [discriminate|].
    destruct (Ref.parse_digits (c :: s1) 0); discriminate.
Qed.

(** The reference host is a host. *)
Lemma ref_host_laws (supported : bool) (capacity arguments : N) :
  PlatformLaws (Ref.host supported capacity arguments).
Proof.
  split.
  - exact ref_import_export.
  - discriminate.
  - intros key iv data _. eexists. reflexivity.
  - exact ref_open_seal.
  - exact ref_parse_stringify.
  - exact ref_stringify_well_formed.
  - exact ref_parse_array.
Qed.
(** ** Phone numbers on the cards and in the detail view *)

Section Phone.
Context `{P : Platform}.

Implicit Types s : jsstring.

#[local] Abbreviation digits s := (Forall (fun d => is_digit (charCode d) = true) s).

Lemma replace_groups_eq s :
  replace_groups s
  = if eleven_digits (take 11 s)
    then take 3 s ++ js "-" ++ take 4 (drop 3 s) ++ js "-" ++ take 4 (drop 7 s) ++ drop 11 s
    else match s with
         | c :: s' => c :: replace_groups s'
         | [] => []
         end.
Proof. destruct s; reflexivity. Qed.

Lemma eleven_digits_spec s :
  eleven_digits s = true
  <-> length s = 11%nat /\ Forall (fun d => is_digit (charCode d) = true) s.
Proof.
  unfold eleven_digits. rewrite andb_true_iff, bool_decide_eq_true, forallb_forall.
  rewrite Forall_forall. setoid_rewrite <- list_elem_of_In. reflexivity.
Qed.

Lemma digits_only_digits s :
  Forall (fun d => is_digit (charCode d) = true) s -> digits_only s = s.
Proof.
  induction 1 as [|c s Hc _ IH]; [reflexivity|].
  unfold digits_only in *. cbn. rewrite Hc, IH. reflexivity.
Qed.

Lemma digits_only_app s t : digits_only (s ++ t) = digits_only s ++ digits_only t.
Proof. apply List.filter_app. Qed.

Lemma digits_only_are_digits s : Forall (fun d => is_digit (charCode d) = true) (digits_only s).
Proof.
  apply Forall_forall. intros c Hc. apply list_elem_of_In, List.filter_In in Hc. tauto.
Qed.

Lemma three_groups s :
  length s = 11%nat ->
  s = take 3 s ++ take 4 (drop 3 s) ++ drop 7 s
  /\ length (take 3 s) = 3%nat /\ length (take 4 (drop 3 s)) = 4%nat
  /\ length (drop 7 s) = 4%nat.
Proof.
  intros H. repeat split.
  - rewrite <- (take_drop 3 s) at 1. f_equal.
    rewrite <- (take_drop 4 (drop 3 s)) at 1. f_equal. rewrite drop_drop. reflexivity.
  - rewrite length_take. lia.
  - rewrite length_take, length_drop. lia.
  - rewrite length_drop. lia.
Qed.

(** The text with separators that both views write for eleven digits. *)
Lemma grouped_digits a b d :
  digits_only (a ++ js "-" ++ b ++ js "-" ++ d) = digits_only (a ++ b ++ d).
Proof. rewrite !digits_only_app. reflexivity. Qed.

(** X1. [Contact.formatPhone]: a phone of exactly eleven digits is written in
    groups of three, four and four digits with a hyphen between them,
    every other phone is returned as it is; the digits and their order
    are never changed. *)
Theorem formatPhone_groups (c : Contact) :
  digits_only (formatPhone c) = digits_only (phone c)
  /\ if eleven_digits (phone c)
     then exists a b d,
         (length a = 3 /\ length b = 4 /\ length d = 4)%nat
         /\ phone c = a ++ b ++ d
         /\ formatPhone c = a ++ js "-" ++ b ++ js "-" ++ d
     else formatPhone c = phone c.
Proof.
  unfold formatPhone. destruct (eleven_digits (phone c)) eqn:E; [|split; reflexivity].
  apply eleven_digits_spec in E as [Hlen Hd].
  destruct (three_groups _ Hlen) as (Hs & Ha & Hb & Hc).
  assert (replace_groups (phone c)
          = take 3 (phone c) ++ js "-" ++ take 4 (drop 3 (phone c)) ++ js "-"
            ++ drop 7 (phone c)) as Hr.
  { rewrite replace_groups_eq.
    rewrite (take_ge (phone c) 11) by lia.
    replace (eleven_digits (phone c)) with true
      by (symmetry; apply eleven_digits_spec; auto).
    rewrite (drop_ge (phone c) 11) by lia. rewrite app_nil_r.
    rewrite (take_ge (drop 7 (phone c)) 4) by lia. reflexivity. }
  split.
  - rewrite Hr, grouped_digits, <- Hs. reflexivity.
  - exists (take 3 (phone c)), (take 4 (drop 3 (phone c))), (drop 7 (phone c)).
    auto.
Qed.

Lemma String_substring_take_drop s (a b : nat) :
  (a <= b <= length s)%nat -> String_substring s a b = take (b - a) (drop a s).
Proof.
  intros H. unfold String_substring.
  rewrite (Nat.min_l a), (Nat.min_l b), Nat.max_r, Nat.min_l by lia. reflexivity.
Qed.

Lemma formatPhoneNumber_eleven s :
  length (digits_only s) = 11%nat ->
  formatPhoneNumber s
  = take 3 (digits_only s) ++ js "-" ++ take 4 (drop 3 (digits_only s)) ++ js "-"
    ++ drop 7 (digits_only s).
Proof.
  intros H. unfold formatPhoneNumber. rewrite bool_decide_eq_true_2 by exact H.
  rewrite !String_substring_take_drop by lia.
  rewrite drop_0, H. cbn [Nat.sub]. rewrite (take_ge (drop 7 _) 4) by (rewrite length_drop; lia).
  reflexivity.
Qed.

Lemma formatPhoneNumber_other s :
  length (digits_only s) <> 11%nat -> formatPhoneNumber s = s.
Proof. intros H. unfold formatPhoneNumber. rewrite bool_decide_eq_false_2 by exact H. reflexivity. Qed.

(** X2. [DetailModal.formatPhoneNumber]: a phone with eleven digits in all,
    whatever stands between them, is written as its digits in groups of
    three, four and four with a hyphen between the groups; every other
    phone is returned as it is.  The digits are never changed (so
    [copyPhoneNumber] copies the digits of the phone that is shown), and
    formatting a second time changes nothing. *)
Theorem formatPhoneNumber_idempotent (phone_ : jsstring) :
  digits_only (formatPhoneNumber phone_) = digits_only phone_
  /\ formatPhoneNumber (formatPhoneNumber phone_) = formatPhoneNumber phone_
  /\ (if bool_decide (count_digits phone_ = 11%nat)
      then length (formatPhoneNumber phone_) = 13%nat
           /\ formatPhoneNumber phone_ = formatPhoneNumber (digits_only phone_)
           /\ exists a b d,
               (length a = 3 /\ length b = 4 /\ length d = 4)%nat
               /\ digits_only phone_ = a ++ b ++ d
               /\ formatPhoneNumber phone_ = a ++ js "-" ++ b ++ js "-" ++ d
      else formatPhoneNumber phone_ = phone_).
Proof.
  change (count_digits phone_) with (length (digits_only phone_)).
  case_bool_decide as Hn.
  - pose proof (formatPhoneNumber_eleven _ Hn) as Hf.
    destruct (three_groups _ Hn) as (Hs & Ha & Hb & Hc).
    assert (digits_only (formatPhoneNumber phone_) = digits_only phone_) as Hd.
    { rewrite Hf, grouped_digits, <- Hs. apply digits_only_digits, digits_only_are_digits. }
    assert (digits_only (digits_only phone_) = digits_only phone_) as Hdd
      by apply digits_only_digits, digits_only_are_digits.
    split; [exact Hd|]. split; [|split; [|split]].
    + rewrite (formatPhoneNumber_eleven (formatPhoneNumber phone_)) by (rewrite Hd; exact Hn).
      rewrite Hd. symmetry. exact Hf.
    + rewrite Hf, !length_app, Ha, Hb, Hc. reflexivity.
    + rewrite (formatPhoneNumber_eleven (digits_only phone_)) by (rewrite Hdd; exact Hn).
      rewrite Hdd. exact Hf.
    + exists (take 3 (digits_only phone_)), (take 4 (drop 3 (digits_only phone_))),
        (drop 7 (digits_only phone_)). auto.
  - rewrite (formatPhoneNumber_other _ Hn). split; [reflexivity|]. split; [|reflexivity].
    apply formatPhoneNumber_other. exact Hn.
Qed.

Lemma formatPhone_digits (c : Contact) :
  digits (phone c) -> formatPhone c = formatPhoneNumber (phone c).
Proof.
  intros Hd. pose proof (digits_only_digits _ Hd) as Hclean.
  unfold formatPhone. destruct (eleven_digits (phone c)) eqn:E.
  - apply eleven_digits_spec in E as [Hlen _].
    rewrite formatPhoneNumber_eleven by (rewrite Hclean; exact Hlen).
    rewrite Hclean, replace_groups_eq, (take_ge (phone c) 11) by lia.
    replace (eleven_digits (phone c)) with true
      by (symmetry; apply eleven_digits_spec; auto).
    rewrite (drop_ge (phone c) 11) by lia. rewrite app_nil_r.
    rewrite (take_ge (drop 7 (phone c)) 4) by (rewrite length_drop; lia). reflexivity.
  - rewrite formatPhoneNumber_other; [reflexivity|].
    rewrite Hclean. intros Hlen.
    assert (eleven_digits (phone c) = true) as E' by (apply eleven_digits_spec; auto).
    congruence.
Qed.

Lemma digits_pattern_spec s :
  digits_pattern s = true <-> (7 <= length s)%nat /\ digits s.
Proof.
  unfold digits_pattern. rewrite andb_true_iff, bool_decide_eq_true, forallb_forall.
  rewrite Forall_forall. setoid_rewrite <- list_elem_of_In. reflexivity.
Qed.

Lemma mobile_pattern_spec s :
  mobile_pattern s = true
  <-> exists rest, s = js "1" ++ rest /\ length rest = 10%nat /\ digits rest.
Proof.
  change (js "1") with [fromCharCode 49].
  destruct s as [|c rest]; cbn [mobile_pattern].
  - split; [discriminate|]. intros (rest & H & _). discriminate H.
  - rewrite !andb_true_iff, !bool_decide_eq_true, forallb_forall. split.
    + intros [[Hc Hlen] Hd]. exists rest. split; [|split; [exact Hlen|]].
      * cbn. f_equal. rewrite <- Hc. symmetry. apply fromCharCode_charCode.
      * apply Forall_forall. intros d Hin. apply Hd, list_elem_of_In, Hin.
    + intros (rest' & Heq & Hlen & Hd). cbn in Heq. injection Heq as -> <-.
      split; [split; [reflexivity|exact Hlen]|].
      intros d Hin. rewrite Forall_forall in Hd. apply Hd, list_elem_of_In, Hin.
Qed.

(** X3. What [validateForm] accepts: a name and an address that are not
    empty, and a phone of seven digits or more and of nothing else, which
    starts with 1 when it has eleven digits.  Everything else is rejected
    with a message. *)
Theorem validateForm_accepts (contactData : ContactOptions) :
  (validateForm contactData = (true, None)
   <-> o_name contactData <> [] /\ o_address contactData <> []
       /\ (7 <= length (o_phone contactData))%nat
       /\ digits (o_phone contactData)
       /\ (length (o_phone contactData) = 11%nat ->
           exists rest, o_phone contactData = js "1" ++ rest))
  /\ (validateForm contactData = (true, None)
      \/ exists reason, validateForm contactData = (false, Some reason)).
Proof.
  unfold validateForm.
  destruct (decide (o_name contactData = [])) as [Hn|Hn];
    [rewrite (bool_decide_eq_true_2 _ Hn); cbn;
     split; [split; [discriminate|tauto]|right; eauto]|].
  rewrite (bool_decide_eq_false_2 _ Hn).
  destruct (decide (o_phone contactData = [])) as [Hp|Hp];
    [rewrite (bool_decide_eq_true_2 _ Hp); cbn; split; [split; [discriminate|]|right; eauto];
     rewrite Hp; cbn; lia|].
  rewrite (bool_decide_eq_false_2 _ Hp).
  destruct (decide (o_address contactData = [])) as [Ha|Ha];
    [rewrite (bool_decide_eq_true_2 _ Ha); cbn;
     split; [split; [discriminate|tauto]|right; eauto]|].
  rewrite (bool_decide_eq_false_2 _ Ha). cbn [orb].
  destruct (digits_pattern (o_phone contactData)) eqn:Ed.
  - apply digits_pattern_spec in Ed as [H7 Hd].
    destruct (decide (length (o_phone contactData) = 11%nat)) as [H11|H11].
    + rewrite (bool_decide_eq_true_2 _ H11).
      destruct (mobile_pattern (o_phone contactData)) eqn:Em; cbn.
      * apply mobile_pattern_spec in Em as (rest & Heq & _).
        split; [|left; reflexivity]. split; [|reflexivity]. intros _.
        repeat split; eauto.
      * split; [|right; eauto]. split; [discriminate|].
        intros (_ & _ & _ & _ & H1). destruct (H1 H11) as [rest Heq].
        assert (mobile_pattern (o_phone contactData) = true) as Em'; [|congruence].
        apply mobile_pattern_spec. exists rest. split; [exact Heq|].
        rewrite Heq in H11, Hd. rewrite length_app in H11.
        change (length (js "1")) with 1%nat in H11. split; [lia|].
        apply Forall_app in Hd. tauto.
    + rewrite (bool_decide_eq_false_2 _ H11). cbn.
      split; [|left; reflexivity]. split; [|reflexivity]. intros _.
      repeat split; auto. intros H. contradiction.
  - destruct (bool_decide (length (o_phone contactData) = 11%nat)
              && negb (mobile_pattern (o_phone contactData))); cbn.
    + split; [|right; eauto]. split; [discriminate|].
      intros (_ & _ & H7 & Hd & _).
      assert (digits_pattern (o_phone contactData) = true) as Ed'; [|congruence].
      apply digits_pattern_spec. auto.
    + split; [|right; eauto]. split; [discriminate|].
      intros (_ & _ & H7 & Hd & _).
      assert (digits_pattern (o_phone contactData) = true) as Ed'; [|congruence].
      apply digits_pattern_spec. auto.
Qed.

Lemma validateForm_digits (contactData : ContactOptions) :
  validateForm contactData = (true, None) ->
  o_name contactData <> [] /\ o_address contactData <> []
  /\ (7 <= length (o_phone contactData))%nat /\ digits (o_phone contactData).
Proof.
  unfold validateForm.
  destruct (_ || _ || _) eqn:E; [discriminate|].
  apply orb_false_iff in E as [E Ha]. apply orb_false_iff in E as [Hn Hp].
  apply bool_decide_eq_false in Hn, Ha.
  destruct (_ && _); [discriminate|].
  destruct (digits_pattern (o_phone contactData)) eqn:Ed; [|discriminate].
  apply digits_pattern_spec in Ed. intros _. tauto.
Qed.

(** X4. For every contact made from data the form accepts, the card of the
    list ([formatPhone]) and the detail view ([formatPhoneNumber]) show
    the same phone text, and [copyPhoneNumber] copies the phone as it was
    entered. *)
Theorem card_and_detail_show_the_same_phone (e : Entropy) (k : nat)
    (contactData : ContactOptions) :
  validateForm contactData = (true, None) ->
  let c := Contact_new e k contactData in
  formatPhone c = detailPhone (showContact c)
  /\ copyPhoneNumber (Some c) = Some (o_phone contactData).
Proof.
  intros Hv c. apply validateForm_digits in Hv as (_ & _ & _ & Hd).
  split.
  - apply formatPhone_digits. exact Hd.
  - cbn. f_equal. apply digits_only_digits. exact Hd.
Qed.

End Phone.
(** ** How the operations of the manager end *)

Section Cases.
Context `{P : Platform}.
Implicit Types (e : Entropy) (st : State) (c : Contact).

Lemma findIndex_None_iff {A} (p : A -> bool) (l : list A) :
  findIndex p l = None <-> forall x, x ∈ l -> p x = false.
Proof.
  split; [intros H x; apply findIndex_None; exact H|].
  induction l as [|y l IH]; [reflexivity|]. intros H. cbn.
  rewrite (H y) by apply list_elem_of_here.
  rewrite IH; [reflexivity|]. intros x Hx. apply H, list_elem_of_further, Hx.
Qed.

Lemma findIndex_find {A} (p : A -> bool) (l : list A) :
  List.find p l = match findIndex p l with Some k => l !! k | None => None end.
Proof.
  induction l as [|y l IH]; [reflexivity|]. cbn.
  destruct (p y); [reflexivity|]. rewrite IH.
  destruct (findIndex p l); reflexivity.
Qed.

Lemma with_contacts_same st : with_contacts st (contacts st) = st.
Proof. destruct st; reflexivity. Qed.

Lemma splice_one {A} (l : list A) k x :
  l !! k = Some x -> splice k 1 [] l = ([x], take k l ++ drop (S k) l).
Proof.
  intros H. unfold splice. rewrite Nat.add_1_r. f_equal.
  pose proof (lookup_lt_Some _ _ _ H) as Hlt.
  apply take_drop_middle in H. rewrite <- H at 1.
  rewrite drop_app_length' by (rewrite length_take; lia). reflexivity.
Qed.

(** [addContact] on a request that is no duplicate. *)
Lemma addContact_run e (contactData : ContactOptions) st :
  hasDuplicate (contacts st) (Some (o_name contactData)) (Some (o_category contactData)) None
  = false ->
  let c := Contact_new e 0 contactData in
  exists ok st2,
    saveToStorage e (with_contacts st (push c (contacts st))) = (ok, st2)
    /\ contacts st2 = contacts st ++ [c]
    /\ addContact e contactData st
       = if ok then (succeeded c, st2)
         else (failure MsgSaveFailed, with_contacts st2 (contacts st)).
Proof.
  intros Hdup c. unfold addContact. rewrite Hdup. fold c.
  pose proof (saveToStorage_contacts e (with_contacts st (push c (contacts st)))) as Hc.
  destruct (saveToStorage _ _) as [ok st2] eqn:Hsave.
  cbn [fst snd contacts with_contacts] in Hc.
  exists ok, st2. split; [reflexivity|]. split; [exact Hc|].
  destruct ok; [reflexivity|]. rewrite Hc, pop_push. reflexivity.
Qed.

(** [deleteContact] on an id of the collection: the first contact with
    the id is taken out, and put back when the save fails. *)
Lemma deleteContact_cases e i st :
  (findIndex (fun c => bool_decide (id c = i)) (contacts st) = None
   /\ deleteContact e i st = (failure MsgNotFound, st))
  \/ exists k deleted ok st2,
      findIndex (fun c => bool_decide (id c = i)) (contacts st) = Some k
      /\ contacts st !! k = Some deleted
      /\ id deleted = i
      /\ saveToStorage e (with_contacts st (take k (contacts st) ++ drop (S k) (contacts st)))
         = (ok, st2)
      /\ contacts st2 = take k (contacts st) ++ drop (S k) (contacts st)
      /\ deleteContact e i st
         = if ok then (succeeded deleted, st2)
           else (failure MsgDeleteFailed, with_contacts st2 (contacts st)).
Proof.
  unfold deleteContact.
  destruct (findIndex _ (contacts st)) as [k|] eqn:Hidx; [right|left; split; reflexivity].
  destruct (findIndex_Some _ _ _ Hidx) as (deleted & Hk & Hid).
  apply bool_decide_eq_true in Hid.
  rewrite (splice_one _ _ _ Hk). cbv beta iota.
  pose proof (saveToStorage_contacts e
                (with_contacts st (take k (contacts st) ++ drop (S k) (contacts st)))) as Hc.
  destruct (saveToStorage _ _) as [ok st2] eqn:Hsave.
  cbn [fst snd contacts with_contacts] in Hc.
  exists k, deleted, ok, st2.
  split; [reflexivity|]. split; [exact Hk|]. split; [exact Hid|].
  split; [exact Hsave|]. split; [exact Hc|].
  destruct ok; [reflexivity|]. f_equal. f_equal.
  rewrite Hc. unfold splice. cbn [snd]. rewrite Nat.add_0_r.
  rewrite take_app_length', drop_app_length'
    by (rewrite length_take; apply lookup_lt_Some in Hk; lia).
  apply take_drop_middle. exact Hk.
Qed.

(** [updateContact] on an id of the collection. *)
Lemma updateContact_cases e i updatedData st :
  (findIndex (fun c => bool_decide (id c = i)) (contacts st) = None
   /\ updateContact e i updatedData st = (Return (failure MsgNotFound), st))
  \/ exists k original,
      findIndex (fun c => bool_decide (id c = i)) (contacts st) = Some k
      /\ contacts st !! k = Some original
      /\ id original = i
      /\ ((hasDuplicate (contacts st) (p_name updatedData) (p_category updatedData) (Some i)
           = true
           /\ updateContact e i updatedData st
              = (Return (failure (MsgDuplicate (p_name updatedData))), st))
          \/ (hasDuplicate (contacts st) (p_name updatedData) (p_category updatedData) (Some i)
              = false
              /\ ((createdAt original = InvalidDate
                   /\ updateContact e i updatedData st = (Throw RangeError, st))
                  \/ (createdAt original <> InvalidDate
                      /\ exists ok st2,
                          saveToStorage e
                            (with_contacts st (<[k := updated e original updatedData]>
                                                 (contacts st)))
                          = (ok, st2)
                          /\ contacts st2
                             = <[k := updated e original updatedData]> (contacts st)
                          /\ updateContact e i updatedData st
                             = if ok
                               then (Return (succeeded (updated e original updatedData)), st2)
                               else (Return (failure MsgUpdateFailed),
                                     with_contacts st2 (contacts st)))))).
Proof.
  unfold updateContact, updated.
  destruct (findIndex _ (contacts st)) as [k|] eqn:Hidx; [right|left; split; reflexivity].
  destruct (findIndex_Some _ _ _ Hidx) as (original & Hk & Hid).
  apply bool_decide_eq_true in Hid.
  exists k, original. repeat (split; [done|]).
  destruct (hasDuplicate _ _ _ _); [left; done|right]. split; [done|].
  rewrite Hk. cbv beta iota. unfold toJSON.
  destruct (createdAt original) as [ms|] eqn:Hcr; [right|left; done].
  split; [done|].
  set (changed := with_createdAt (Contact_new e 0 (merge original updatedData)) (ValidDate ms)).
  pose proof (saveToStorage_contacts e
                (with_contacts st (<[k := changed]> (contacts st)))) as Hc.
  destruct (saveToStorage _ _) as [ok st2] eqn:Hsave.
  cbn [fst snd contacts with_contacts] in Hc.
  exists ok, st2. split; [reflexivity|]. split; [exact Hc|].
  destruct ok; [reflexivity|]. cbn. f_equal. f_equal.
  rewrite Hc. apply insert_insert_back. exact Hk.
Qed.

End Cases.
(** ** Lookup, deletion and the ids of the collection *)

Section Collection.
Context `{P : Platform}.
Implicit Types (e : Entropy) (st : State) (c : Contact).

Lemma getContactById_None st i :
  getContactById st i = None <-> forall c, c ∈ contacts st -> id c <> i.
Proof.
  unfold getContactById. rewrite findIndex_find.
  destruct (findIndex _ (contacts st)) as [k|] eqn:Hidx.
  - destruct (findIndex_Some _ _ _ Hidx) as (x & Hk & Hid).
    apply bool_decide_eq_true in Hid. rewrite Hk. split; [discriminate|].
    intros H. exfalso. apply (H x); [|exact Hid]. eapply list_elem_of_lookup_2, Hk.
  - split; [|reflexivity]. intros _ c Hc Hid.
    rewrite findIndex_None_iff in Hidx. specialize (Hidx c Hc).
    apply bool_decide_eq_false in Hidx. contradiction.
Qed.

Lemma getContactById_app st st' c i :
  contacts st' = contacts st ++ [c] ->
  getContactById st' i
  = match getContactById st i with
    | Some found => Some found
    | None => if bool_decide (id c = i) then Some c else None
    end.
Proof.
  unfold getContactById. intros ->.
  induction (contacts st) as [|a l IH]; cbn; [reflexivity|].
  destruct (bool_decide (id a = i)); [reflexivity|exact IH].
Qed.

(** X5. An id that no contact has: [getContactById] returns null, and
    [deleteContact] and [updateContact] answer 联系人不存在 and leave the
    collection, the storage and the listeners as they are. *)
Theorem unknown_id_changes_nothing e i (updatedData : ContactPatch) st :
  (forall c, c ∈ contacts st -> id c <> i) ->
  getContactById st i = None
  /\ deleteContact e i st = (failure MsgNotFound, st)
  /\ updateContact e i updatedData st = (Return (failure MsgNotFound), st).
Proof.
  intros H.
  assert (findIndex (fun c => bool_decide (id c = i)) (contacts st) = None) as Hidx.
  { apply findIndex_None_iff. intros c Hc. apply bool_decide_eq_false, H, Hc. }
  split; [apply getContactById_None, H|].
  unfold deleteContact, updateContact. rewrite Hidx. split; reflexivity.
Qed.

(** X6. A successful [deleteContact] removes the first contact with the id,
    the one [getContactById] returns, and answers with it; the contacts
    before and after it stay, in their order. *)
Theorem delete_removes_only_the_target e i st r st' :
  deleteContact e i st = (r, st') ->
  success r = true ->
  exists k deleted,
    contacts st !! k = Some deleted
    /\ id deleted = i
    /\ getContactById st i = Some deleted
    /\ contact r = Some deleted
    /\ contacts st' = take k (contacts st) ++ drop (S k) (contacts st)
    /\ S (length (contacts st')) = length (contacts st)
    /\ (forall j, (j < k)%nat -> contacts st' !! j = contacts st !! j)
    /\ (forall j, (k <= j)%nat -> contacts st' !! j = contacts st !! S j).
Proof.
  intros Hdel Hok.
  destruct (deleteContact_cases e i st)
    as [[_ Hr]|(k & deleted & [|] & st2 & Hidx & Hk & Hid & _ & Hc & Hr)];
    rewrite Hr in Hdel; injection Hdel as <- <-; try discriminate Hok.
  pose proof (lookup_lt_Some _ _ _ Hk) as Hlt.
  exists k, deleted. repeat (split; [done|]).
  split; [unfold getContactById; rewrite findIndex_find, Hidx; exact Hk|].
  split; [reflexivity|]. split; [exact Hc|]. rewrite Hc.
  split; [|split].
  - rewrite length_app, length_take, length_drop. lia.
  - intros j Hj. rewrite lookup_app_l by (rewrite length_take; lia).
    apply lookup_take_lt. exact Hj.
  - intros j Hj. rewrite lookup_app_r by (rewrite length_take; lia).
    rewrite length_take, lookup_drop. f_equal. lia.
Qed.

(** X7. A successful [addContact] puts one contact at the end of the
    collection, with the fields of the request; [getContactById] finds
    it under its id unless an older contact has the same id, and finds
    under every other id what it found before. *)
Theorem add_then_get e (contactData : ContactOptions) st r st' :
  addContact e contactData st = (r, st') ->
  success r = true ->
  exists c,
    contact r = Some c
    /\ contacts st' = contacts st ++ [c]
    /\ name c = o_name contactData /\ phone c = o_phone contactData
    /\ address c = o_address contactData /\ category c = o_category contactData
    /\ id c <> []
    /\ (forall i, i <> id c -> getContactById st' i = getContactById st i)
    /\ ((forall a, a ∈ contacts st -> id a <> id c) -> getContactById st' (id c) = Some c).
Proof.
  intros Hadd Hok.
  destruct (addContact_cases e contactData st)
    as [[_ Hr]|[_ (st2 & Hc & [[_ Hr]|[_ Hr]])]];
    rewrite Hr in Hadd; injection Hadd as <- <-; try discriminate Hok.
  exists (Contact_new e 0 contactData).
  split; [reflexivity|]. split; [exact Hc|].
  do 4 (split; [reflexivity|]). split; [apply Contact_new_id|].
  split.
  - intros i Hi. rewrite (getContactById_app st st2 _ i Hc).
    rewrite bool_decide_eq_false_2 by congruence.
    destruct (getContactById st i); reflexivity.
  - intros Hfresh. rewrite (getContactById_app st st2 _ _ Hc).
    apply getContactById_None in Hfresh. rewrite Hfresh.
    rewrite bool_decide_eq_true_2 by reflexivity. reflexivity.
Qed.

(** X8. Adding a contact and deleting it again by its id gives back the
    collection from before, when the id is new to the collection. *)
Theorem add_then_delete e e' (contactData : ContactOptions) st r st1 r' st2 :
  addContact e contactData st = (r, st1) ->
  success r = true ->
  (forall a, a ∈ contacts st -> id a <> id (Contact_new e 0 contactData)) ->
  deleteContact e' (id (Contact_new e 0 contactData)) st1 = (r', st2) ->
  success r' = true ->
  contacts st2 = contacts st /\ contact r' = contact r.
Proof.
  intros Hadd Hok Hfresh Hdel Hok'.
  destruct (addContact_cases e contactData st)
    as [[_ Hr]|[_ (st1' & Hc & [[_ Hr]|[_ Hr]])]];
    rewrite Hr in Hadd; injection Hadd as <- <-; try discriminate Hok.
  set (c := Contact_new e 0 contactData) in *.
  destruct (deleteContact_cases e' (id c) st1')
    as [[_ Hr']|(k & deleted & [|] & st2' & Hidx & Hk & Hid & _ & Hc' & Hr')];
    rewrite Hr' in Hdel; injection Hdel as <- <-; try discriminate Hok'.
  unfold push in Hc. rewrite Hc in Hk, Hc'.
  assert (k = length (contacts st)) as ->.
  { destruct (decide (k < length (contacts st))%nat) as [Hlt|Hge].
    - rewrite lookup_app_l in Hk by exact Hlt.
      exfalso. apply (Hfresh deleted); [eapply list_elem_of_lookup_2, Hk|exact Hid].
    - apply lookup_lt_Some in Hk. rewrite length_app in Hk. cbn in Hk. lia. }
  rewrite lookup_app_r, Nat.sub_diag in Hk by lia. injection Hk as <-.
  split; [|reflexivity]. rewrite Hc'.
  rewrite take_app_length, drop_ge by (rewrite length_app; cbn; lia).
  apply app_nil_r.
Qed.

Lemma updated_id e original (updatedData : ContactPatch) :
  id (updated e original updatedData) <> [].
Proof. unfold updated. cbn [id with_createdAt]. apply Contact_new_id. Qed.


End Collection.
(** ** A contact with an invalid date, and the form *)

Section Failures.
Context `{P : Platform}.
Implicit Types (e : Entropy) (st : State) (c : Contact).

Lemma toJSON_all_invalid (cs : list Contact) bad :
  bad ∈ cs -> createdAt bad = InvalidDate -> toJSON_all cs = Throw RangeError.
Proof.
  intros Hin Hbad. induction cs as [|c cs IH]; [inversion Hin|].
  cbn. unfold toJSON at 1. apply elem_of_cons in Hin as [<-|Hin].
  - rewrite Hbad. reflexivity.
  - rewrite (IH Hin). destruct (createdAt c); reflexivity.
Qed.

Lemma saveToStorage_invalid e st bad :
  bad ∈ contacts st -> createdAt bad = InvalidDate -> saveToStorage e st = (false, st).
Proof.
  intros Hin Hbad. unfold saveToStorage.
  rewrite (toJSON_all_invalid _ _ Hin Hbad). reflexivity.
Qed.

Lemma elem_of_without {A} (l : list A) k x y :
  l !! k = Some x -> y ∈ l -> y <> x -> y ∈ take k l ++ drop (S k) l.
Proof.
  intros Hk Hy Hne. rewrite <- (take_drop_middle _ _ _ Hk) in Hy.
  apply elem_of_app in Hy as [Hy|Hy]; [apply elem_of_app; left; exact Hy|].
  apply elem_of_cons in Hy as [->|Hy]; [contradiction|].
  apply elem_of_app. right. exact Hy.
Qed.

Lemma elem_of_insert_other {A} (l : list A) k x u y :
  l !! k = Some x -> y ∈ l -> y <> x -> y ∈ <[k := u]> l.
Proof.
  intros Hk Hy Hne. rewrite insert_take_drop by (eapply lookup_lt_Some, Hk).
  pose proof (elem_of_without _ _ _ _ Hk Hy Hne) as H.
  apply elem_of_app in H as [H|H]; apply elem_of_app; [left; exact H|].
  right. apply elem_of_cons. right. exact H.
Qed.

(** X10. While the collection holds a contact whose creation date is invalid
    (a stored date that [new Date] could not read), [toISOString] throws
    in every save: [saveToStorage] returns false and writes nothing,
    [addContact] and [updateContact] never succeed, a contact with
    another id cannot be deleted, and all of them leave the collection
    and the storage as they were. *)
Theorem invalid_date_blocks_saving e st bad :
  bad ∈ contacts st ->
  createdAt bad = InvalidDate ->
  saveToStorage e st = (false, st)
  /\ (forall contactData,
         success (fst (addContact e contactData st)) = false
         /\ snd (addContact e contactData st) = st)
  /\ (forall i updatedData,
         snd (updateContact e i updatedData st) = st
         /\ forall r, fst (updateContact e i updatedData st) = Return r -> success r = false)
  /\ (forall i, i <> id bad ->
                success (fst (deleteContact e i st)) = false
                /\ snd (deleteContact e i st) = st).
Proof.
  intros Hin Hbad. split; [exact (saveToStorage_invalid e st bad Hin Hbad)|].
  split; [|split].
  - intros contactData.
    destruct (hasDuplicate (contacts st) (Some (o_name contactData))
                           (Some (o_category contactData)) None) eqn:Hdup.
    + unfold addContact. rewrite Hdup. split; reflexivity.
    + destruct (addContact_run e contactData st Hdup) as (ok & st2 & Hsave & _ & ->).
      rewrite (saveToStorage_invalid e _ bad) in Hsave;
        [|cbn [contacts with_contacts]; unfold push; apply elem_of_app; left; exact Hin
         |exact Hbad].
      injection Hsave as <- <-. split; [reflexivity|exact (with_contacts_same st)].
  - intros i updatedData.
    destruct (updateContact_cases e i updatedData st)
      as [[_ ->]|(k & original & _ & Hk & _
                  & [[_ ->]|[_ [[_ ->]|[Hvalid (ok & st2 & Hsave & _ & ->)]]]])];
      try (split; [reflexivity|intros r [= <-]; reflexivity]);
      try (split; [reflexivity|intros r [=]]).
    rewrite (saveToStorage_invalid e _ bad) in Hsave; [| |exact Hbad].
    + injection Hsave as <- <-.
      split; [exact (with_contacts_same st)|intros r [= <-]; reflexivity].
    + cbn [contacts with_contacts]. apply (elem_of_insert_other _ _ original); [exact Hk|exact Hin|].
      intros ->. contradiction.
  - intros i Hi.
    destruct (deleteContact_cases e i st)
      as [[_ ->]|(k & deleted & ok & st2 & _ & Hk & Hid & Hsave & _ & ->)];
      [split; reflexivity|].
    rewrite (saveToStorage_invalid e _ bad) in Hsave; [| |exact Hbad].
    + injection Hsave as <- <-. split; [reflexivity|exact (with_contacts_same st)].
    + cbn [contacts with_contacts]. apply (elem_of_without _ _ deleted); [exact Hk|exact Hin|].
      congruence.
Qed.

Lemma handleSubmit_cases e (editingContactId : option jsstring)
    (name_ phone_ address_ category_ : jsstring) st :
  let contactData :=
    {| o_id := None; o_name := name_; o_phone := phone_;
       o_address := address_; o_category := category_ |} in
  (exists shown, validateForm contactData = (false, shown)
                 /\ handleSubmit e editingContactId name_ phone_ address_ category_ st
                    = (Rejected shown, st))
  \/ (validateForm contactData = (true, None)
      /\ ((exists i, editingContactId = Some i /\ i <> []
                     /\ handleSubmit e editingContactId name_ phone_ address_ category_ st
                        = match updateContact e i (patch_of contactData) st with
                          | (Return r, st') => (Answered r, st')
                          | (Throw _, st') => (Failed, st')
                          end)
          \/ ((editingContactId = None \/ editingContactId = Some [])
              /\ handleSubmit e editingContactId name_ phone_ address_ category_ st
                 = (Answered (fst (addContact e contactData st)),
                    snd (addContact e contactData st))))).
Proof.
  intros contactData. unfold handleSubmit. fold contactData.
  assert (validateForm contactData = (true, None)
          \/ exists shown, validateForm contactData = (false, shown)) as [Hv|[shown Hv]].
  { unfold validateForm. destruct (_ || _ || _); [right; eauto|].
    destruct (_ && _); [right; eauto|]. destruct (negb _); [right; eauto|left; reflexivity]. }
  - right. rewrite Hv. split; [reflexivity|].
    destruct editingContactId as [[|ch i]|].
    + right. split; [auto|]. destruct (addContact _ _ _); reflexivity.
    + left. exists (ch :: i). split; [reflexivity|]. split; [discriminate|reflexivity].
    + right. split; [auto|]. destruct (addContact _ _ _); reflexivity.
  - left. exists shown. rewrite Hv. split; reflexivity.
Qed.

(** X11. Through the form, the collection stays free of two contacts with the
    same name and category: [handleSubmit] names the name and the
    category in every request it sends, in add mode and in edit mode, so
    the duplicate check sees the record as it will be.  (Ids are taken to
    be distinct, as the check leaves out the contacts with the edited
    id.) *)
Theorem form_keeps_uniqueness e (editingContactId : option jsstring)
    (name_ phone_ address_ category_ : jsstring) st :
  unique_name_category (contacts st) ->
  NoDup (map id (contacts st)) ->
  unique_name_category
    (contacts (snd (handleSubmit e editingContactId name_ phone_ address_ category_ st))).
Proof.
  intros Hu Hids.
  destruct (handleSubmit_cases e editingContactId name_ phone_ address_ category_ st)
    as [(shown & _ & ->)|[_ [(i & _ & _ & ->)|[_ ->]]]]; cbn [snd]; [exact Hu| |].
  - pose proof (updateContact_keeps_uniqueness e i
                  (patch_of {| o_id := None; o_name := name_; o_phone := phone_;
                               o_address := address_; o_category := category_ |})
                  st name_ category_ Hu Hids eq_refl eq_refl) as H.
    destruct (updateContact _ _ _ _) as [[r|x] st']; exact H.
  - apply addContact_keeps_uniqueness. exact Hu.
Qed.

End Failures.
(** ** The form as it is typed *)

Section Submit.
Context `{P : Platform}.
Implicit Types (e : Entropy) (st : State) (s : jsstring).

#[local] Abbreviation white s := (Forall (fun ch => is_white_space (charCode ch) = true) s).

Lemma trimStart_spec s :
  exists a, s = a ++ trimStart s /\ white a
            /\ forall ch, head (trimStart s) = Some ch -> is_white_space (charCode ch) = false.
Proof.
  induction s as [|c s (a & Hs & Ha & Hh)]; [exists []; cbn; split; [|split]; done|].
  cbn. destruct (is_white_space (charCode c)) eqn:Hc.
  - exists (c :: a). split; [cbn; f_equal; exact Hs|]. split; [|exact Hh].
    constructor; [exact Hc|exact Ha].
  - exists []. split; [reflexivity|]. split; [constructor|].
    intros ch [= <-]. exact Hc.
Qed.

Lemma trimStart_white s : white s -> trimStart s = [].
Proof. induction 1 as [|c s Hc _ IH]; [reflexivity|]. cbn. rewrite Hc. exact IH. Qed.

Lemma head_app_Some {A} (l l' : list A) x : head l = Some x -> head (l ++ l') = Some x.
Proof. destruct l; [discriminate|]. intros H. exact H. Qed.

Lemma last_rev {A} (l : list A) : last (rev l) = head l.
Proof. destruct l as [|x l]; [reflexivity|]. cbn. apply last_snoc. Qed.

(** [trim] removes the white space before and after, and nothing else. *)
Lemma trim_spec s :
  exists a b,
    s = a ++ trim s ++ b /\ white a /\ white b
    /\ (forall ch, head (trim s) = Some ch -> is_white_space (charCode ch) = false)
    /\ (forall ch, last (trim s) = Some ch -> is_white_space (charCode ch) = false).
Proof.
  unfold trim, trimEnd.
  destruct (trimStart_spec s) as (a & Hs & Ha & Hh).
  destruct (trimStart_spec (rev (trimStart s))) as (b & Ht & Hb & Hl).
  set (t := trimStart s) in *. set (u := trimStart (rev t)) in *.
  assert (t = rev u ++ rev b) as Htu.
  { rewrite <- (rev_involutive t), Ht, rev_app_distr. reflexivity. }
  exists a, (rev b). split; [rewrite <- Htu; exact Hs|]. split; [exact Ha|].
  split; [apply Forall_forall; intros ch Hch; rewrite Forall_forall in Hb;
          apply Hb, list_elem_of_In, in_rev, list_elem_of_In, Hch|].
  split.
  - intros ch Hch. apply Hh. rewrite Htu. apply head_app_Some, Hch.
  - intros ch Hch. apply Hl. rewrite <- last_rev. exact Hch.
Qed.

Lemma trim_white s : white s -> trim s = [].
Proof. intros H. unfold trim, trimEnd. rewrite (trimStart_white s H). reflexivity. Qed.

(** X12. A form whose name, phone or address holds nothing but white space is
    rejected with 请填写所有必填字段; no callback is called and the state
    stays as it is, in add mode and in edit mode. *)
Theorem blank_fields_are_rejected e (editingContactId : option jsstring)
    (form : FormValues) st :
  white (name_value form) \/ white (phone_value form) \/ white (address_value form) ->
  submit e editingContactId form st = (Rejected (Some MsgRequired), st).
Proof.
  intros H. unfold submit, handleSubmit, validateForm. cbn [o_name o_phone o_address].
  assert (bool_decide (trim (name_value form) = [])
          || bool_decide (trim (phone_value form) = [])
          || bool_decide (trim (address_value form) = []) = true) as ->; [|reflexivity].
  destruct H as [H|[H|H]]; rewrite (trim_white _ H);
    rewrite (bool_decide_eq_true_2 ([] = [])) by reflexivity;
    rewrite ?orb_true_r; reflexivity.
Qed.

(** X13. A contact added through the form carries the typed name, phone and
    address without the white space around them: the name and the
    address are not empty and neither start nor end with white space,
    and the phone is seven digits or more and nothing else. *)
Theorem form_adds_trimmed_contact e (form : FormValues) st r st' :
  submit e None form st = (Answered r, st') ->
  success r = true ->
  exists c,
    contact r = Some c
    /\ last (contacts st') = Some c
    /\ name c = trim (name_value form)
    /\ phone c = trim (phone_value form)
    /\ address c = trim (address_value form)
    /\ category c = category_value form
    /\ name c <> [] /\ address c <> []
    /\ (7 <= length (phone c))%nat
    /\ Forall (fun d => is_digit (charCode d) = true) (phone c)
    /\ (forall ch, head (name c) = Some ch \/ last (name c) = Some ch
                   \/ head (address c) = Some ch \/ last (address c) = Some ch ->
                   is_white_space (charCode ch) = false).
Proof.
  unfold submit. intros Hsub Hok.
  set (contactData := {| o_id := None; o_name := trim (name_value form);
                         o_phone := trim (phone_value form);
                         o_address := trim (address_value form);
                         o_category := category_value form |}).
  destruct (handleSubmit_cases e None (trim (name_value form)) (trim (phone_value form))
              (trim (address_value form)) (category_value form) st)
    as [(shown & _ & Hr)|[Hv [(i & [=] & _)|[_ Hr]]]];
    rewrite Hr in Hsub; [discriminate Hsub|].
  fold contactData in Hv, Hsub. injection Hsub as <- <-.
  destruct (validateForm_digits contactData Hv) as (Hn & Ha & H7 & Hd).
  destruct (hasDuplicate (contacts st) (Some (o_name contactData))
                         (Some (o_category contactData)) None) eqn:Hdup;
    [unfold addContact in Hok; rewrite Hdup in Hok; discriminate Hok|].
  destruct (addContact_run e contactData st Hdup) as ([|] & st2 & _ & Hc & Hr');
    rewrite Hr' in *; [|discriminate Hok].
  exists (Contact_new e 0 contactData). cbn [fst snd].
  split; [reflexivity|]. split; [rewrite Hc; apply last_snoc|].
  do 4 (split; [reflexivity|]). cbn [name address phone Contact_new].
  do 4 (split; [assumption|]).
  destruct (trim_spec (name_value form)) as (_ & _ & _ & _ & _ & Hh & Hl).
  destruct (trim_spec (address_value form)) as (_ & _ & _ & _ & _ & Hh' & Hl').
  intros ch [H|[H|[H|H]]]; eauto.
Qed.

Lemma submit_add_mode e (form : FormValues) st r st' :
  submit e None form st = (Answered r, st') ->
  success r = true ->
  exists c, r = succeeded c /\ contacts st' = contacts st ++ [c].
Proof.
  unfold submit. intros Hsub Hok.
  set (contactData := {| o_id := None; o_name := trim (name_value form);
                         o_phone := trim (phone_value form);
                         o_address := trim (address_value form);
                         o_category := category_value form |}).
  destruct (handleSubmit_cases e None (trim (name_value form)) (trim (phone_value form))
              (trim (address_value form)) (category_value form) st)
    as [(shown & _ & Hr)|[Hv [(i & [=] & _)|[_ Hr]]]];
    rewrite Hr in Hsub; [discriminate Hsub|].
  fold contactData in Hsub. injection Hsub as <- <-.
  destruct (hasDuplicate (contacts st) (Some (o_name contactData))
                         (Some (o_category contactData)) None) eqn:Hdup;
    [unfold addContact in Hok; rewrite Hdup in Hok; discriminate Hok|].
  destruct (addContact_run e contactData st Hdup) as ([|] & st2 & _ & Hc & Hr');
    rewrite Hr' in *; [|discriminate Hok].
  exists (Contact_new e 0 contactData). split; [reflexivity|exact Hc].
Qed.

(** X14. [editContact] does not reach edit mode: its closing [show()] resets
    the modal, so the form comes up with the values the page declares
    for its fields and the title of the add form, and without an edited
    id, whatever the contact.  What the user then submits is handled in add mode: it
    is rejected, or answered by [addContact], and a success puts a new
    contact at the end of the collection and changes no other. *)
Theorem editContact_opens_the_add_form (defaults : FormValues) (c : Contact)
    (modal : AddContactModal) :
  editingContactId (editContact defaults c modal) = None
  /\ form_values (editContact defaults c modal) = defaults
  /\ title (editContact defaults c modal) = TitleAdd
  /\ displayed (editContact defaults c modal) = true
  /\ (forall e typed st,
         submit_modal e (typing typed (editContact defaults c modal)) st
         = submit e None typed st)
  /\ (forall e typed st r,
         fst (submit_modal e (typing typed (editContact defaults c modal)) st) = Answered r ->
         success r = true ->
         exists added,
           r = succeeded added
           /\ contacts (snd (submit_modal e (typing typed (editContact defaults c modal)) st))
              = contacts st ++ [added]).
Proof.
  do 4 (split; [reflexivity|]). split; [reflexivity|].
  intros e typed st r Hr Hok.
  change (submit_modal e (typing typed (editContact defaults c modal)) st)
    with (submit e None typed st) in *.
  apply (submit_add_mode e typed st r (snd (submit e None typed st))); [|exact Hok].
  apply injective_projections; [exact Hr|reflexivity].
Qed.

End Submit.
(** ** The slots of the storage *)

Section Slots.
Context `{P : Platform}.
Implicit Types (e : Entropy) (sto : Storage) (st : State) (k : jsstring).

Lemma getKey_frame e sto k : k <> keyName -> snd (getKey e sto) !! k = sto !! k.
Proof.
  intros Hk. unfold getKey, getItem, setItem.
  destruct (negb crypto_supported); [reflexivity|].
  destruct (sto !! keyName) as [[|c s]|]; try reflexivity;
    (destruct (quota _ _ _); [cbn [snd]; apply lookup_insert_ne; congruence|reflexivity]).
Qed.

Lemma encrypt_storage e (data : jsstring) sto : snd (encrypt e data sto) = snd (getKey e sto).
Proof.
  unfold encrypt. destruct (getKey e sto) as [[key|] sto']; [|reflexivity].
  destruct (subtle_encrypt _ _ _); [|reflexivity].
  destruct (arrayBufferToBase64 _); reflexivity.
Qed.

Lemma decrypt_storage e (data : jsstring) sto : snd (decrypt e data sto) = snd (getKey e sto).
Proof.
  unfold decrypt. destruct (getKey e sto) as [[key|] sto']; [|reflexivity].
  destruct (base64ToArrayBuffer _); [|reflexivity].
  destruct (subtle_decrypt _ _ _); reflexivity.
Qed.

Lemma encryptAndStore_frame e key (data : JValue) sto k :
  k <> keyName -> k <> key -> snd (encryptAndStore e key data sto) !! k = sto !! k.
Proof.
  intros Hk Hkey. unfold encryptAndStore, setItem.
  pose proof (encrypt_storage e (JSON_stringify data) sto) as Hs.
  destruct (encrypt e _ sto) as [encrypted sto1]. cbn [snd] in Hs. subst sto1.
  destruct (quota _ _ _); cbn [snd].
  - rewrite lookup_insert_ne by congruence. apply getKey_frame, Hk.
  - apply getKey_frame, Hk.
Qed.

(** A write that the storage refuses leaves the item as it was. *)
Lemma encryptAndStore_refused e key (data : JValue) sto :
  key <> keyName ->
  fst (encryptAndStore e key data sto) = false ->
  snd (encryptAndStore e key data sto) !! key = sto !! key.
Proof.
  intros Hkey. unfold encryptAndStore, setItem.
  pose proof (encrypt_storage e (JSON_stringify data) sto) as Hs.
  destruct (encrypt e _ sto) as [encrypted sto1]. cbn [snd] in Hs. subst sto1.
  destruct (quota _ _ _); cbn [fst snd]; [discriminate|].
  intros _. apply getKey_frame, Hkey.
Qed.

Lemma readAndDecrypt_frame e key sto k :
  k <> keyName -> snd (readAndDecrypt e key sto) !! k = sto !! k.
Proof.
  intros Hk. unfold readAndDecrypt, getItem.
  destruct (sto !! key) as [[|c s]|]; try reflexivity.
  pose proof (decrypt_storage e (c :: s) sto) as Hs.
  destruct (decrypt e _ sto) as [decrypted sto1]. cbn [snd] in *. subst sto1.
  apply getKey_frame, Hk.
Qed.

(** What a load does to the storage: the key slot apart, it leaves the
    items as they are, unless building a contact throws; its [catch] then
    removes the item [contacts] and empties the collection. *)
Lemma loadFromStorage_storage e st :
  (exists items x,
      fst (readAndDecrypt e (js "contacts") (localStorage st)) = Some (JArr items)
      /\ load_items e 0 (List.filter valid_item items) = Throw x
      /\ contacts (loadFromStorage e st) = []
      /\ localStorage (loadFromStorage e st)
         = removeItem (snd (readAndDecrypt e (js "contacts") (localStorage st)))
             (js "contacts"))
  \/ localStorage (loadFromStorage e st)
     = snd (readAndDecrypt e (js "contacts") (localStorage st)).
Proof.
  unfold loadFromStorage.
  destruct (readAndDecrypt _ _ _) as [data sto]. cbn [fst snd].
  destruct data as [v|]; [|right; reflexivity].
  destruct (truthy v); [|right; reflexivity].
  destruct v as [| | | |items|]; try (right; reflexivity).
  destruct (load_items e 0 _) as [cs|x] eqn:Hload; [right; reflexivity|].
  left. exists items, x. done.
Qed.

Lemma loadFromStorage_frame e st k :
  k <> keyName -> k <> js "contacts" ->
  localStorage (loadFromStorage e st) !! k = localStorage st !! k.
Proof.
  intros Hk Hc.
  pose proof (readAndDecrypt_frame e (js "contacts") (localStorage st) k Hk) as Hs.
  destruct (loadFromStorage_storage e st) as [(items & x & _ & _ & _ & ->)| ->];
    [|exact Hs].
  unfold removeItem. rewrite lookup_delete_ne by congruence. exact Hs.
Qed.

Lemma saveToStorage_frame e st k :
  k <> keyName -> k <> js "contacts" ->
  localStorage (snd (saveToStorage e st)) !! k = localStorage st !! k.
Proof.
  intros Hk Hc. unfold saveToStorage.
  destruct (toJSON_all (contacts st)) as [data|]; [|reflexivity].
  pose proof (encryptAndStore_frame e (js "contacts") (JArr data) (localStorage st) k Hk Hc)
    as Hs.
  destruct (encryptAndStore _ _ _ _) as [ok sto]. cbn [snd] in Hs.
  destruct ok; [destruct (notifyListeners _)|]; exact Hs.
Qed.

Lemma saveToStorage_frame_run e st1 ok st2 k :
  saveToStorage e st1 = (ok, st2) ->
  k <> keyName -> k <> js "contacts" ->
  localStorage st2 !! k = localStorage st1 !! k.
Proof.
  intros Hsave Hk Hc. pose proof (saveToStorage_frame e st1 k Hk Hc) as Hs.
  rewrite Hsave in Hs. exact Hs.
Qed.

(** X15. The manager reads and writes two items of the storage and no other:
    its operations leave every item but [contacts] and the key slot as
    it is.  A load does not write [contacts] either, with one exception:
    when building a contact from a stored entry throws ([new Date] of its
    creation date), the load removes the item and ends with an empty
    collection. *)
Theorem only_two_slots_are_written e st k :
  k <> keyName ->
  k <> js "contacts" ->
  localStorage (loadFromStorage e st) !! k = localStorage st !! k
  /\ ((exists items x,
          fst (readAndDecrypt e (js "contacts") (localStorage st)) = Some (JArr items)
          /\ load_items e 0 (List.filter valid_item items) = Throw x
          /\ contacts (loadFromStorage e st) = []
          /\ localStorage (loadFromStorage e st) !! js "contacts" = None)
      \/ localStorage (loadFromStorage e st) !! js "contacts"
         = localStorage st !! js "contacts")
  /\ (forall contactData,
         localStorage (snd (addContact e contactData st)) !! k = localStorage st !! k)
  /\ (forall i updatedData,
         localStorage (snd (updateContact e i updatedData st)) !! k = localStorage st !! k)
  /\ (forall i, localStorage (snd (deleteContact e i st)) !! k = localStorage st !! k).
Proof.
  intros Hk Hc.
  split; [apply loadFromStorage_frame; assumption|].
  split.
  { destruct (loadFromStorage_storage e st) as [(items & x & Hread & Hthrow & Hnil & ->)| ->].
    - left. exists items, x. repeat (split; [assumption|]). apply lookup_delete_eq.
    - right. apply readAndDecrypt_frame. discriminate. }
  split; [|split].
  - intros contactData.
    destruct (hasDuplicate (contacts st) (Some (o_name contactData))
                           (Some (o_category contactData)) None) eqn:Hdup.
    + unfold addContact. rewrite Hdup. reflexivity.
    + destruct (addContact_run e contactData st Hdup) as (ok & st2 & Hsave & _ & ->).
      pose proof (saveToStorage_frame_run _ _ _ _ k Hsave Hk Hc) as Hs.
      destruct ok; exact Hs.
  - intros i updatedData.
    destruct (updateContact_cases e i updatedData st)
      as [[_ ->]|(j & original & _ & _ & _
                  & [[_ ->]|[_ [[_ ->]|[_ (ok & st2 & Hsave & _ & ->)]]]])];
      try reflexivity.
    pose proof (saveToStorage_frame_run _ _ _ _ k Hsave Hk Hc) as Hs.
    destruct ok; exact Hs.
  - intros i.
    destruct (deleteContact_cases e i st)
      as [[_ ->]|(j & deleted & ok & st2 & _ & _ & _ & Hsave & _ & ->)]; [reflexivity|].
    pose proof (saveToStorage_frame_run _ _ _ _ k Hsave Hk Hc) as Hs.
    destruct ok; exact Hs.
Qed.

Lemma saveToStorage_refused e st1 st2 :
  saveToStorage e st1 = (false, st2) ->
  notifyListeners st1 = true ->
  localStorage st2 !! js "contacts" = localStorage st1 !! js "contacts".
Proof.
  unfold saveToStorage. intros Hsave Hlisten.
  destruct (toJSON_all (contacts st1)) as [data|]; [|injection Hsave as <-; reflexivity].
  pose proof (encryptAndStore_refused e (js "contacts") (JArr data) (localStorage st1)) as Hs.
  destruct (encryptAndStore _ _ _ _) as [[|] sto]; cbn [fst snd] in Hs.
  - change (notifyListeners (with_storage st1 sto)) with (notifyListeners st1) in Hsave.
    rewrite Hlisten in Hsave. discriminate Hsave.
  - injection Hsave as <-. apply Hs; [discriminate|reflexivity].
Qed.

(** X16. When no listener throws, an operation that fails has changed
    neither the collection nor the stored collection: a save that the
    storage refuses (the quota) or that [toISOString] aborts leaves the
    item [contacts] as it was, so that memory and storage still agree.
    (The key slot may have received a new key.) *)
Theorem failed_operations_leave_the_stored_collection e st :
  (forall cs, forallb (fun callback => callback cs) (listeners st) = true) ->
  (forall contactData,
      success (fst (addContact e contactData st)) = false ->
      contacts (snd (addContact e contactData st)) = contacts st
      /\ localStorage (snd (addContact e contactData st)) !! js "contacts"
         = localStorage st !! js "contacts")
  /\ (forall i updatedData,
         match fst (updateContact e i updatedData st) with
         | Return r => success r = false
         | Throw _ => True
         end ->
         contacts (snd (updateContact e i updatedData st)) = contacts st
         /\ localStorage (snd (updateContact e i updatedData st)) !! js "contacts"
            = localStorage st !! js "contacts")
  /\ (forall i,
         success (fst (deleteContact e i st)) = false ->
         contacts (snd (deleteContact e i st)) = contacts st
         /\ localStorage (snd (deleteContact e i st)) !! js "contacts"
            = localStorage st !! js "contacts").
Proof.
  intros Hlisten.
  assert (forall cs st2,
             saveToStorage e (with_contacts st cs) = (false, st2) ->
             localStorage st2 !! js "contacts" = localStorage st !! js "contacts") as Hkeep.
  { intros cs st2 Hsave. apply (saveToStorage_refused e _ _ Hsave). apply Hlisten. }
  split; [|split].
  - intros contactData Hfail.
    destruct (hasDuplicate (contacts st) (Some (o_name contactData))
                           (Some (o_category contactData)) None) eqn:Hdup.
    + unfold addContact. rewrite Hdup. split; reflexivity.
    + destruct (addContact_run e contactData st Hdup) as ([|] & st2 & Hsave & _ & Hr);
        rewrite Hr in *; [discriminate Hfail|].
      split; [reflexivity|]. exact (Hkeep _ _ Hsave).
  - intros i updatedData Hfail.
    destruct (updateContact_cases e i updatedData st)
      as [[_ Hr]|(k & original & _ & _ & _
                  & [[_ Hr]|[_ [[_ Hr]|[_ ([|] & st2 & Hsave & _ & Hr)]]]])];
      rewrite Hr in *; try (split; reflexivity); [discriminate Hfail|].
    split; [reflexivity|]. exact (Hkeep _ _ Hsave).
  - intros i Hfail.
    destruct (deleteContact_cases e i st)
      as [[_ Hr]|(k & deleted & [|] & st2 & _ & _ & _ & Hsave & _ & Hr)];
      rewrite Hr in *; [split; reflexivity|discriminate Hfail|].
    split; [reflexivity|]. exact (Hkeep _ _ Hsave).
Qed.

(** X17. A key slot whose text cannot be imported is never repaired: [getKey]
    returns null and leaves the slot, so [encrypt] and [decrypt] return
    their input and [encryptAndStore] writes the JSON text as it is. *)
Theorem broken_key_slot_disables_encryption e sto (stored : jsstring) :
  sto !! keyName = Some stored ->
  stored <> [] ->
  importKey stored = None ->
  getKey e sto = (None, sto)
  /\ (forall data, encrypt e data sto = (data, sto))
  /\ (forall data, decrypt e data sto = (data, sto))
  /\ (forall key data,
         encryptAndStore e key data sto
         = if quota sto key (JSON_stringify data)
           then (true, <[key := JSON_stringify data]> sto) else (false, sto)).
Proof.
  intros Hslot Hne Himp.
  assert (getKey e sto = (None, sto)) as Hget.
  { unfold getKey, getItem. rewrite Hslot.
    destruct (negb crypto_supported); [reflexivity|].
    destruct stored; [contradiction|]. rewrite Himp. reflexivity. }
  split; [exact Hget|].
  assert (forall data, encrypt e data sto = (data, sto)) as Henc
    by (intros data; unfold encrypt; rewrite Hget; reflexivity).
  split; [exact Henc|].
  split; [intros data; unfold decrypt; rewrite Hget; reflexivity|].
  intros key data. unfold encryptAndStore, setItem. rewrite Henc.
  destruct (quota _ _ _); reflexivity.
Qed.

(** X18. [clearAllContacts]: once the user has confirmed, the page that is
    loaded next starts with an empty collection, also after the second
    load that the application makes; the key slot and the other items of
    the storage are kept, and the loads write nothing.  When the user
    declines, the storage is left as it is. *)
Theorem clear_then_reload e e' sto :
  let cleared := clearAllContacts true sto in
  contacts (ContactManager_new e cleared) = []
  /\ localStorage (ContactManager_new e cleared) = cleared
  /\ contacts (loadFromStorage e' (ContactManager_new e cleared)) = []
  /\ localStorage (loadFromStorage e' (ContactManager_new e cleared)) = cleared
  /\ cleared !! js "contacts" = None
  /\ (forall k, k <> js "contacts" -> cleared !! k = sto !! k)
  /\ clearAllContacts false sto = sto.
Proof.
  intros cleared.
  assert (cleared !! js "contacts" = None) as Hnone by apply lookup_delete_eq.
  assert (forall st, localStorage st = cleared -> loadFromStorage e st = st
                     /\ loadFromStorage e' st = st) as Hload.
  { intros st Hst. unfold loadFromStorage, readAndDecrypt, getItem.
    rewrite Hst, Hnone. destruct st; cbn in *; subst; split; reflexivity. }
  unfold ContactManager_new.
  destruct (Hload {| contacts := []; listeners := []; localStorage := cleared |} eq_refl)
    as [H1 H2].
  rewrite H1, H2. repeat (split; [reflexivity|]).
  split; [exact Hnone|]. split; [|reflexivity].
  intros k Hk. apply lookup_delete_ne. congruence.
Qed.

End Slots.
(** ** Round trips of the stored data *)

Section Base64Text.
Context `{P : Platform}.

Lemma padding_length (bs : list N) :
  (length (Base64.sextets bs) + length (Base64.padding bs) = 4 * ((length bs + 2) / 3))%nat.
Proof.
  induction bs as [|a|a b|a b c rest IH] using list_ind3; try reflexivity.
  pose proof (padding_step a b c rest (fun x => x)) as Hp. rewrite !map_id in Hp.
  rewrite Hp. cbn [Base64.sextets length].
  replace (S (S (S (length rest))) + 2)%nat with ((length rest + 2) + 1 * 3)%nat by lia.
  rewrite Nat.div_add by discriminate. lia.
Qed.

(** X19. [base64ToArrayBuffer] inverts [arrayBufferToBase64] on every byte
    array that one call can be given as its arguments, the empty one
    included; the text has four characters for every three bytes, the
    last group filled up.  On a longer array [arrayBufferToBase64]
    throws. *)
Theorem base64_round_trip (buffer : Uint8Array) :
  ((N.of_nat (length buffer) <= max_arguments)%N ->
   exists base64,
     arrayBufferToBase64 buffer = Some base64
     /\ base64ToArrayBuffer base64 = Some buffer
     /\ length base64 = (4 * ((length buffer + 2) / 3))%nat)
  /\ ((max_arguments < N.of_nat (length buffer))%N -> arrayBufferToBase64 buffer = None).
Proof.
  split; [|apply arrayBufferToBase64_None].
  intros Hfits. pose proof (arrayBufferToBase64_Some buffer Hfits) as H64.
  eexists. split; [exact H64|].
  split; [apply base64ToArrayBuffer_arrayBufferToBase64, H64|].
  rewrite length_map. unfold Base64.encode_bytes.
  rewrite length_app, length_map, padding_length, length_map. reflexivity.
Qed.

End Base64Text.

Section RoundTrips.
Context `{P : Platform} {L : PlatformLaws P}.
Implicit Types (e : Entropy) (sto : Storage) (st : State) (c : Contact).

(** X20. The key is made once: the first call of [getKey] in a storage without
    a key writes the new key to the key slot and to no other item, and
    every later call returns the same key and writes nothing.  Without
    Web Crypto there is no key and nothing is written. *)
Theorem getKey_makes_one_key e e' sto :
  (forall k, k <> keyName -> snd (getKey e sto) !! k = sto !! k)
  /\ (forall key sto',
         getKey e sto = (Some key, sto') ->
         getKey e' sto' = (Some key, sto')
         /\ (sto !! keyName = None ->
             key = generated_key e /\ sto' = <[keyName := exportKey key]> sto))
  /\ (crypto_supported = false -> forall sto', getKey e sto' = (None, sto')).
Proof.
  split; [intros k Hk; apply getKey_frame, Hk|]. split.
  - intros key sto' Hget. split; [eapply getKey_stable, Hget|].
    intros Hnone. unfold getKey, getItem, setItem in Hget. rewrite Hnone in Hget.
    destruct (negb crypto_supported); [discriminate|].
    destruct (quota _ _ _); [|discriminate]. injection Hget as <- <-. split; reflexivity.
  - intros Hno sto'. unfold getKey. rewrite Hno. reflexivity.
Qed.

Lemma stored_text_read e e' (key : jsstring) (items : list JValue) sto sto' :
  key <> keyName ->
  Forall plain_object items ->
  encryptAndStore e key (JArr items) sto = (true, sto') ->
  fst (readAndDecrypt e' key sto') = Some (JArr items).
Proof.
  intros Hkey Hplain Hstore. unfold encryptAndStore, setItem in Hstore.
  set (text := JSON_stringify (JArr items)) in *.
  destruct (encrypt e text sto) as [encrypted sto1] eqn:Henc.
  destruct (quota _ _ _); [|discriminate]. injection Hstore as <-.
  destruct (decrypt_stored_text e e' items sto (<[key := encrypted]> sto1) Hplain)
    as [Hne Hdec].
  { fold text. rewrite Henc. cbn [snd]. apply lookup_insert_ne. exact Hkey. }
  fold text in Hne, Hdec. rewrite Henc in Hne, Hdec. cbn [fst] in Hne, Hdec.
  unfold readAndDecrypt, getItem. rewrite lookup_insert_eq.
  destruct encrypted as [|c0 s0]; [contradiction|].
  destruct (decrypt e' (c0 :: s0) _) as [decrypted sto2]. cbn [fst] in *. subst decrypted.
  apply parse_stringify, Hplain.
Qed.

(** X21. What [encryptAndStore] has stored under a key of the storage other
    than the key slot, [readAndDecrypt] reads back: the array of objects
    that was given, with or without a key. *)
Theorem stored_array_is_read_back e e' (key : jsstring) (items : list JValue) sto sto' :
  key <> keyName ->
  Forall plain_object items ->
  encryptAndStore e key (JArr items) sto = (true, sto') ->
  fst (readAndDecrypt e' key sto') = Some (JArr items)
  /\ (forall k, k <> keyName -> k <> key -> sto' !! k = sto !! k).
Proof.
  intros Hkey Hplain Hstore. split; [eapply stored_text_read; eassumption|].
  intros k Hk Hk'. pose proof (encryptAndStore_frame e key (JArr items) sto k Hk Hk') as H.
  rewrite Hstore in H. exact H.
Qed.

(** A stored text that denotes an array is no base64: it is read as it
    stands, with or without a key. *)
Lemma readAndDecrypt_plain e (key : jsstring) (stored : jsstring) (items : list JValue) sto :
  sto !! key = Some stored ->
  JSON_parse stored = Some (JArr items) ->
  fst (readAndDecrypt e key sto) = Some (JArr items).
Proof.
  intros Hslot Hparse.
  destruct (parse_array _ _ Hparse) as (ch & Hc & H91).
  unfold readAndDecrypt, getItem. rewrite Hslot.
  destruct stored as [|c0 s0]; [inversion Hc|].
  assert (fst (decrypt e (c0 :: s0) sto) = c0 :: s0) as Hdec.
  { apply decrypt_returns_input. intros key' _. unfold decryption_fails.
    rewrite (base64ToArrayBuffer_bracket _ ch Hc H91). exact I. }
  destruct (decrypt e (c0 :: s0) sto) as [decrypted sto1]. cbn [fst] in *. subst decrypted.
  exact Hparse.
Qed.

Lemma load_item_fields e k (item : JValue) c :
  valid_item item = true ->
  load_item e k item = Return c ->
  string_prop item (js "name") = Some (name c)
  /\ string_prop item (js "phone") = Some (phone c)
  /\ string_prop item (js "category") = Some (category c).
Proof.
  unfold valid_item. intros Hv.
  apply andb_true_iff in Hv as [Hv Hc]. apply andb_true_iff in Hv as [Hv Hp].
  apply andb_true_iff in Hv as [_ Hn].
  apply bool_decide_eq_true in Hn as [n Hn], Hp as [p Hp], Hc as [cat Hc].
  unfold load_item. rewrite Hn, Hp, Hc. intros Hload.
  assert (name c = n /\ phone c = p /\ category c = cat) as (-> & -> & ->); [|auto].
  destruct (get_prop item (js "createdAt")) as [v|];
    [|injection Hload as <-; repeat split; reflexivity].
  destruct (truthy v); [|injection Hload as <-; repeat split; reflexivity].
  destruct (Date_new v) as [d|]; [|discriminate Hload].
  injection Hload as <-. repeat split; reflexivity.
Qed.

(** X22. A collection that stands in the storage as plain JSON text (written
    while no key was available, or by another script) is read all the
    same when a key is available: the text is no base64, so [decrypt]
    returns it as it is.  When [new Date] accepts the creation date of
    every entry, as it does when the values of the entries are all
    strings, the entries that are objects with a name, a phone and a
    category are loaded in their order, one contact each, with these
    fields.  When it throws for one of them, the load ends with an empty
    collection and has removed the stored text. *)
Theorem plain_text_is_loaded e (stored : jsstring) (items : list JValue) st :
  localStorage st !! js "contacts" = Some stored ->
  JSON_parse stored = Some (JArr items) ->
  fst (readAndDecrypt e (js "contacts") (localStorage st)) = Some (JArr items)
  /\ (forall cs,
         load_items e 0 (List.filter valid_item items) = Return cs ->
         contacts (loadFromStorage e st) = cs
         /\ length cs = length (List.filter valid_item items)
         /\ (forall k item,
                List.filter valid_item items !! k = Some item ->
                exists c,
                  cs !! k = Some c
                  /\ string_prop item (js "name") = Some (name c)
                  /\ string_prop item (js "phone") = Some (phone c)
                  /\ string_prop item (js "category") = Some (category c)))
  /\ (forall x,
         load_items e 0 (List.filter valid_item items) = Throw x ->
         contacts (loadFromStorage e st) = []
         /\ localStorage (loadFromStorage e st) !! js "contacts" = None)
  /\ (Forall plain_object items ->
      exists cs, load_items e 0 (List.filter valid_item items) = Return cs).
Proof.
  intros Hslot Hparse.
  pose proof (readAndDecrypt_plain e (js "contacts") stored items _ Hslot Hparse) as Hread.
  split; [exact Hread|].
  assert (loadFromStorage e st
          = let sto := snd (readAndDecrypt e (js "contacts") (localStorage st)) in
            match load_items e 0 (List.filter valid_item items) with
            | Return cs => with_contacts (with_storage st sto) cs
            | Throw _ =>
              with_storage (with_contacts (with_storage st sto) [])
                           (removeItem sto (js "contacts"))
            end) as Hload.
  { unfold loadFromStorage.
    destruct (readAndDecrypt e (js "contacts") (localStorage st)) as [data sto1].
    cbn [fst] in Hread. subst data. reflexivity. }
  cbn zeta in Hload. split; [|split].
  - intros cs Hcs. rewrite Hcs in Hload. rewrite Hload.
    split; [reflexivity|].
    destruct (load_items_lookup _ _ _ _ Hcs) as [Hlen Hentries].
    split; [exact Hlen|].
    intros k item Hk. destruct (Hentries k item Hk) as (c & Hc & Hitem).
    exists c. split; [exact Hc|].
    apply (load_item_fields e (0 + k) item c); [|exact Hitem].
    apply list_elem_of_lookup_2, list_elem_of_In, List.filter_In in Hk. tauto.
  - intros x Hx. rewrite Hx in Hload. rewrite Hload.
    split; [reflexivity|]. cbn [localStorage with_storage]. apply lookup_delete_eq.
  - intros Hplain. apply load_items_returns.
    rewrite Forall_forall in *. intros item Hin. apply Hplain.
    apply list_elem_of_In, List.filter_In in Hin. apply list_elem_of_In. tauto.
Qed.

Lemma load_item_toJSON e k c item ms :
  toJSON c = Return item ->
  createdAt c = ValidDate ms ->
  id c <> [] ->
  toISOString ms <> [] ->
  Date_parse (toISOString ms) = ValidDate ms ->
  load_item e k item = Return c.
Proof.
  unfold toJSON. intros Hjson Hcr Hid Hiso Hparse. rewrite Hcr in Hjson.
  injection Hjson as <-. unfold load_item.
  change (get_prop _ (js "createdAt")) with (Some (JStr (toISOString ms))).
  cbn [Date_new].
  destruct (toISOString ms) as [|c0 s0] eqn:Htext; [contradiction|].
  rewrite Hparse. destruct c as [i n p a cat d]. cbn in *. subst d.
  destruct i; [contradiction|]. reflexivity.
Qed.

Lemma load_after_store e e' (items : list JValue) sto sto2 st3 :
  Forall plain_object items ->
  Forall (fun item => valid_item item = true) items ->
  encryptAndStore e (js "contacts") (JArr items) sto = (true, sto2) ->
  localStorage st3 = sto2 ->
  load_items e' 0 items = Return (contacts (loadFromStorage e' st3)).
Proof.
  intros Hplain Hvalid Hstore Hsame.
  pose proof (stored_text_read e e' (js "contacts") items sto sto2
                (fun H => keyName_not_contacts (eq_sym H)) Hplain Hstore) as Hread.
  assert (List.filter valid_item items = items) as Hall.
  { apply forallb_filter_id, forallb_forall. intros item Hin.
    rewrite Forall_forall in Hvalid. apply Hvalid, list_elem_of_In, Hin. }
  rewrite <- Hall at 1. apply loadFromStorage_array; [exact Hplain|].
  rewrite Hsame. exact Hread.
Qed.

Lemma load_items_toJSON e k (cs : list Contact) (items : list JValue) :
  toJSON_all cs = Return items ->
  ids_assigned cs ->
  (forall c ms, c ∈ cs -> createdAt c = ValidDate ms ->
                toISOString ms <> [] /\ Date_parse (toISOString ms) = ValidDate ms) ->
  load_items e k items = Return cs.
Proof.
  revert k items. induction cs as [|c cs IH]; intros k items; cbn.
  - intros [= <-] _ _. reflexivity.
  - destruct (toJSON c) as [item|] eqn:Hjson; [|discriminate].
    destruct (toJSON_all cs) as [rest|] eqn:Hrest; [|discriminate].
    intros [= <-] Hids Hdates. cbn.
    assert (exists ms, createdAt c = ValidDate ms) as [ms Hms].
    { unfold toJSON in Hjson. destruct (createdAt c); [eauto|discriminate]. }
    destruct (Hdates c ms (list_elem_of_here _ _) Hms) as [Hiso Hparse].
    apply Forall_cons in Hids as [Hid Hids].
    rewrite (load_item_toJSON e k c item ms Hjson Hms Hid Hiso Hparse).
    rewrite (IH (S k) rest eq_refl Hids); [reflexivity|].
    intros c' ms' Hin. apply Hdates. now apply list_elem_of_further.
Qed.

Lemma load_saved e e' st st2 :
  saveToStorage e st = (true, st2) ->
  ids_assigned (contacts st) ->
  (forall c ms, c ∈ contacts st -> createdAt c = ValidDate ms ->
                toISOString ms <> [] /\ Date_parse (toISOString ms) = ValidDate ms) ->
  forall st3, localStorage st3 = localStorage st2 ->
              contacts (loadFromStorage e' st3) = contacts st.
Proof.
  intros Hsave Hids Hdates st3 Hsame.
  destruct (load_after_save e e' st st2 st3 Hsave Hsame) as (items & Hitems & Hload).
  rewrite (load_items_toJSON e' 0 _ _ Hitems Hids Hdates) in Hload. congruence.
Qed.

(** X23. After a successful [saveToStorage], a load from the storage it wrote
    (by a new manager, or again by the same one) gives the whole
    collection back: the same contacts in the same order, with their ids
    and creation dates, provided the ISO text of each date is read back
    as that date. *)
Theorem save_then_load e e' st st2 :
  saveToStorage e st = (true, st2) ->
  ids_assigned (contacts st) ->
  (forall c ms, c ∈ contacts st -> createdAt c = ValidDate ms ->
                toISOString ms <> [] /\ Date_parse (toISOString ms) = ValidDate ms) ->
  contacts (ContactManager_new e' (localStorage st2)) = contacts st
  /\ contacts (loadFromStorage e' st2) = contacts st.
Proof.
  intros Hsave Hids Hdates.
  split; [|apply (load_saved e e' st st2 Hsave Hids Hdates); reflexivity].
  unfold ContactManager_new. apply (load_saved e e' st st2 Hsave Hids Hdates). reflexivity.
Qed.

(** X24. After every successful [addContact], [updateContact] and
    [deleteContact] the storage holds the collection as it is in memory:
    a new manager on that storage loads the same contacts in the same
    order.  (The dates of the collection and the date of the call are
    taken to be read back from their ISO text.) *)
Theorem successful_operations_are_persisted e e' st :
  ids_assigned (contacts st) ->
  (forall ms,
      ms = new_date e 0 \/ (exists c, c ∈ contacts st /\ createdAt c = ValidDate ms) ->
      toISOString ms <> [] /\ Date_parse (toISOString ms) = ValidDate ms) ->
  (forall contactData r st',
      addContact e contactData st = (r, st') -> success r = true ->
      contacts (ContactManager_new e' (localStorage st')) = contacts st')
  /\ (forall i updatedData r st',
         updateContact e i updatedData st = (Return r, st') -> success r = true ->
         contacts (ContactManager_new e' (localStorage st')) = contacts st')
  /\ (forall i r st',
         deleteContact e i st = (r, st') -> success r = true ->
         contacts (ContactManager_new e' (localStorage st')) = contacts st').
Proof.
  intros Hids Hdates.
  assert (forall st1 st2,
             saveToStorage e st1 = (true, st2) ->
             ids_assigned (contacts st1) ->
             (forall c, c ∈ contacts st1 ->
                        c ∈ contacts st \/ createdAt c = ValidDate (new_date e 0)
                        \/ exists o, o ∈ contacts st /\ createdAt c = createdAt o) ->
             contacts (ContactManager_new e' (localStorage st2)) = contacts st2) as Hload.
  { intros st1 st2 Hsave Hids1 Hfrom.
    pose proof (saveToStorage_contacts e st1) as Hc. rewrite Hsave in Hc. cbn [snd] in Hc.
    rewrite Hc. unfold ContactManager_new.
    apply (load_saved e e' st1 st2 Hsave Hids1); [|reflexivity].
    intros c ms Hin Hms. apply Hdates.
    destruct (Hfrom c Hin) as [H|[H|(o & Ho & H)]].
    - right. eauto.
    - left. congruence.
    - right. exists o. split; [exact Ho|congruence]. }
  split; [|split].
  - intros contactData r st' Hadd Hok.
    destruct (hasDuplicate (contacts st) (Some (o_name contactData))
                           (Some (o_category contactData)) None) eqn:Hdup;
      [unfold addContact in Hadd; rewrite Hdup in Hadd; injection Hadd as <- <-;
       discriminate Hok|].
    destruct (addContact_run e contactData st Hdup) as ([|] & st2 & Hsave & Hc & Hr);
      rewrite Hr in Hadd; injection Hadd as <- <-; [|discriminate Hok].
    apply (Hload _ _ Hsave); cbn [contacts with_contacts]; unfold push.
    + apply Forall_app. split; [exact Hids|]. apply Forall_singleton, Contact_new_id.
    + intros c Hin. apply elem_of_app in Hin as [Hin|Hin]; [left; exact Hin|].
      apply list_elem_of_singleton in Hin as ->. right. left. reflexivity.
  - intros i updatedData r st' Hupd Hok.
    destruct (updateContact_cases e i updatedData st)
      as [[_ Hr]|(k & original & _ & Hk & _
                  & [[_ Hr]|[_ [[_ Hr]|[_ ([|] & st2 & Hsave & Hc & Hr)]]]])];
      rewrite Hr in Hupd; try discriminate Hupd;
      injection Hupd as <- <-; try discriminate Hok.
    apply (Hload _ _ Hsave); cbn [contacts with_contacts].
    + apply Forall_insert; [exact Hids|apply updated_id].
    + intros c Hin. apply list_elem_of_lookup in Hin as [j Hj].
      destruct (decide (j = k)) as [->|Hne].
      * rewrite list_lookup_insert_eq in Hj by (eapply lookup_lt_Some, Hk).
        injection Hj as <-. right. right. exists original.
        split; [eapply list_elem_of_lookup_2, Hk|reflexivity].
      * rewrite list_lookup_insert_ne in Hj by congruence.
        left. eapply list_elem_of_lookup_2, Hj.
  - intros i r st' Hdel Hok.
    destruct (deleteContact_cases e i st)
      as [[_ Hr]|(k & deleted & [|] & st2 & _ & Hk & _ & Hsave & Hc & Hr)];
      rewrite Hr in Hdel; injection Hdel as <- <-; try discriminate Hok.
    apply (Hload _ _ Hsave); cbn [contacts with_contacts].
    + unfold ids_assigned in *. apply Forall_app.
      split; [apply Forall_take, Hids|apply Forall_drop, Hids].
    + intros c Hin. left. apply elem_of_app in Hin as [Hin|Hin].
      * eapply subseteq_take, Hin.
      * eapply subseteq_drop, Hin.
Qed.

(** X25. When the storage has accepted the collection and a listener then
    throws, [saveToStorage] returns false: [addContact] answers
    保存失败 and takes the new contact out of the collection again, but
    the storage holds the collection with the new contact, and the next
    load brings it back. *)
Theorem failing_listener_keeps_the_write e e' (contactData : ContactOptions) st
    (items : list JValue) :
  hasDuplicate (contacts st) (Some (o_name contactData)) (Some (o_category contactData)) None
  = false ->
  toJSON_all (contacts st ++ [Contact_new e 0 contactData]) = Return items ->
  fst (encryptAndStore e (js "contacts") (JArr items) (localStorage st)) = true ->
  forallb (fun callback => callback (contacts st ++ [Contact_new e 0 contactData]))
          (listeners st) = false ->
  fst (addContact e contactData st) = failure MsgSaveFailed
  /\ contacts (snd (addContact e contactData st)) = contacts st
  /\ length (contacts (ContactManager_new e' (localStorage (snd (addContact e contactData st)))))
     = S (length (contacts st))
  /\ exists loaded,
      last (contacts (ContactManager_new e' (localStorage (snd (addContact e contactData st)))))
      = Some loaded
      /\ name loaded = o_name contactData /\ phone loaded = o_phone contactData
      /\ address loaded = o_address contactData /\ category loaded = o_category contactData.
Proof.
  intros Hdup Hitems Hstore Hthrow.
  set (c := Contact_new e 0 contactData) in *.
  destruct (encryptAndStore e (js "contacts") (JArr items) (localStorage st))
    as [ok sto2] eqn:Hes. cbn [fst] in Hstore. subst ok.
  assert (addContact e contactData st
          = (failure MsgSaveFailed, with_storage st sto2)) as Hadd.
  { unfold addContact. rewrite Hdup. fold c. unfold saveToStorage.
    cbn [contacts with_contacts localStorage]. unfold push. rewrite Hitems, Hes.
    unfold notifyListeners. cbn [contacts listeners with_storage with_contacts].
    rewrite Hthrow. cbn [contacts with_contacts with_storage]. f_equal.
    unfold pop. rewrite removelast_last. destruct st; reflexivity. }
  rewrite Hadd. cbn [fst snd contacts with_storage localStorage].
  split; [reflexivity|]. split; [reflexivity|].
  destruct (toJSON_all_plain _ _ Hitems) as [Hplain Hvalid].
  destruct (toJSON_all_items _ _ Hitems) as [Hlen Hk].
  rewrite length_app in Hlen. cbn [length] in Hlen.
  unfold ContactManager_new.
  pose proof (load_after_store e e' items (localStorage st) sto2
                {| contacts := []; listeners := []; localStorage := sto2 |}
                Hplain Hvalid Hes eq_refl) as Hload.
  destruct (load_items_lookup _ _ _ _ Hload) as [Hlength Hentries].
  split; [rewrite Hlength; lia|].
  destruct (Hk (length (contacts st)) c) as (item & Hitem & Hjson).
  { rewrite lookup_app_r by lia. rewrite Nat.sub_diag. reflexivity. }
  destruct (Hentries _ _ Hitem) as (loaded & Hlast & Hloaded).
  destruct (toJSON_load e' (0 + length (contacts st)) c item Hjson)
    as (loaded' & Hloaded' & Hf).
  assert (loaded' = loaded) as -> by congruence.
  exists loaded. split; [|tauto].
  rewrite last_lookup, Hlength, Hlen.
  replace (Init.Nat.pred (length (contacts st) + 1)) with (length (contacts st)) by lia.
  exact Hlast.
Qed.

End RoundTrips.
(** ** The exported file and the list of cards *)

Section CsvFile.
Context `{P : Platform}.
Implicit Types (e : Entropy) (st : State) (s : jsstring).

#[local] Abbreviation well_formed_text s := (Utf8.well_formed (map charCode s) = true).

Lemma well_formed_app (a b : list N) :
  Utf8.well_formed a = true -> Utf8.well_formed b = true -> Utf8.well_formed (a ++ b) = true.
Proof.
  intros Ha Hb. revert a Ha.
  refine (well_formed_ind _ _ _ _); [exact Hb|intros c s Hh Hl _ IH|intros c d s Hh Hl _ IH].
  - cbn. rewrite Hh, Hl. exact IH.
  - cbn. rewrite Hh, Hl. exact IH.
Qed.

Lemma well_formed_text_app s t :
  well_formed_text s -> well_formed_text t -> well_formed_text (s ++ t).
Proof. intros Hs Ht. rewrite map_app. apply well_formed_app; assumption. Qed.

Lemma well_formed_join (sep : jsstring) (l : list jsstring) :
  well_formed_text sep -> Forall (fun s => well_formed_text s) l ->
  well_formed_text (join sep l).
Proof.
  intros Hsep. induction 1 as [|x l Hx Hl IH]; [reflexivity|].
  destruct l as [|y l]; [exact Hx|].
  change (join sep (x :: y :: l)) with (x ++ sep ++ join sep (y :: l)).
  repeat apply well_formed_text_app; assumption.
Qed.

Lemma filterContacts_category st (category_ : jsstring) :
  (if bool_decide (category_ = js "all") then contacts st
   else List.filter (fun c => bool_decide (category c = category_)) (contacts st))
  = filterContacts st category_ [].
Proof.
  unfold filterContacts. rewrite (bool_decide_eq_true_2 ([] = [])) by reflexivity.
  case_bool_decide as Hall; cbn [orb]; [|reflexivity].
  symmetry. apply forallb_filter_id. apply forallb_forall. reflexivity.
Qed.

(** X26. [exportToCSV] exports what the list shows for the category without a
    keyword, in the same order: it returns false and offers no file
    exactly when that list is empty, and the file it offers otherwise is
    the byte order mark followed by the UTF-8 bytes of the table of these
    contacts. *)
Theorem exportToCSV_exports_the_list e (category_ : jsstring) st :
  fst (exportToCSV e category_ st) = negb (bool_decide (filterContacts st category_ [] = []))
  /\ (snd (exportToCSV e category_ st) = None <-> filterContacts st category_ [] = [])
  /\ (forall file,
         snd (exportToCSV e category_ st) = Some file ->
         blob file
         = [xef; xbb; xbf] ++ Utf8.encode (csvContent (filterContacts st category_ []))).
Proof.
  unfold exportToCSV. rewrite filterContacts_category.
  destruct (filterContacts st category_ []) as [|c shown].
  - cbn. repeat split; try done.
  - rewrite (bool_decide_eq_false_2 (length (c :: shown) = 0%nat)) by discriminate.
    rewrite (bool_decide_eq_false_2 (c :: shown = [])) by discriminate.
    cbn [fst snd negb]. split; [reflexivity|]. split; [split; discriminate|].
    intros file [= <-]. reflexivity.
Qed.

Lemma decode_marked_text s :
  well_formed_text s -> Utf8.decode ([xef; xbb; xbf] ++ Utf8.encode s) = s.
Proof.
  intros Hwf.
  assert (Forall (fun c => c < 65536) (map charCode s)) as Hunits.
  { apply Forall_map, Forall_forall. intros c _. apply charCode_bounded. }
  destruct (code_points_well_formed _ Hwf Hunits) as [Hsc Hback].
  unfold Utf8.decode, Utf8.encode. rewrite map_app.
  change (map Byte.to_N [xef; xbb; xbf]) with [0xEF; 0xBB; 0xBF].
  change (Utf8.strip_bom ([0xEF; 0xBB; 0xBF] ++ ?l)) with l.
  rewrite map_to_N_byte_of_N.
  - rewrite decode_encode_cps by exact Hsc.
    rewrite Hback. apply map_fromCharCode_charCode.
  - apply Forall_flat_map. eapply Forall_impl; [exact Hsc|].
    intros cp [Hcp _]. apply encode_cp_bytes, Hcp.
Qed.

Lemma split_piece (sep : N) (a rest : jsstring) (c : char16) :
  Forall (fun ch => charCode ch <> sep) a -> charCode c = sep ->
  split sep a = [a] /\ split sep (a ++ c :: rest) = a :: split sep rest.
Proof.
  intros Ha Hc. induction Ha as [|x a Hx _ [IH1 IH2]].
  - split; [reflexivity|]. cbn. rewrite (proj2 (N.eqb_eq _ _) Hc). reflexivity.
  - cbn. rewrite (proj2 (N.eqb_neq _ _) Hx), IH1, IH2. split; reflexivity.
Qed.

(** [split] inverts [join] when no piece holds the separator. *)
Lemma split_join (sep : N) (c : char16) (pieces : list jsstring) :
  charCode c = sep -> pieces <> [] ->
  Forall (fun piece => Forall (fun ch => charCode ch <> sep) piece) pieces ->
  split sep (join [c] pieces) = pieces.
Proof.
  intros Hc Hne Hp. induction Hp as [|x l Hx Hl IH]; [contradiction|].
  destruct l as [|y l]; [apply (split_piece sep x [] c Hx Hc)|].
  change (join [c] (x :: y :: l)) with (x ++ c :: join [c] (y :: l)).
  rewrite (proj2 (split_piece sep x _ c Hx Hc)), IH by discriminate. reflexivity.
Qed.

Lemma Forall_join {Q : char16 -> Prop} (sep : jsstring) (l : list jsstring) :
  Forall Q sep -> Forall (fun s => Forall Q s) l -> Forall Q (join sep l).
Proof.
  intros Hsep. induction 1 as [|x l Hx Hl IH]; [constructor|].
  destruct l as [|y l]; [exact Hx|].
  change (join sep (x :: y :: l)) with (x ++ sep ++ join sep (y :: l)).
  repeat apply Forall_app_2; assumption.
Qed.

Lemma csvContent_well_formed (cs : list Contact) :
  Forall well_formed_fields cs -> well_formed_text (csvContent cs).
Proof.
  intros Hcs. unfold csvContent. apply well_formed_join; [reflexivity|].
  constructor; [reflexivity|]. apply Forall_map, Forall_map.
  eapply Forall_impl; [exact Hcs|]. intros c Hc.
  apply well_formed_join; [reflexivity|].
  change (csvRow c) with (map quoted (fields c)). apply Forall_map.
  eapply Forall_impl; [exact Hc|]. intros s Hs. unfold quoted.
  repeat apply well_formed_text_app; try reflexivity. exact Hs.
Qed.

Lemma csvContent_lines (cs : list Contact) :
  Forall single_line_fields cs ->
  split 10 (csvContent cs)
  = join (js ",") csvHeaders :: map (fun c => join (js ",") (map quoted (fields c))) cs.
Proof.
  intros Hcs. unfold csvContent.
  change (units [10]) with [fromCharCode 10].
  rewrite (split_join 10 (fromCharCode 10)); [|reflexivity|discriminate|].
  - rewrite map_map. reflexivity.
  - constructor.
    + apply (bool_decide_unpack (Forall _ _)). vm_compute. exact I.
    + apply Forall_map, Forall_map. eapply Forall_impl; [exact Hcs|]. intros c Hc.
      apply Forall_join; [repeat constructor; discriminate|].
      change (csvRow c) with (map quoted (fields c)). apply Forall_map.
      eapply Forall_impl; [exact Hc|]. intros s Hs. unfold quoted.
      repeat apply Forall_app_2; try exact Hs; repeat constructor; discriminate.
Qed.

(** X27. Read as UTF-8, the exported file is a table with one line for each
    exported contact after the line of the four headers, in the order of
    the collection; a line holds the name, the phone, the address and the
    category between double quotes, with commas between them.  This
    needs fields without a line feed (a field is written as it is, with
    no escape) and without a surrogate that stands alone. *)
Theorem exported_file_has_one_line_per_contact e (category_ : jsstring) st :
  filterContacts st category_ [] <> [] ->
  Forall well_formed_fields (filterContacts st category_ []) ->
  Forall single_line_fields (filterContacts st category_ []) ->
  exists file,
    exportToCSV e category_ st = (true, Some file)
    /\ split 10 (Utf8.decode (blob file))
       = join (js ",") csvHeaders
         :: map (fun c => join (js ",") (map quoted (fields c)))
                (filterContacts st category_ []).
Proof.
  intros Hne Hwf Hlines. unfold exportToCSV. rewrite filterContacts_category.
  rewrite bool_decide_eq_false_2
    by (intros Hlen; apply Hne; destruct (filterContacts st category_ []);
        [reflexivity|discriminate Hlen]).
  eexists. split; [reflexivity|]. cbn [blob].
  rewrite decode_marked_text by apply csvContent_well_formed, Hwf.
  apply csvContent_lines, Hlines.
Qed.

End CsvFile.

Section Sorting.
Context {A : Type} (comparefn : A -> A -> Z) (valid : A -> Prop) (key : A -> Z).
Hypothesis comparefn_key :
  forall a b, valid a -> valid b -> (0 <? comparefn a b)%Z = (key b <? key a)%Z.

Lemma sort_insert_Permutation x (l : list A) : sort_insert comparefn x l ≡ₚ x :: l.
Proof.
  induction l as [|y l IH]; [reflexivity|]. cbn.
  destruct (0 <? comparefn x y)%Z; [|reflexivity].
  rewrite IH. apply Permutation_swap.
Qed.

Lemma sort_Permutation (l : list A) : sort comparefn l ≡ₚ l.
Proof.
  induction l as [|x l IH]; [reflexivity|].
  change (sort comparefn (x :: l)) with (sort_insert comparefn x (sort comparefn l)).
  rewrite sort_insert_Permutation, IH. reflexivity.
Qed.

Lemma sort_insert_sorted x (l : list A) :
  valid x -> Forall valid l ->
  StronglySorted (fun a b => (key a <= key b)%Z) l ->
  StronglySorted (fun a b => (key a <= key b)%Z) (sort_insert comparefn x l).
Proof.
  intros Hx Hl Hs. induction Hs as [|y l Hs IH Hy]; [repeat constructor|].
  apply Forall_cons in Hl as [Hvy Hl]. cbn. rewrite (comparefn_key x y Hx Hvy).
  destruct (Z.ltb_spec (key y) (key x)) as [Hlt|Hge].
  - constructor; [apply IH, Hl|].
    rewrite sort_insert_Permutation. constructor; [lia|exact Hy].
  - constructor; [constructor; assumption|].
    constructor; [exact Hge|]. eapply Forall_impl; [exact Hy|]. intros z Hz. cbn in Hz. lia.
Qed.

Lemma sort_sorted (l : list A) :
  Forall valid l -> StronglySorted (fun a b => (key a <= key b)%Z) (sort comparefn l).
Proof.
  induction 1 as [|x l Hx Hl IH]; [constructor|].
  change (sort comparefn (x :: l)) with (sort_insert comparefn x (sort comparefn l)).
  apply sort_insert_sorted; [exact Hx| |exact IH].
  rewrite sort_Permutation. exact Hl.
Qed.

Lemma sort_insert_stable x (l : list A) (v : Z) :
  valid x -> Forall valid l ->
  List.filter (fun a => (key a =? v)%Z) (sort_insert comparefn x l)
  = List.filter (fun a => (key a =? v)%Z) (x :: l).
Proof.
  intros Hx Hl. induction Hl as [|y l Hy Hl IH]; [reflexivity|].
  cbn [sort_insert]. rewrite (comparefn_key x y Hx Hy).
  destruct (Z.ltb_spec (key y) (key x)) as [Hlt|Hge]; [|reflexivity].
  cbn [List.filter] in *. rewrite IH.
  destruct (Z.eqb_spec (key y) v), (Z.eqb_spec (key x) v); try reflexivity. lia.
Qed.

Lemma sort_stable (l : list A) (v : Z) :
  Forall valid l ->
  List.filter (fun a => (key a =? v)%Z) (sort comparefn l)
  = List.filter (fun a => (key a =? v)%Z) l.
Proof.
  induction 1 as [|x l Hx Hl IH]; [reflexivity|].
  change (sort comparefn (x :: l)) with (sort_insert comparefn x (sort comparefn l)).
  rewrite sort_insert_stable; [|exact Hx|].
  - cbn [List.filter]. rewrite IH. reflexivity.
  - rewrite sort_Permutation. exact Hl.
Qed.

End Sorting.

Section Cards.
Context `{P : Platform}.
Implicit Types (st : State) (c : Contact).

Lemma compare_created_key (currentSortOrder : jsstring) a b :
  createdAt a <> InvalidDate -> createdAt b <> InvalidDate ->
  (0 <? compare_created currentSortOrder a b)%Z
  = (sort_key currentSortOrder b <? sort_key currentSortOrder a)%Z.
Proof.
  unfold compare_created, sort_key, getTime. intros Ha Hb.
  destruct (createdAt a) as [ta|]; [|contradiction].
  destruct (createdAt b) as [tb|]; [|contradiction].
  case_bool_decide;
    destruct (Z.ltb_spec 0 (tb - ta)), (Z.ltb_spec 0 (ta - tb));
    destruct (Z.ltb_spec (- tb) (- ta)), (Z.ltb_spec tb ta); try reflexivity; lia.
Qed.

(** X28. [render] shows the contacts that [filterContacts] returns for the
    category and the keyword, each on one card and no other: the notice
    of an empty list appears exactly when there is none; the cards are
    in the order of their creation time, newest first for 'desc' and
    oldest first otherwise, and contacts of the same time keep the order
    of the collection.  (All creation dates are taken to be valid.) *)
Theorem render_orders_the_filtered st (currentCategory currentKeyword currentSortOrder : jsstring) :
  Forall (fun c => createdAt c <> InvalidDate) (contacts st) ->
  let found := filterContacts st currentCategory currentKeyword in
  match render st currentCategory currentKeyword currentSortOrder with
  | EmptyMessage _ => found = []
  | Cards shown =>
    found <> []
    /\ shown ≡ₚ found
    /\ (forall i j a b, (i < j)%nat -> shown !! i = Some a -> shown !! j = Some b ->
                        in_order currentSortOrder a b)
    /\ (forall d, List.filter (fun c => bool_decide (createdAt c = d)) shown
                  = List.filter (fun c => bool_decide (createdAt c = d)) found)
  end.
Proof.
  intros Hvalid found. unfold render. fold found.
  assert (Forall (fun c => createdAt c <> InvalidDate) found) as Hfound.
  { apply Forall_forall. intros c Hc. rewrite Forall_forall in Hvalid. apply Hvalid.
    apply list_elem_of_In. apply list_elem_of_In, List.filter_In in Hc. tauto. }
  pose proof (sort_Permutation (compare_created currentSortOrder) found) as Hperm.
  pose proof (sort_sorted (compare_created currentSortOrder) _ (sort_key currentSortOrder)
                (compare_created_key currentSortOrder) found Hfound) as Hsorted.
  pose proof (fun v => sort_stable (compare_created currentSortOrder) _
                         (sort_key currentSortOrder)
                         (compare_created_key currentSortOrder) found v Hfound) as Hstable.
  set (shown := sort (compare_created currentSortOrder) found) in *.
  case_bool_decide as Hlen.
  - apply Permutation_length in Hperm. rewrite Hlen in Hperm.
    destruct found; [reflexivity|discriminate Hperm].
  - split; [intros Hnil; apply Hlen; rewrite Hperm, Hnil; reflexivity|].
    split; [exact Hperm|]. split.
    + intros i j a b Hij Ha Hb.
      assert (sort_key currentSortOrder a <= sort_key currentSortOrder b)%Z as Hle.
      { clear -Hsorted Hij Ha Hb. revert i j Hij Ha Hb.
        induction Hsorted as [|x l Hs IH Hx]; intros i j Hij Ha Hb; [done|].
        destruct j as [|j]; [lia|]. cbn in Hb. destruct i as [|i].
        - cbn in Ha. injection Ha as ->. rewrite Forall_forall in Hx.
          apply Hx. eapply list_elem_of_lookup_2, Hb.
        - cbn in Ha. apply (IH i j); [lia|assumption|assumption]. }
      assert (createdAt a <> InvalidDate /\ createdAt b <> InvalidDate) as [Hva Hvb].
      { assert (Forall (fun c => createdAt c <> InvalidDate) shown) as Hs
          by (rewrite Hperm; exact Hfound).
        rewrite Forall_forall in Hs.
        split; apply Hs; eapply list_elem_of_lookup_2; eassumption. }
      unfold in_order. unfold sort_key in Hle.
      destruct (createdAt a) as [ta|]; [|contradiction].
      destruct (createdAt b) as [tb|]; [|contradiction].
      case_bool_decide; lia.
    + intros [ms|].
      * set (v := if bool_decide (currentSortOrder = js "desc") then (- ms)%Z else ms).
        assert (forall l, Forall (fun c => createdAt c <> InvalidDate) l ->
                          List.filter (fun c => bool_decide (createdAt c = ValidDate ms)) l
                          = List.filter (fun c => (sort_key currentSortOrder c =? v)%Z) l)
          as Hsame.
        { intros l Hl. apply List.filter_ext_in. intros c Hc.
          rewrite Forall_forall in Hl. specialize (Hl c (proj2 (list_elem_of_In _ _) Hc)).
          unfold sort_key, v. destruct (createdAt c) as [t|]; [|contradiction].
          destruct (bool_decide (currentSortOrder = js "desc"));
            case_bool_decide as Heq; symmetry;
            [apply Z.eqb_eq|apply Z.eqb_neq|apply Z.eqb_eq|apply Z.eqb_neq];
            try (injection Heq as ->; reflexivity);
            intros Ht; apply Heq; f_equal; lia. }
        rewrite !Hsame by (try rewrite Hperm; exact Hfound). apply Hstable.
      * assert (forall l, Forall (fun c => createdAt c <> InvalidDate) l ->
                          List.filter (fun c => bool_decide (createdAt c = InvalidDate)) l = [])
          as Hnone.
        { induction 1 as [|c l Hc _ IH]; [reflexivity|]. cbn.
          rewrite bool_decide_eq_false_2 by exact Hc. exact IH. }
        rewrite !Hnone by (try rewrite Hperm; exact Hfound). reflexivity.
Qed.

End Cards.

(** ** The operations on the sample data *)

#[local] Existing Instance ref_host_laws.

(** C1, on a browser whose storage is full. *)
Lemma rollback_witness :
  (fst (addContact Sample.refused Sample.wang Sample.two) = failure MsgSaveFailed
   /\ contacts (snd (addContact Sample.refused Sample.wang Sample.two)) = contacts Sample.two)
  /\ (fst (updateContact Sample.refused (js "a2") Sample.new_phone Sample.two)
      = Return (failure MsgUpdateFailed)
      /\ contacts (snd (updateContact Sample.refused (js "a2") Sample.new_phone Sample.two))
         = contacts Sample.two)
  /\ (fst (deleteContact Sample.refused (js "a1") Sample.two) = failure MsgDeleteFailed
      /\ contacts (snd (deleteContact Sample.refused (js "a1") Sample.two))
         = contacts Sample.two
      /\ contacts (snd (deleteContact Sample.refused (js "a1") Sample.two)) !! 0%nat
         = Some (Sample.record "a1" Sample.zhang 1690000000000)).
Proof.
  destruct (rollback_on_persistence_failure Sample.refused Sample.two) as (Hadd & Hupd & Hdel).
  split; [|split].
  - apply Hadd; vm_compute; reflexivity.
  - apply (Hupd (js "a2") Sample.new_phone 1%nat (Sample.record "a2" Sample.li 1690000000001));
      try (vm_compute; reflexivity). discriminate.
  - apply (Hdel (js "a1") 0%nat); vm_compute; reflexivity.
Defined.

(** C10, on the two contacts of the example. *)
Lemma update_witness :
  exists k original changed,
    contacts Sample.two !! k = Some original
    /\ id original = js "a2"
    /\ contact (succeeded (updated Sample.first (Sample.record "a2" Sample.li 1690000000001)
                                   Sample.new_phone)) = Some changed
    /\ contacts (snd (updateContact Sample.first (js "a2") Sample.new_phone Sample.two))
       = <[k := changed]> (contacts Sample.two)
    /\ length (contacts (snd (updateContact Sample.first (js "a2") Sample.new_phone Sample.two)))
       = length (contacts Sample.two)
    /\ (forall j, j <> k ->
                  contacts (snd (updateContact Sample.first (js "a2") Sample.new_phone Sample.two))
                  !! j = contacts Sample.two !! j)
    /\ contacts (snd (updateContact Sample.first (js "a2") Sample.new_phone Sample.two)) !! k
       = Some changed
    /\ id changed = id original
    /\ createdAt changed = createdAt original
    /\ name changed = default (name original) (p_name Sample.new_phone)
    /\ phone changed = default (phone original) (p_phone Sample.new_phone)
    /\ address changed = default (address original) (p_address Sample.new_phone)
    /\ category changed = default (category original) (p_category Sample.new_phone).
Proof.
  apply (update_changes_only_the_target Sample.first (js "a2") Sample.new_phone Sample.two).
  - repeat constructor; discriminate.
  - reflexivity.
  - vm_compute. reflexivity.
  - reflexivity.
Defined.

(** C2. On a collection without duplicates and with distinct ids,
    updateContact with a request that names the category alone passes the
    duplicate check (the check reads the name of the request, which is
    undefined), succeeds, and leaves two contacts with the same name and
    the same category. *)
Theorem partial_update_breaks_uniqueness :
  unique_name_category (contacts Sample.namesakes)
  /\ NoDup (map id (contacts Sample.namesakes))
  /\ hasDuplicate (contacts Sample.namesakes) (p_name Sample.to_office)
                  (p_category Sample.to_office) (Some (js "a2")) = false
  /\ fst (updateContact Sample.first (js "a2") Sample.to_office Sample.namesakes)
     = Return (succeeded (updated Sample.first
                            {| id := js "a2"; name := o_name Sample.zhang;
                               phone := o_phone Sample.li; address := o_address Sample.li;
                               category := o_category Sample.li;
                               createdAt := ValidDate 1690000000001 |}
                            Sample.to_office))
  /\ map (fun c => (name c, category c))
         (contacts (snd (updateContact Sample.first (js "a2") Sample.to_office Sample.namesakes)))
     = [(o_name Sample.zhang, o_category Sample.zhang);
        (o_name Sample.zhang, o_category Sample.zhang)]
  /\ ~ unique_name_category
       (contacts (snd (updateContact Sample.first (js "a2") Sample.to_office Sample.namesakes))).
Proof.
  split; [|split; [|split; [|split; [|split]]]].
  - intros [|[|i]] [|[|j]] a b Ha Hb Hn Hc; cbn in Ha, Hb; try done;
      injection Ha as <-; injection Hb as <-; discriminate Hc.
  - apply (bool_decide_unpack (NoDup _)). vm_compute. exact I.
  - vm_compute. reflexivity.
  - vm_compute. reflexivity.
  - vm_compute. reflexivity.
  - intros Hu.
    assert (0 = 1)%nat as H; [|discriminate H].
    eapply Hu; vm_compute; reflexivity.
Qed.

(** C3: [addContact] accepts a request with empty fields. *)
Lemma addContact_accepts_blank :
  o_name Sample.blank = [] /\ o_phone Sample.blank = [] /\ o_address Sample.blank = []
  /\ success (fst (addContact Sample.first Sample.blank Sample.empty)) = true
  /\ error (fst (addContact Sample.first Sample.blank Sample.empty)) = None
  /\ map (fun c => (name c, phone c, address c))
         (contacts (snd (addContact Sample.first Sample.blank Sample.empty)))
     = [([], [], [])].
Proof. repeat split; vm_compute; reflexivity. Qed.

(** C3, for a phone number of six digits. *)
Lemma form_witness :
  exists reason,
    validateForm {| o_id := None; o_name := o_name Sample.li; o_phone := js "123456";
                    o_address := o_address Sample.li; o_category := o_category Sample.li |}
    = (false, Some reason)
    /\ handleSubmit Sample.first None (o_name Sample.li) (js "123456") (o_address Sample.li)
                    (o_category Sample.li) Sample.two
       = (Rejected (Some reason), Sample.two).
Proof.
  apply (form_rejects_invalid_input Sample.first None (o_name Sample.li) (js "123456")
           (o_address Sample.li) (o_category Sample.li) Sample.two).
  right. right. right. vm_compute. lia.
Defined.

(** C4: the byte order mark does not come back. *)
Lemma roundtrip_drops_the_mark :
  fst (getKey Sample.first ∅) = Some [x2a; x17; xc3]
  /\ fst (decrypt Sample.second (fst (encrypt Sample.first Sample.marked ∅))
                  (snd (encrypt Sample.first Sample.marked ∅))) = js "a"
  /\ fst (decrypt Sample.second (fst (encrypt Sample.first Sample.marked ∅))
                  (snd (encrypt Sample.first Sample.marked ∅))) <> Sample.marked.
Proof.
  split; [vm_compute; reflexivity|].
  assert (fst (decrypt Sample.second (fst (encrypt Sample.first Sample.marked ∅))
                       (snd (encrypt Sample.first Sample.marked ∅))) = js "a") as H
    by (vm_compute; reflexivity).
  split; [exact H|]. rewrite H. discriminate.
Qed.

(** The same on every host: with a key, [decrypt] after [encrypt] drops a
    leading U+FEFF and replaces a surrogate that stands alone. *)
Lemma roundtrip_changes_text `{P : Platform} {L : PlatformLaws P}
    (e e' : Entropy) (sto : Storage) (key : CryptoKey) (sealed sealed' : Uint8Array) :
  fst (getKey e sto) = Some key ->
  subtle_encrypt key (generateIV e) (Utf8.encode Sample.marked) = Some sealed ->
  subtle_encrypt key (generateIV e) (Utf8.encode Sample.lone) = Some sealed' ->
  (N.of_nat (length (generateIV e ++ sealed)) <= max_arguments)%N ->
  (N.of_nat (length (generateIV e ++ sealed')) <= max_arguments)%N ->
  fst (decrypt e' (fst (encrypt e Sample.marked sto)) (snd (encrypt e Sample.marked sto)))
  = js "a"
  /\ fst (decrypt e' (fst (encrypt e Sample.lone sto)) (snd (encrypt e Sample.lone sto)))
     = units [0xFFFD].
Proof.
  intros Hk Hsealed Hsealed' Hfits Hfits'.
  rewrite (decrypt_encrypt_text e e' _ sto key sealed Hk Hsealed Hfits).
  rewrite (decrypt_encrypt_text e e' _ sto key sealed' Hk Hsealed' Hfits').
  split; vm_compute; reflexivity.
Qed.

Lemma entries_plain : Forall plain_object Sample.entries.
Proof.
  repeat (constructor;
          [split; [apply (bool_decide_unpack (NoDup _)); vm_compute; exact I
                  |repeat (constructor; [split; reflexivity|]); constructor]|]).
  constructor.
Qed.

(** C4, on the text of a contact's name, with and without Web Crypto, and
    on the text of the entries in an engine whose calls take forty
    arguments. *)
Lemma roundtrip_witness :
  (@arrayBufferToBase64 Ref.browser
     (generateIV Sample.first
      ++ default [] (@subtle_encrypt Ref.browser [x2a; x17; xc3] (generateIV Sample.first)
                       (Utf8.encode (o_name Sample.zhang))))
   = Some (fst (encrypt Sample.first (o_name Sample.zhang) ∅))
   /\ fst (decrypt Sample.second (fst (encrypt Sample.first (o_name Sample.zhang) ∅))
                   (snd (encrypt Sample.first (o_name Sample.zhang) ∅)))
      = o_name Sample.zhang)
  /\ (fst (encrypt Sample.plain (o_name Sample.zhang) ∅) = o_name Sample.zhang
      /\ fst (decrypt Sample.plain (fst (encrypt Sample.plain (o_name Sample.zhang) ∅))
                      (snd (encrypt Sample.plain (o_name Sample.zhang) ∅)))
         = o_name Sample.zhang)
  /\ fst (decrypt Sample.narrow_second
            (fst (encrypt Sample.narrow_first (Ref.stringify (JArr Sample.entries)) ∅))
            (snd (encrypt Sample.narrow_first (Ref.stringify (JArr Sample.entries)) ∅)))
     = Ref.stringify (JArr Sample.entries).
Proof.
  split; [|split].
  - apply (decrypt_encrypt_roundtrip Sample.first Sample.second (o_name Sample.zhang) ∅)
      with (key := [x2a; x17; xc3]).
    + vm_compute. reflexivity.
    + vm_compute. reflexivity.
    + vm_compute. reflexivity.
    + vm_compute. discriminate.
  - apply (decrypt_encrypt_roundtrip Sample.plain Sample.plain (o_name Sample.zhang) ∅);
      vm_compute; reflexivity.
  - apply (decrypt_encrypt_roundtrip Sample.narrow_first Sample.narrow_second
             (Ref.stringify (JArr Sample.entries)) ∅)
      with (items := Sample.entries); [exact entries_plain|reflexivity].
Defined.

(** In an engine whose calls take forty arguments, a text of six bytes is
    encrypted, and a text of sixteen is returned and stored as it is; two
    runs on it return the same text. *)
Example long_text_is_not_encrypted :
  fst (getKey Sample.narrow_first ∅) = Some [x2a; x17; xc3]
  /\ fst (encrypt Sample.narrow_first (o_name Sample.zhang) ∅) <> o_name Sample.zhang
  /\ fst (decrypt Sample.narrow_second
                  (fst (encrypt Sample.narrow_first (o_name Sample.zhang) ∅))
                  (snd (encrypt Sample.narrow_first (o_name Sample.zhang) ∅)))
     = o_name Sample.zhang
  /\ fst (encrypt Sample.narrow_first Sample.sixteen ∅) = Sample.sixteen
  /\ generateIV Sample.narrow_first <> generateIV Sample.narrow_second
  /\ fst (encrypt Sample.narrow_second Sample.sixteen
            (snd (encrypt Sample.narrow_first Sample.sixteen ∅)))
     = fst (encrypt Sample.narrow_first Sample.sixteen ∅).
Proof.
  split; [vm_compute; reflexivity|]. split; [vm_compute; discriminate|].
  split; [vm_compute; reflexivity|]. split; [vm_compute; reflexivity|].
  split; [vm_compute; discriminate|]. vm_compute. reflexivity.
Qed.

(** C6, on a text that is no base64 and on a truncated ciphertext. *)
Lemma decrypt_witness :
  fst (decrypt Sample.second (js "[1,2]") (localStorage Sample.saved)) = js "[1,2]"
  /\ fst (decrypt Sample.second
                  (default [] (Sample.truncated !! js "contacts")) Sample.truncated)
     = default [] (Sample.truncated !! js "contacts")
  /\ fst (decrypt Sample.plain (js "TWFu") ∅) = js "TWFu".
Proof.
  split; [|split].
  - apply (decrypt_fails_soft Sample.second (js "[1,2]") (localStorage Sample.saved))
      with (key := [x2a; x17; xc3]); vm_compute; [reflexivity|exact I].
  - apply (decrypt_fails_soft Sample.second _ Sample.truncated)
      with (key := [x2a; x17; xc3]); vm_compute; reflexivity.
  - apply (decrypt_fails_soft Sample.plain (js "TWFu") ∅). vm_compute. reflexivity.
Defined.

(** C8: both texts are mapped to the text without its mark. *)
Lemma second_run_drops_the_mark :
  fst (getKey Sample.first ∅) = Some [x2a; x17; xc3]
  /\ generateIV Sample.first <> generateIV Sample.second
  /\ fst (encrypt Sample.first Sample.marked ∅)
     <> fst (encrypt Sample.second Sample.marked (snd (encrypt Sample.first Sample.marked ∅)))
  /\ fst (decrypt Sample.second
                  (fst (encrypt Sample.second Sample.marked
                          (snd (encrypt Sample.first Sample.marked ∅))))
                  (snd (encrypt Sample.second Sample.marked
                          (snd (encrypt Sample.first Sample.marked ∅)))))
     <> Sample.marked.
Proof.
  split; [vm_compute; reflexivity|]. split; [vm_compute; discriminate|].
  split; [vm_compute; discriminate|]. vm_compute. discriminate.
Qed.

(** C8, on the text of a contact's name. *)
Lemma encrypt_twice_witness :
  fst (encrypt Sample.first (o_name Sample.zhang) ∅)
  <> fst (encrypt Sample.second (o_name Sample.zhang)
            (snd (encrypt Sample.first (o_name Sample.zhang) ∅)))
  /\ fst (decrypt Sample.first (fst (encrypt Sample.first (o_name Sample.zhang) ∅))
                  (snd (encrypt Sample.second (o_name Sample.zhang)
                          (snd (encrypt Sample.first (o_name Sample.zhang) ∅)))))
     = o_name Sample.zhang
  /\ fst (decrypt Sample.second
                  (fst (encrypt Sample.second (o_name Sample.zhang)
                          (snd (encrypt Sample.first (o_name Sample.zhang) ∅))))
                  (snd (encrypt Sample.second (o_name Sample.zhang)
                          (snd (encrypt Sample.first (o_name Sample.zhang) ∅)))))
     = o_name Sample.zhang.
Proof.
  apply (encrypt_twice Sample.first Sample.second Sample.first Sample.second
           (o_name Sample.zhang) ∅ [x2a; x17; xc3]
           (default [] (@subtle_encrypt Ref.browser [x2a; x17; xc3]
                          (generateIV Sample.first) (Utf8.encode (o_name Sample.zhang))))
           (default [] (@subtle_encrypt Ref.browser [x2a; x17; xc3]
                          (generateIV Sample.second) (Utf8.encode (o_name Sample.zhang))))).
  - vm_compute. reflexivity.
  - vm_compute. reflexivity.
  - vm_compute. discriminate.
  - vm_compute. reflexivity.
  - vm_compute. reflexivity.
  - vm_compute. discriminate.
  - vm_compute. discriminate.
Defined.

(** C5, on 王五 added to the two contacts of the example. *)
Lemma add_then_load_witness :
  exists added loaded,
    contact (fst (addContact Sample.first Sample.wang Sample.two)) = Some added
    /\ last (contacts (ContactManager_new Sample.second
                         (localStorage (snd (addContact Sample.first Sample.wang Sample.two)))))
       = Some loaded
    /\ length (contacts (ContactManager_new Sample.second
                           (localStorage (snd (addContact Sample.first Sample.wang Sample.two)))))
       = length (contacts (snd (addContact Sample.first Sample.wang Sample.two)))
    /\ id loaded = id added
    /\ name loaded = o_name Sample.wang
    /\ phone loaded = o_phone Sample.wang
    /\ address loaded = o_address Sample.wang
    /\ category loaded = o_category Sample.wang.
Proof.
  apply (add_then_load Sample.first Sample.second Sample.wang Sample.two
           (fst (addContact Sample.first Sample.wang Sample.two))
           (snd (addContact Sample.first Sample.wang Sample.two))
           {| contacts := []; listeners := [];
              localStorage := localStorage (snd (addContact Sample.first Sample.wang Sample.two)) |}).
  - now destruct (addContact Sample.first Sample.wang Sample.two).
  - vm_compute. reflexivity.
  - reflexivity.
Defined.

(** C7, on the stored text cut after twenty characters. *)
Lemma corrupt_storage_witness :
  contacts (ContactManager_new Sample.second Sample.truncated) = []
  /\ (forall st, localStorage st = Sample.truncated -> contacts st = [] ->
                 contacts (loadFromStorage Sample.second st) = [])
  /\ (forall st, localStorage st = Sample.truncated ->
                 (contacts (loadFromStorage Sample.second st) = []
                  \/ contacts (loadFromStorage Sample.second st) = contacts st)
                 /\ (@JSON_parse Ref.browser
                       (take 20 (default [] (localStorage Sample.saved !! js "contacts")))
                     = None ->
                     contacts (loadFromStorage Sample.second st) = contacts st)).
Proof.
  apply (corrupt_storage_loads_empty Sample.second Sample.truncated
           (take 20 (default [] (localStorage Sample.saved !! js "contacts")))).
  - vm_compute. reflexivity.
  - apply (bool_decide_unpack (Forall _ _)). vm_compute. exact I.
  - intros key Hk. vm_compute in Hk. injection Hk as <-. vm_compute. reflexivity.
Defined.

(** C7: a manager that holds the two contacts loads the text that was
    cut, which does not decrypt, and still holds the two contacts. *)
Lemma corrupt_load_keeps_the_contacts :
  localStorage Sample.holding !! js "contacts"
  = Some (take 20 (default [] (localStorage Sample.saved !! js "contacts")))
  /\ take 20 (default [] (localStorage Sample.saved !! js "contacts"))
     <> default [] (localStorage Sample.saved !! js "contacts")
  /\ fst (getKey Sample.second (localStorage Sample.holding)) = Some [x2a; x17; xc3]
  /\ @decryption_fails Ref.browser [x2a; x17; xc3]
       (take 20 (default [] (localStorage Sample.saved !! js "contacts")))
  /\ contacts (loadFromStorage Sample.second Sample.holding) = contacts Sample.two
  /\ contacts (loadFromStorage Sample.second Sample.holding) <> [].
Proof.
  split; [vm_compute; reflexivity|]. split; [vm_compute; discriminate|].
  split; [vm_compute; reflexivity|]. split; [vm_compute; reflexivity|].
  assert (contacts (loadFromStorage Sample.second Sample.holding) = contacts Sample.two) as H
    by (vm_compute; reflexivity).
  split; [exact H|]. rewrite H. discriminate.
Qed.

(** The search of the example: by an address, by the start of a phone
    number, by category, and by a name in another category. *)
Example search_example :
  let search := @filterContacts Ref.browser Sample.two in
  search (js "all") (units [31185; 25216])
  = [Sample.record "a1" Sample.zhang 1690000000000]
  /\ search (js "all") (js "138")
     = [Sample.record "a2" Sample.li 1690000000001]
  /\ search (o_category Sample.zhang) []
     = [Sample.record "a1" Sample.zhang 1690000000000]
  /\ search (o_category Sample.li) []
     = [Sample.record "a2" Sample.li 1690000000001]
  /\ search (o_category Sample.zhang) (o_name Sample.li) = [].
Proof. repeat split; vm_compute; reflexivity. Qed.

(** The duplicate check: the same name in the same category, in another
    category, and a name that is not in the collection. *)
Example duplicate_example :
  hasDuplicate (contacts Sample.two) (Some (o_name Sample.zhang))
               (Some (o_category Sample.zhang)) None = true
  /\ hasDuplicate (contacts Sample.two) (Some (o_name Sample.zhang))
                  (Some (o_category Sample.li)) None = false
  /\ hasDuplicate (contacts Sample.two) (Some (o_name Sample.wang))
                  (Some (o_category Sample.zhang)) None = false.
Proof. repeat split; vm_compute; reflexivity. Qed.

(** ** The further properties on the sample data *)

(** The card and the detail view of 张三, whose data the form accepts. *)
Lemma same_phone_witness :
  formatPhone (Contact_new Sample.first 0 Sample.zhang)
  = detailPhone (showContact (Contact_new Sample.first 0 Sample.zhang))
  /\ copyPhoneNumber (Some (Contact_new Sample.first 0 Sample.zhang))
     = Some (o_phone Sample.zhang).
Proof.
  apply (card_and_detail_show_the_same_phone Sample.first 0 Sample.zhang).
  vm_compute. reflexivity.
Defined.

(** An id that neither of the two contacts has. *)
Lemma unknown_id_witness :
  getContactById Sample.two (js "zz") = None
  /\ deleteContact Sample.first (js "zz") Sample.two = (failure MsgNotFound, Sample.two)
  /\ updateContact Sample.first (js "zz") Sample.new_phone Sample.two
     = (Return (failure MsgNotFound), Sample.two).
Proof.
  apply (unknown_id_changes_nothing Sample.first (js "zz") Sample.new_phone Sample.two).
  apply Forall_forall. apply (bool_decide_unpack (Forall _ _)). vm_compute. exact I.
Defined.

(** 张三 is deleted from the two contacts. *)
Lemma delete_witness :
  exists k deleted,
    contacts Sample.two !! k = Some deleted
    /\ id deleted = js "a1"
    /\ getContactById Sample.two (js "a1") = Some deleted
    /\ contact (fst (deleteContact Sample.first (js "a1") Sample.two)) = Some deleted
    /\ contacts (snd (deleteContact Sample.first (js "a1") Sample.two))
       = take k (contacts Sample.two) ++ drop (S k) (contacts Sample.two)
    /\ S (length (contacts (snd (deleteContact Sample.first (js "a1") Sample.two))))
       = length (contacts Sample.two)
    /\ (forall j, (j < k)%nat ->
                  contacts (snd (deleteContact Sample.first (js "a1") Sample.two)) !! j
                  = contacts Sample.two !! j)
    /\ (forall j, (k <= j)%nat ->
                  contacts (snd (deleteContact Sample.first (js "a1") Sample.two)) !! j
                  = contacts Sample.two !! S j).
Proof.
  apply (delete_removes_only_the_target Sample.first (js "a1") Sample.two).
  - apply injective_projections; reflexivity.
  - vm_compute. reflexivity.
Defined.

(** 王五 is added to the two contacts. *)
Lemma add_then_get_witness :
  exists c,
    contact (fst (addContact Sample.first Sample.wang Sample.two)) = Some c
    /\ contacts (snd (addContact Sample.first Sample.wang Sample.two))
       = contacts Sample.two ++ [c]
    /\ name c = o_name Sample.wang /\ phone c = o_phone Sample.wang
    /\ address c = o_address Sample.wang /\ category c = o_category Sample.wang
    /\ id c <> []
    /\ (forall i, i <> id c ->
                  getContactById (snd (addContact Sample.first Sample.wang Sample.two)) i
                  = getContactById Sample.two i)
    /\ ((forall a, a ∈ contacts Sample.two -> id a <> id c) ->
        getContactById (snd (addContact Sample.first Sample.wang Sample.two)) (id c) = Some c).
Proof.
  apply (add_then_get Sample.first Sample.wang Sample.two).
  - apply injective_projections; reflexivity.
  - vm_compute. reflexivity.
Defined.

(** 王五 is added to the two contacts and deleted again. *)
Lemma add_then_delete_witness :
  contacts (snd (deleteContact Sample.second (id (Contact_new Sample.first 0 Sample.wang))
                   (snd (addContact Sample.first Sample.wang Sample.two))))
  = contacts Sample.two
  /\ contact (fst (deleteContact Sample.second (id (Contact_new Sample.first 0 Sample.wang))
                     (snd (addContact Sample.first Sample.wang Sample.two))))
     = contact (fst (addContact Sample.first Sample.wang Sample.two)).
Proof.
  apply (add_then_delete Sample.first Sample.second Sample.wang Sample.two
           (fst (addContact Sample.first Sample.wang Sample.two))
           (snd (addContact Sample.first Sample.wang Sample.two))
           (fst (deleteContact Sample.second (id (Contact_new Sample.first 0 Sample.wang))
                   (snd (addContact Sample.first Sample.wang Sample.two))))
           (snd (deleteContact Sample.second (id (Contact_new Sample.first 0 Sample.wang))
                   (snd (addContact Sample.first Sample.wang Sample.two))))).
  - apply injective_projections; reflexivity.
  - vm_compute. reflexivity.
  - apply Forall_forall. apply (bool_decide_unpack (Forall _ _)). vm_compute. exact I.
  - apply injective_projections; reflexivity.
  - vm_compute. reflexivity.
Defined.


(** A collection whose second contact has no valid date. *)
Lemma invalid_date_witness :
  saveToStorage Sample.first Sample.undated = (false, Sample.undated)
  /\ (forall contactData,
         success (fst (addContact Sample.first contactData Sample.undated)) = false
         /\ snd (addContact Sample.first contactData Sample.undated) = Sample.undated)
  /\ (forall i updatedData,
         snd (updateContact Sample.first i updatedData Sample.undated) = Sample.undated
         /\ forall r, fst (updateContact Sample.first i updatedData Sample.undated) = Return r ->
                      success r = false)
  /\ (forall i, i <> js "a3" ->
                success (fst (deleteContact Sample.first i Sample.undated)) = false
                /\ snd (deleteContact Sample.first i Sample.undated) = Sample.undated).
Proof.
  apply (invalid_date_blocks_saving Sample.first Sample.undated
           {| id := js "a3"; name := o_name Sample.wang; phone := o_phone Sample.wang;
              address := o_address Sample.wang; category := o_category Sample.wang;
              createdAt := InvalidDate |}).
  - apply list_elem_of_further, list_elem_of_here.
  - reflexivity.
Defined.

(** 李四 is given the name and the category of 张三 in the form. *)
Lemma form_uniqueness_witness :
  unique_name_category
    (contacts (snd (handleSubmit Sample.first (Some (js "a2")) (o_name Sample.zhang)
                      (js "13887654321") (js "XX") (o_category Sample.zhang) Sample.two))).
Proof.
  apply (form_keeps_uniqueness Sample.first (Some (js "a2")) (o_name Sample.zhang)
           (js "13887654321") (js "XX") (o_category Sample.zhang) Sample.two).
  - intros [|[|i]] [|[|j]] a b Ha Hb Hn Hc; cbn in Ha, Hb; try done;
      injection Ha as <-; injection Hb as <-; discriminate Hc.
  - apply (bool_decide_unpack (NoDup _)). vm_compute. exact I.
Defined.

(** A form whose name is three spaces. *)
Lemma blank_form_witness :
  submit Sample.first None Sample.spaces Sample.two
  = (Rejected (Some MsgRequired), Sample.two).
Proof.
  apply (blank_fields_are_rejected Sample.first None Sample.spaces Sample.two).
  left. apply (bool_decide_unpack (Forall _ _)). vm_compute. exact I.
Defined.

(** 王五, typed with white space around the name, the phone and the
    address. *)
Lemma trimmed_form_witness :
  exists c,
    contact (fst (addContact Sample.first Sample.wang Sample.two)) = Some c
    /\ last (contacts (snd (submit Sample.first None Sample.typed Sample.two))) = Some c
    /\ name c = trim (name_value Sample.typed)
    /\ phone c = trim (phone_value Sample.typed)
    /\ address c = trim (address_value Sample.typed)
    /\ category c = category_value Sample.typed
    /\ name c <> [] /\ address c <> []
    /\ (7 <= length (phone c))%nat
    /\ Forall (fun d => is_digit (charCode d) = true) (phone c)
    /\ (forall ch, head (name c) = Some ch \/ last (name c) = Some ch
                   \/ head (address c) = Some ch \/ last (address c) = Some ch ->
                   is_white_space (charCode ch) = false).
Proof.
  apply (form_adds_trimmed_contact Sample.first Sample.typed Sample.two
           (fst (addContact Sample.first Sample.wang Sample.two))
           (snd (submit Sample.first None Sample.typed Sample.two))).
  - apply injective_projections; [vm_compute; reflexivity|reflexivity].
  - vm_compute. reflexivity.
Defined.

(** An item of another script beside the two contacts. *)
Lemma slots_witness :
  localStorage (loadFromStorage Sample.first Sample.themed) !! js "theme"
  = localStorage Sample.themed !! js "theme"
  /\ ((exists items x,
          fst (readAndDecrypt Sample.first (js "contacts") (localStorage Sample.themed))
          = Some (JArr items)
          /\ load_items Sample.first 0 (List.filter valid_item items) = Throw x
          /\ contacts (loadFromStorage Sample.first Sample.themed) = []
          /\ localStorage (loadFromStorage Sample.first Sample.themed) !! js "contacts" = None)
      \/ localStorage (loadFromStorage Sample.first Sample.themed) !! js "contacts"
         = localStorage Sample.themed !! js "contacts")
  /\ (forall contactData,
         localStorage (snd (addContact Sample.first contactData Sample.themed)) !! js "theme"
         = localStorage Sample.themed !! js "theme")
  /\ (forall i updatedData,
         localStorage (snd (updateContact Sample.first i updatedData Sample.themed))
         !! js "theme"
         = localStorage Sample.themed !! js "theme")
  /\ (forall i, localStorage (snd (deleteContact Sample.first i Sample.themed)) !! js "theme"
                = localStorage Sample.themed !! js "theme").
Proof.
  apply (only_two_slots_are_written Sample.first Sample.themed (js "theme")); discriminate.
Defined.

(** A stored entry whose creation date cannot be converted: [new Date]
    throws a TypeError, and the load empties the collection of a manager
    that held two contacts and removes the stored text. *)
Example unreadable_date_example :
  @JSON_parse Ref.browser (Ref.stringify (JArr Sample.shadowed)) = Some (JArr Sample.shadowed)
  /\ load_items Sample.first 0 (List.filter valid_item Sample.shadowed) = Throw TypeError
  /\ contacts (loadFromStorage Sample.first Sample.unreadable) = []
  /\ localStorage Sample.unreadable !! js "contacts"
     = Some (Ref.stringify (JArr Sample.shadowed))
  /\ localStorage (loadFromStorage Sample.first Sample.unreadable) !! js "contacts" = None.
Proof. repeat split; vm_compute; reflexivity. Qed.

(** A key slot that holds the text broken. *)
Lemma broken_key_witness :
  getKey Sample.first Sample.broken = (None, Sample.broken)
  /\ (forall data, encrypt Sample.first data Sample.broken = (data, Sample.broken))
  /\ (forall data, decrypt Sample.first data Sample.broken = (data, Sample.broken))
  /\ (forall key data,
         encryptAndStore Sample.first key data Sample.broken
         = if @quota Ref.browser Sample.broken key (@JSON_stringify Ref.browser data)
           then (true, <[key := @JSON_stringify Ref.browser data]> Sample.broken)
           else (false, Sample.broken)).
Proof.
  apply (broken_key_slot_disables_encryption Sample.first Sample.broken (js "broken")).
  - vm_compute. reflexivity.
  - discriminate.
  - vm_compute. reflexivity.
Defined.

(** The key of a browser, made in an empty storage. *)
Lemma getKey_witness :
  (forall k, k <> keyName -> snd (getKey Sample.first ∅) !! k = (∅ : Storage) !! k)
  /\ (forall key sto',
         getKey Sample.first ∅ = (Some key, sto') ->
         getKey Sample.second sto' = (Some key, sto')
         /\ ((∅ : Storage) !! keyName = None ->
             key = generated_key Sample.first /\ sto' = <[keyName := exportKey key]> ∅))
  /\ (@crypto_supported Ref.browser = false ->
      forall sto', getKey Sample.first sto' = (None, sto')).
Proof. exact (getKey_makes_one_key Sample.first Sample.second ∅). Defined.

(** The entries, stored under another key by a browser. *)
Lemma stored_array_witness :
  fst (readAndDecrypt Sample.second (js "backup")
         (snd (encryptAndStore Sample.first (js "backup") (JArr Sample.entries) ∅)))
  = Some (JArr Sample.entries)
  /\ (forall k, k <> keyName -> k <> js "backup" ->
                snd (encryptAndStore Sample.first (js "backup") (JArr Sample.entries) ∅) !! k
                = (∅ : Storage) !! k).
Proof.
  apply (stored_array_is_read_back Sample.first Sample.second (js "backup") Sample.entries ∅).
  - discriminate.
  - exact entries_plain.
  - apply injective_projections; [vm_compute; reflexivity|reflexivity].
Defined.

(** The entries as plain text in the storage of a browser. *)
Lemma plain_text_witness :
  fst (readAndDecrypt Sample.first (js "contacts") (localStorage Sample.scripted))
  = Some (JArr Sample.entries)
  /\ (forall cs,
         load_items Sample.first 0 (List.filter valid_item Sample.entries) = Return cs ->
         contacts (loadFromStorage Sample.first Sample.scripted) = cs
         /\ length cs = length (List.filter valid_item Sample.entries)
         /\ (forall k item,
                List.filter valid_item Sample.entries !! k = Some item ->
                exists c,
                  cs !! k = Some c
                  /\ string_prop item (js "name") = Some (name c)
                  /\ string_prop item (js "phone") = Some (phone c)
                  /\ string_prop item (js "category") = Some (category c)))
  /\ (forall x,
         load_items Sample.first 0 (List.filter valid_item Sample.entries) = Throw x ->
         contacts (loadFromStorage Sample.first Sample.scripted) = []
         /\ localStorage (loadFromStorage Sample.first Sample.scripted) !! js "contacts"
            = None)
  /\ (Forall plain_object Sample.entries ->
      exists cs, load_items Sample.first 0 (List.filter valid_item Sample.entries)
                 = Return cs).
Proof.
  apply (plain_text_is_loaded Sample.first (Ref.stringify (JArr Sample.entries))
           Sample.entries Sample.scripted).
  - vm_compute. reflexivity.
  - vm_compute. reflexivity.
Defined.

(** The two entries with a phone are loaded, in their order. *)
Example plain_text_example :
  map name (contacts (loadFromStorage Sample.first Sample.scripted))
  = [o_name Sample.zhang; o_name Sample.li]
  /\ map phone (contacts (loadFromStorage Sample.first Sample.scripted))
     = [o_phone Sample.zhang; o_phone Sample.li].
Proof. split; vm_compute; reflexivity. Qed.

(** The three bytes of Man in a browser, and forty-one bytes in an engine
    whose calls take forty arguments. *)
Lemma base64_witness :
  (exists base64,
      @arrayBufferToBase64 Ref.browser [x4d; x61; x6e] = Some base64
      /\ base64ToArrayBuffer base64 = Some [x4d; x61; x6e]
      /\ length base64 = (4 * ((length [x4d; x61; x6e] + 2) / 3))%nat)
  /\ @arrayBufferToBase64 Ref.narrow (repeat x00 41) = None.
Proof.
  split.
  - apply (base64_round_trip (P := Ref.browser) [x4d; x61; x6e]). vm_compute. discriminate.
  - apply (base64_round_trip (P := Ref.narrow) (repeat x00 41)). vm_compute. reflexivity.
Defined.

(** The two contacts, saved by a browser and loaded again. *)
Lemma save_then_load_witness :
  contacts (ContactManager_new Sample.second
              (localStorage (snd (saveToStorage Sample.first Sample.two))))
  = contacts Sample.two
  /\ contacts (loadFromStorage Sample.second (snd (saveToStorage Sample.first Sample.two)))
     = contacts Sample.two.
Proof.
  apply (save_then_load Sample.first Sample.second Sample.two
           (snd (saveToStorage Sample.first Sample.two))).
  - apply injective_projections; [vm_compute; reflexivity|reflexivity].
  - apply (bool_decide_unpack (Forall _ _)). vm_compute. exact I.
  - intros c ms Hc Hms. apply list_elem_of_In in Hc.
    destruct Hc as [<-|[<-|[]]]; injection Hms as <-;
      (split; [vm_compute; discriminate|vm_compute; reflexivity]).
Defined.

(** 王五 is added while a callback throws. *)
Lemma failing_listener_witness :
  fst (addContact Sample.first Sample.wang Sample.watched) = failure MsgSaveFailed
  /\ contacts (snd (addContact Sample.first Sample.wang Sample.watched))
     = contacts Sample.watched
  /\ length (contacts (ContactManager_new Sample.second
                         (localStorage (snd (addContact Sample.first Sample.wang
                                               Sample.watched)))))
     = S (length (contacts Sample.watched))
  /\ exists loaded,
      last (contacts (ContactManager_new Sample.second
                        (localStorage (snd (addContact Sample.first Sample.wang
                                              Sample.watched)))))
      = Some loaded
      /\ name loaded = o_name Sample.wang /\ phone loaded = o_phone Sample.wang
      /\ address loaded = o_address Sample.wang /\ category loaded = o_category Sample.wang.
Proof.
  apply (failing_listener_keeps_the_write Sample.first Sample.second Sample.wang Sample.watched
           (match @toJSON_all Ref.browser (contacts Sample.watched ++ [Contact_new Sample.first 0 Sample.wang])
            with Return items => items | Throw _ => [] end)).
  - vm_compute. reflexivity.
  - vm_compute. reflexivity.
  - vm_compute. reflexivity.
  - vm_compute. reflexivity.
Defined.

(** The file of the two contacts. *)
Lemma exported_file_witness :
  exists file,
    exportToCSV Sample.first (js "all") Sample.two = (true, Some file)
    /\ split 10 (Utf8.decode (blob file))
       = join (js ",") csvHeaders
         :: map (fun c => join (js ",") (map quoted (fields c)))
                (filterContacts (P := Ref.browser) Sample.two (js "all") []).
Proof.
  apply (exported_file_has_one_line_per_contact Sample.first (js "all") Sample.two).
  - vm_compute. discriminate.
  - apply Forall_forall. intros c Hc. apply list_elem_of_In in Hc.
    destruct Hc as [<-|[<-|[]]]; repeat constructor.
  - apply Forall_forall. intros c Hc. apply list_elem_of_In in Hc.
    destruct Hc as [<-|[<-|[]]];
      repeat (constructor; [apply (bool_decide_unpack (Forall _ _)); vm_compute; exact I|]);
      constructor.
Defined.

(** The cards of the two contacts, newest first. *)
Lemma render_witness :
  match render (P := Ref.browser) Sample.two (js "all") [] (js "desc") with
  | EmptyMessage _ => filterContacts (P := Ref.browser) Sample.two (js "all") [] = []
  | Cards shown =>
    filterContacts (P := Ref.browser) Sample.two (js "all") [] <> []
    /\ shown ≡ₚ filterContacts (P := Ref.browser) Sample.two (js "all") []
    /\ (forall i j a b, (i < j)%nat -> shown !! i = Some a -> shown !! j = Some b ->
                        in_order (js "desc") a b)
    /\ (forall d, List.filter (fun c => bool_decide (createdAt c = d)) shown
                  = List.filter (fun c => bool_decide (createdAt c = d))
                                (filterContacts (P := Ref.browser) Sample.two (js "all") []))
  end.
Proof.
  apply (render_orders_the_filtered (P := Ref.browser) Sample.two (js "all") [] (js "desc")).
  repeat constructor; discriminate.
Defined.

(** The cards of the example: 李四, who was added last, comes first. *)
Example render_example :
  render (P := Ref.browser) Sample.two (js "all") [] (js "desc")
  = Cards [Sample.record "a2" Sample.li 1690000000001;
           Sample.record "a1" Sample.zhang 1690000000000]
  /\ render (P := Ref.browser) Sample.two (js "all") [] (js "asc")
     = Cards [Sample.record "a1" Sample.zhang 1690000000000;
              Sample.record "a2" Sample.li 1690000000001]
  /\ render (P := Ref.browser) Sample.two (js "all") (js "zzz") (js "desc")
     = EmptyMessage (NoMatch (js "zzz")).
Proof. repeat split; vm_compute; reflexivity. Qed.

(** The phone texts of the test of the detail view; a phone of eleven
    digits that is no mobile number is grouped as well. *)
Example formatPhoneNumber_example :
  formatPhoneNumber (js "13512345678") = js "135-1234-5678"
  /\ formatPhoneNumber (js "135 1234 5678") = js "135-1234-5678"
  /\ formatPhoneNumber (js "01012345678") = js "010-1234-5678"
  /\ formatPhoneNumber (js "123456") = js "123456".
Proof. repeat split; vm_compute; reflexivity. Qed.

(** The two contacts: what is added, changed or deleted is in the
    storage. *)
Lemma persisted_witness :
  (forall contactData r st',
      addContact Sample.first contactData Sample.two = (r, st') -> success r = true ->
      contacts (ContactManager_new Sample.second (localStorage st')) = contacts st')
  /\ (forall i updatedData r st',
         updateContact Sample.first i updatedData Sample.two = (Return r, st') ->
         success r = true ->
         contacts (ContactManager_new Sample.second (localStorage st')) = contacts st')
  /\ (forall i r st',
         deleteContact Sample.first i Sample.two = (r, st') -> success r = true ->
         contacts (ContactManager_new Sample.second (localStorage st')) = contacts st').
Proof.
  apply (successful_operations_are_persisted Sample.first Sample.second Sample.two).
  - apply (bool_decide_unpack (Forall _ _)). vm_compute. exact I.
  - intros ms [->|(c & Hc & Hms)].
    + split; [vm_compute; discriminate|vm_compute; reflexivity].
    + apply list_elem_of_In in Hc.
      destruct Hc as [<-|[<-|[]]]; injection Hms as <-;
        (split; [vm_compute; discriminate|vm_compute; reflexivity]).
Defined.

(** The two contacts in a browser whose storage is full. *)
Lemma failed_operations_witness :
  (forall contactData,
      success (fst (addContact Sample.refused contactData Sample.two)) = false ->
      contacts (snd (addContact Sample.refused contactData Sample.two)) = contacts Sample.two
      /\ localStorage (snd (addContact Sample.refused contactData Sample.two)) !! js "contacts"
         = localStorage Sample.two !! js "contacts")
  /\ (forall i updatedData,
         match fst (updateContact Sample.refused i updatedData Sample.two) with
         | Return r => success r = false
         | Throw _ => True
         end ->
         contacts (snd (updateContact Sample.refused i updatedData Sample.two))
         = contacts Sample.two
         /\ localStorage (snd (updateContact Sample.refused i updatedData Sample.two))
            !! js "contacts"
            = localStorage Sample.two !! js "contacts")
  /\ (forall i,
         success (fst (deleteContact Sample.refused i Sample.two)) = false ->
         contacts (snd (deleteContact Sample.refused i Sample.two)) = contacts Sample.two
         /\ localStorage (snd (deleteContact Sample.refused i Sample.two)) !! js "contacts"
            = localStorage Sample.two !! js "contacts").
Proof.
  apply (failed_operations_leave_the_stored_collection Sample.refused Sample.two).
  reflexivity.
Defined.

(** 张三 is opened for editing: the form that comes up is the empty add
    form, and submitting it with a new phone adds a second 张三 in place
    of changing the first (here the duplicate check refuses it). *)
Example editContact_example :
  editContact Sample.unfilled (Sample.record "a1" Sample.zhang 1690000000000) Sample.modal
  = {| editingContactId := None; form_values := Sample.unfilled; title := TitleAdd;
       error_line := None; displayed := true |}
  /\ fst (submit_modal Sample.first
            (typing {| name_value := o_name Sample.zhang; phone_value := js "13600001111";
                       address_value := o_address Sample.zhang;
                       category_value := o_category Sample.zhang |}
                    (editContact Sample.unfilled
                       (Sample.record "a1" Sample.zhang 1690000000000) Sample.modal))
            Sample.two)
     = Answered (failure (MsgDuplicate (Some (o_name Sample.zhang)))).
Proof. split; vm_compute; reflexivity. Qed.
